(** * ISCN karyotype scoring: a model of [My_expert_karyo_functions.py]

    The Python module is embedded function by function.

    - A Python [str] is a [string], the sequence of its UTF-8 bytes; an
      ASCII character is one [ascii] below 128, any other character a
      sequence of bytes from 128 up.  The character classes of [re], of
      [str.strip] and of [int(...)] are the ASCII ones: white space is
      [\t \n \v \f \r], [\x1c]-[\x1f] and the blank, a decimal digit is
      [0]-[9]; every other byte is neither.  On a string of ASCII characters
      ([is_ascii]) these are Python's classes; Python also counts some
      characters beyond ASCII as white space or as decimal digits, which the
      model does not.
    - A Python [int] is a [Z]; the conversion [int(...)] refuses more than
      4300 digits, CPython's default limit.
    - An argument that need not be a [str] is a [pyobject].
    - A [dict] (and a [Counter]) is an association list in insertion order,
      a [set] a duplicate-free list; the code never depends on the iteration
      order of a set.
    - A raised exception is the [Raise] result of a small error monad;
      [try/except Exception] is a match on that result.
    - A data frame is the list of its rows, a row a record of its columns.
    - [re] patterns are values of [Re.regex], run by a backtracking matcher
      with Python's priorities (ordered alternation, greedy and lazy
      repetition). *)

From Stdlib Require Import String Ascii List ZArith Bool Arith Lia DecimalString Permutation.
Import ListNotations.
Open Scope string_scope.
Open Scope list_scope.
Open Scope nat_scope.

(* ================================================================== *)
(** ** Python values: exceptions, strings, dictionaries *)

Module Py.

(** The exceptions the module can raise; each carries [str(e)]. *)
Inductive exn : Type :=
| IndexError (msg : string)
| ValueError (msg : string)
| UnboundLocalError (msg : string)
| KeyError (msg : string)
| TypeError (msg : string).

Definition str_exn (e : exn) : string :=
  match e with
  | IndexError m | ValueError m | UnboundLocalError m | KeyError m
  | TypeError m => m
  end.

Inductive res (A : Type) : Type :=
| Ok (a : A)
| Raise (e : exn).
Arguments Ok {A} a.
Arguments Raise {A} e.

Definition bind {A B : Type} (x : res A) (f : A -> res B) : res B :=
  match x with
  | Ok a => f a
  | Raise e => Raise e
  end.

(** A [for] loop whose body may raise: the first exception leaves the loop. *)
Fixpoint for_each {A S : Type} (body : S -> A -> res S) (l : list A) (st : S) : res S :=
  match l with
  | [] => Ok st
  | x :: t => bind (body st x) (for_each body t)
  end.

(** An object passed where the module expects a [str]: a [str], a
    bytes-like object ([bytes], [bytearray], [memoryview]), or an object of
    another type, of which only the name of the type is observed (the
    [float] of an empty cell of a data file, [NoneType], [int], ...). *)
Inductive pyobject : Type :=
| PyStr (s : string)
| PyBytesLike
| PyOther (type_name : string).

(** *** Characters *)

Definition newline : ascii := ascii_of_nat 10.

(** The characters of ASCII. *)
Definition is_ascii (c : ascii) : bool := nat_of_ascii c <? 128.

(** [str.isspace] on ASCII, which is also the class [\s]. *)
Definition isspace (c : ascii) : bool :=
  let n := nat_of_ascii c in
  ((9 <=? n) && (n <=? 13)) || ((28 <=? n) && (n <=? 32)).

(** The class [\d] (and [[0-9]]). *)
Definition isdigit (c : ascii) : bool :=
  let n := nat_of_ascii c in (48 <=? n) && (n <=? 57).

(** *** [str] methods *)

(** [s.startswith(p)] *)
Fixpoint startswith (s p : string) {struct p} : bool :=
  match p with
  | EmptyString => true
  | String a p' =>
      match s with
      | EmptyString => false
      | String b s' => Ascii.eqb a b && startswith s' p'
      end
  end.

(** [sub in s] *)
Fixpoint contains (sub s : string) : bool :=
  startswith s sub
  || match s with
     | EmptyString => false
     | String _ r => contains sub r
     end.

(** [s.lstrip(chars)], [s.rstrip(chars)], [s.strip(chars)] for a set of
    characters given as a class. *)
Fixpoint lstrip (p : ascii -> bool) (s : string) : string :=
  match s with
  | EmptyString => EmptyString
  | String c r => if p c then lstrip p r else s
  end.

Fixpoint rstrip (p : ascii -> bool) (s : string) : string :=
  match s with
  | EmptyString => EmptyString
  | String c r =>
      match rstrip p r with
      | EmptyString => if p c then EmptyString else String c EmptyString
      | r' => String c r'
      end
  end.

Definition strip (p : ascii -> bool) (s : string) : string := rstrip p (lstrip p s).

(** [s.split(sep)] for a one-character separator: never the empty list. *)
Fixpoint split (sep : ascii) (s : string) : list string :=
  match s with
  | EmptyString => [EmptyString]
  | String c r =>
      if Ascii.eqb c sep then EmptyString :: split sep r
      else match split sep r with
           | h :: t => String c h :: t
           | [] => [String c EmptyString]
           end
  end.

(** [sep.join(l)] *)
Definition join (sep : string) (l : list string) : string := String.concat sep l.

(** [bool(s)] *)
Definition truthy (s : string) : bool := negb (s =? "")%string.

(** [str(n)] for a non-negative integer, as used by the f-string. *)
Definition str_nat (n : nat) : string := NilEmpty.string_of_uint (Nat.to_uint n).

(** [sys.int_info.default_max_str_digits] *)
Definition max_str_digits : nat := 4300.

(** [int(s)] on a string of decimal digits (all the module ever passes):
    [ValueError] on the empty string, and on more digits than
    [max_str_digits]. *)
Fixpoint digits_value (acc : Z) (s : string) : option Z :=
  match s with
  | EmptyString => Some acc
  | String c r =>
      if isdigit c
      then digits_value (10 * acc + (Z.of_nat (nat_of_ascii c) - 48)) r
      else None
  end.

Definition int_ (s : string) : res Z :=
  let bad := ValueError ("invalid literal for int() with base 10: '" ++ s ++ "'") in
  match s with
  | EmptyString => Raise bad
  | _ => match digits_value 0 s with
         | Some z =>
             if max_str_digits <? String.length s
             then Raise (ValueError
                           ("Exceeds the limit (4300 digits) for integer string conversion: value has "
                            ++ str_nat (String.length s)
                            ++ " digits; use sys.set_int_max_str_digits() to increase the limit"))
             else Ok z
         | None => Raise bad
         end
  end.

(** [l[0]] *)
Definition index0 {A : Type} (l : list A) : res A :=
  match l with
  | x :: _ => Ok x
  | [] => Raise (IndexError "list index out of range")
  end.

(** *** Sets of strings, as duplicate-free lists *)

Definition set_mem (x : string) (s : list string) : bool := existsb (String.eqb x) s.

Definition set_add (s : list string) (x : string) : list string :=
  if set_mem x s then s else s ++ [x].

(** [s.update(l)], and [set(l)] as [set_update [] l]. *)
Definition set_update (s : list string) (l : list string) : list string :=
  fold_left set_add l s.

(** *** Dictionaries, in insertion order *)

Section Dict.
Context {K V : Type} (keq : K -> K -> bool).

Definition dict : Type := list (K * V).

Fixpoint get (k : K) (d : dict) : option V :=
  match d with
  | [] => None
  | (k', v) :: t => if keq k k' then Some v else get k t
  end.

(** [k in d] *)
Definition mem (k : K) (d : dict) : bool :=
  match get k d with
  | Some _ => true
  | None => false
  end.

(** The value of key [k] becomes [f (old value)]; a new key goes last, an
    old one keeps its place. *)
Fixpoint upsert (k : K) (f : option V -> V) (d : dict) : dict :=
  match d with
  | [] => [(k, f None)]
  | (k', v) :: t =>
      if keq k k' then (k', f (Some v)) :: t else (k', v) :: upsert k f t
  end.

(** [d[k] = v] *)
Definition setitem (k : K) (v : V) (d : dict) : dict := upsert k (fun _ => v) d.

(** [d.setdefault(k, v)], for its effect on [d] *)
Definition setdefault (k : K) (v : V) (d : dict) : dict :=
  upsert k (fun o => match o with Some old => old | None => v end) d.

(** [d.get(k, dflt)] *)
Definition get_default (k : K) (dflt : V) (d : dict) : V :=
  match get k d with
  | Some v => v
  | None => dflt
  end.

Definition keys (d : dict) : list K := map fst d.
Definition values (d : dict) : list V := map snd d.

End Dict.

(** [d[k]] for a string key: [KeyError] when absent. *)
Definition getitem {V : Type} (k : string) (d : @dict string V) : res V :=
  match get String.eqb k d with
  | Some v => Ok v
  | None => Raise (KeyError ("'" ++ k ++ "'"))
  end.

(** [d.setdefault(k, []).append(x)] *)
Definition setdefault_append {K V : Type} (keq : K -> K -> bool)
  (k : K) (x : V) (d : @dict K (list V)) : @dict K (list V) :=
  upsert keq k (fun o => match o with Some l => l ++ [x] | None => [x] end) d.

(** [c[x] += 1] on a [Counter] *)
Definition count_step (c : @dict string Z) (x : string) : @dict string Z :=
  upsert String.eqb x (fun o => match o with Some n => n + 1 | None => 1 end)%Z c.

(** [Counter(l)] *)
Definition Counter (l : list string) : @dict string Z := fold_left count_step l [].

(** [c[k]] on a [Counter]: 0 for a missing key, never [KeyError]. *)
Definition count_of (k : string) (c : @dict string Z) : Z := get_default String.eqb k 0%Z c.

End Py.

(* ================================================================== *)
(** ** Regular expressions *)

Module Re.
Import Py.

(** The fragment of [re] syntax the module uses.  [Rep true r] is [r*],
    [Rep false r] is [r*?]. *)
Inductive regex : Type :=
| Eps
| Chr (p : ascii -> bool)
| Seq (r1 r2 : regex)
| Alt (r1 r2 : regex)
| Rep (greedy : bool) (r : regex)
| Grp (r : regex)
| Bol
| Eol.

(** A literal string. *)
Fixpoint Lit (s : string) : regex :=
  match s with
  | EmptyString => Eps
  | String c r => Seq (Chr (Ascii.eqb c)) (Lit r)
  end.

(** [r+] and [r+?] *)
Definition Plus (greedy : bool) (r : regex) : regex := Seq r (Rep greedy r).

(** [r1|r2|...|rn] *)
Fixpoint Alts (l : list regex) : regex :=
  match l with
  | [] => Chr (fun _ => false)
  | [r] => r
  | r :: t => Alt r (Alts t)
  end.

(** [.] (without DOTALL), [\d], [\D], [\s] *)
Definition Dot : regex := Chr (fun c => negb (Ascii.eqb c newline)).
Definition Digit : regex := Chr isdigit.
Definition NonDigit : regex := Chr (fun c => negb (isdigit c)).
Definition Space : regex := Chr isspace.

(** What follows a sub-pattern: it receives the offset reached, the rest of
    the subject and the groups closed so far. *)
Definition cont (R : Type) : Type := nat -> string -> list string -> option R.

(** The loop of a repetition whose one iteration is [body].  The greedy
    loop tries one more iteration before what follows, the lazy one after.
    An iteration has to consume a character, so that a subject of length [n]
    allows at most [n] of them: [fuel] only has to exceed that length. *)
Fixpoint rep_loop {R : Type} (body : nat -> string -> list string -> cont R -> option R)
  (greedy : bool) (k : cont R) (fuel : nat) (pos : nat) (s : string)
  (caps : list string) {struct fuel} : option R :=
  let again :=
    fun _ : unit =>
      match fuel with
      | O => None
      | S fuel' =>
          body pos s caps
            (fun pos' s' caps' =>
               if pos <? pos' then rep_loop body greedy k fuel' pos' s' caps' else None)
      end in
  if greedy
  then match again tt with
       | Some x => Some x
       | None => k pos s caps
       end
  else match k pos s caps with
       | Some x => Some x
       | None => again tt
       end.

(** The backtracking matcher, in continuation-passing style.  [pos] is the
    offset of [s] in the subject, [caps] the texts of the groups closed so
    far (no pattern here nests groups or repeats one, so closing order is
    group order). *)
Fixpoint run {R : Type} (r : regex) (pos : nat) (s : string) (caps : list string)
  (k : cont R) {struct r} : option R :=
  match r with
  | Eps => k pos s caps
  | Chr p =>
      match s with
      | String c t => if p c then k (S pos) t caps else None
      | EmptyString => None
      end
  | Seq r1 r2 => run r1 pos s caps (fun pos' s' caps' => run r2 pos' s' caps' k)
  | Alt r1 r2 =>
      match run r1 pos s caps k with
      | Some x => Some x
      | None => run r2 pos s caps k
      end
  | Rep greedy r1 => rep_loop (run r1) greedy k (S (String.length s)) pos s caps
  | Grp r1 =>
      run r1 pos s caps
        (fun pos' s' caps' => k pos' s' (caps' ++ [substring 0 (pos' - pos) s]))
  | Bol => if pos =? 0 then k pos s caps else None
  | Eol =>
      if (s =? "")%string || (s =? String newline "")%string
      then k pos s caps else None
  end.

(** Two continuations that agree on every point the matcher can reach from
    [s] at offset [pos]: a suffix of [s] at the matching offset. *)
Definition agree_from {R : Type} (pos : nat) (s : string) (k1 k2 : cont R) : Prop :=
  forall pos' s' caps',
    String.length s' <= String.length s ->
    pos' + String.length s' = pos + String.length s ->
    k1 pos' s' caps' = k2 pos' s' caps'.

(** A match starting exactly at [s]: its length and its groups. *)
Definition match_at (r : regex) (pos : nat) (s : string) : option (nat * list string) :=
  run r pos s [] (fun pos' _ caps => Some (pos' - pos, caps)).

(** [re.match(r, s)]: [m.groups()] or [None]. *)
Definition match_ (r : regex) (s : string) : option (list string) :=
  option_map snd (match_at r 0 s).

(** [re.search(r, s)], leftmost match. *)
Fixpoint search_from (r : regex) (pos : nat) (s : string) : option (list string) :=
  match match_at r pos s with
  | Some (_, caps) => Some caps
  | None =>
      match s with
      | EmptyString => None
      | String _ t => search_from r (S pos) t
      end
  end.

Definition search (r : regex) (s : string) : option (list string) := search_from r 0 s.

(** [re.finditer(r, s)]: the groups of the successive non-overlapping
    matches.  [skip] counts the characters still covered by the last match.
    (No pattern of the module matches the empty string.) *)
Fixpoint finditer_from (r : regex) (skip pos : nat) (s : string) : list (list string) :=
  let here :=
    match skip with
    | O => match_at r pos s
    | S _ => None
    end in
  match here with
  | Some (n, caps) =>
      caps :: match s with
              | EmptyString => []
              | String _ t => finditer_from r (n - 1) (S pos) t
              end
  | None =>
      match s with
      | EmptyString => []
      | String _ t => finditer_from r (Nat.pred skip) (S pos) t
      end
  end.

Definition finditer (r : regex) (s : string) : list (list string) := finditer_from r 0 0 s.

(** [re.sub(r, "", s)]: every match is deleted. *)
Fixpoint sub_from (r : regex) (skip pos : nat) (s : string) : string :=
  match s with
  | EmptyString => EmptyString
  | String c t =>
      match skip with
      | S skip' => sub_from r skip' (S pos) t
      | O =>
          match match_at r pos s with
          | Some (S n, _) => sub_from r n (S pos) t
          | _ => String c (sub_from r 0 (S pos) t)
          end
      end
  end.

Definition sub_empty (r : regex) (s : string) : string := sub_from r 0 0 s.

(** [m.group(i)] for [i >= 1] *)
Definition group (i : nat) (caps : list string) : string := nth (i - 1) caps "".

End Re.

(* ================================================================== *)
(** ** The karyotype functions *)

Module Karyo.
Import Py Re.

Notation "x <- c1 ;; c2" := (bind c1 (fun x => c2))
  (at level 61, c1 at next level, right associativity).

(** [r1 r2 ... rn] *)
Definition Seqs (l : list regex) : regex := fold_right Seq Eps l.

(** The class [[0-9;]] *)
Definition digit_or_semicolon (c : ascii) : bool := isdigit c || Ascii.eqb c ";".

(** *** get_chromosomes *)

(** [(?:der|dic|del|dup|ins|t|i|ider|idic|r)\(([0-9;]+)] *)
Definition re_chromosomes : regex :=
  Seqs [ Alts (map Lit ["der"; "dic"; "del"; "dup"; "ins"; "t"; "i"; "ider"; "idic"; "r"]);
         Lit "(";
         Grp (Plus true (Chr digit_or_semicolon)) ].

Definition get_chromosomes (anom : string) : list string :=
  fold_left
    (fun nums m => fold_left set_add (split ";" (group 1 m)) nums)
    (finditer re_chromosomes anom) [].

(** *** parse_caryotype *)

(** [\s+], [\[.*?\]], [\D] *)
Definition re_spaces : regex := Plus true Space.
Definition re_bracket : regex := Seqs [Lit "["; Rep false Dot; Lit "]"].
Definition re_nondigit : regex := NonDigit.

(** The variables the loop of [parse_caryotype] updates; [pl] is a local of
    the function, not of the loop body: unbound until first assigned, and
    then kept from one clone to the next. *)
Record parse_state : Type := {
  anomalies : list string;
  clone_map : @dict string (list string);
  pl : option string
}.

Definition read_pl (v : option string) : res string :=
  match v with
  | Some s => Ok s
  | None =>
      Raise (UnboundLocalError
               "cannot access local variable 'pl' where it is not associated with a value")
  end.

Definition record_anomaly (an : string) (idx : nat) (st : parse_state) : parse_state :=
  {| anomalies := anomalies st ++ [an];
     clone_map := setdefault_append String.eqb an ("clone" ++ str_nat idx)%string (clone_map st);
     pl := pl st |}.

(** The body of the [try]. *)
Definition ploidy_block (parts : list string) (idx : nat) (st : parse_state) : res parse_state :=
  p0 <- index0 parts ;;
  total <- int_ (sub_empty re_nondigit p0) ;;
  if negb (total =? 46)%Z then
    let pl' :=
      if (total =? 92)%Z then Some "Tetraploidy"
      else if (total =? 69)%Z then Some "Triploidy"
      else pl st in
    v <- read_pl pl' ;;
    Ok (record_anomaly v idx
          {| anomalies := anomalies st; clone_map := clone_map st; pl := pl' |})
  else Ok st.

Definition clone_parts (clone : string) : list string :=
  map (fun p => strip (Ascii.eqb ".") (strip isspace p))
      (filter (fun p => truthy (strip isspace p)) (split "," clone)).

(** One turn of the loop over the clones.  [except Exception: pass] keeps
    the variables as the block left them, which is as they were before it:
    the block raises before its first assignment or append, or not at all. *)
Definition parse_clone (st : parse_state) (idx : nat) (clone : string) : parse_state :=
  let parts := clone_parts clone in
  let st1 :=
    match ploidy_block parts idx st with
    | Ok st' => st'
    | Raise _ => st
    end in
  fold_left (fun s an => record_anomaly an idx s) (skipn 2 parts) st1.

Definition split_clones (chaine_iscn : string) : list string :=
  map (sub_empty re_bracket) (split "/" (sub_empty re_spaces chaine_iscn)).

Fixpoint parse_clones (clones : list string) (idx : nat) (st : parse_state) : parse_state :=
  match clones with
  | [] => st
  | clone :: rest => parse_clones rest (S idx) (parse_clone st idx clone)
  end.

Definition parse_caryotype (chaine_iscn : string)
  : list string * @dict string (list string) :=
  let st :=
    parse_clones (split_clones chaine_iscn) 1
      {| anomalies := []; clone_map := []; pl := None |} in
  (anomalies st, clone_map st).

(** The subject of [re.sub] with a [str] pattern has to be a [str]:
    [TypeError] on anything else. *)
Definition re_subject (v : pyobject) : res string :=
  match v with
  | PyStr s => Ok s
  | PyBytesLike =>
      Raise (TypeError "cannot use a string pattern on a bytes-like object")
  | PyOther type_name =>
      Raise (TypeError ("expected string or bytes-like object, got '"
                        ++ type_name ++ "'"))
  end.

(** [parse_caryotype] on any argument: its first statement,
    [re.sub(r"\s+", "", chaine_iscn)], raises unless the argument is a
    [str]; on a [str] the function is [parse_caryotype] above. *)
Definition parse_caryotype_object (chaine_iscn : pyobject)
  : res (list string * @dict string (list string)) :=
  s <- re_subject chaine_iscn ;;
  Ok (parse_caryotype s).

(** *** The predicates *)

Definition is_single_chr_deseq (anom : string) (count : Z) : bool :=
  if startswith anom "+" && (1 <? count)%Z then true
  else if startswith anom "trp" then true
  else if startswith anom "ider" then true
  else false.

(** [^kw\(\d+(?:;\d+)+\)\(.+\)$] for [kw] = [t] or [ins] *)
Definition re_balanced (kw : string) : regex :=
  Seqs [ Bol; Lit kw; Lit "("; Plus true Digit;
         Plus true (Seq (Lit ";") (Plus true Digit));
         Lit ")"; Lit "("; Plus true Dot; Lit ")"; Eol ].

Definition is_some {A : Type} (o : option A) : bool :=
  match o with
  | Some _ => true
  | None => false
  end.

Definition is_balanced_translocation (anom : string) : bool :=
  is_some (match_ (re_balanced "t") anom)
  && negb (contains "der" anom) && negb (contains "+" anom) && negb (contains "-" anom).

Definition is_unbalanced_translocation (anom : string) : bool :=
  if (contains "der" anom || contains "dic" anom) && contains "t(" anom then true
  else if contains "t(" anom && negb (is_balanced_translocation anom) then true
  else false.

Definition is_balanced_insertion (anom : string) : bool :=
  is_some (match_ (re_balanced "ins") anom)
  && negb (contains "der" anom) && negb (contains "+" anom) && negb (contains "-" anom).

Definition is_complex_multichr_deseq (anom : string) : bool :=
  let chroms := get_chromosomes anom in
  if List.length chroms <=? 1 then false
  else if startswith anom "der" || startswith anom "dic" || startswith anom "r(" then true
  else if contains "ins(" anom && negb (is_balanced_insertion anom) then true
  else if contains "t(" anom && negb (is_balanced_translocation anom) then true
  else false.

(** *** type_anomalie *)

Definition type_anomalie (anom : string) : string :=
  if is_complex_multichr_deseq anom then "Multichromosomique déséquilibrée"
  else if is_balanced_translocation anom then "Translocation équilibrée"
  else if is_unbalanced_translocation anom then "Translocation déséquilibrée"
  else if is_balanced_insertion anom then "Insertion équilibrée"
  else if (anom =? "<2n>")%string then "Ploidy"
  else if contains "~" anom then "Pléiade chromosomique"
  else if (anom =? "+mar")%string then "Chromosome marqueur"
  else if contains "dmin" anom then "Double minutes"
  else if startswith anom "hsr" then "Homogeneously staining region"
  else if startswith anom "r(" then "Anneau"
  else if startswith anom "der" then "Chromosome dérivé"
  else if startswith anom "ins" then "Insertion"
  else if startswith anom "t(" then "Translocation"
  else if startswith anom "+" then ("Gain chr" ++ sub_empty re_nondigit anom)%string
  else if startswith anom "-" then ("Perte chr" ++ sub_empty re_nondigit anom)%string
  else if startswith anom "dup" then "Duplication"
  else if startswith anom "del" then "Délétion"
  else if startswith anom "trp" then "Triplication/Quadruplication"
  else if startswith anom "dic" then "Chromosome dicentrique"
  else if startswith anom "idic" then "Isodicentric chromosome"
  else if startswith anom "ider" then "Isoderivative chromosome"
  else if startswith anom "i(" || contains "iso" anom then "Isochromosome"
  else "Autre".

(** *** normalize_anomaly and detect_implicit_anomalies *)

Definition normalize_anomaly (anom : string) : string := lstrip (Ascii.eqb "?") anom.

Record implicit_entry : Type := { reason : string; ref : string }.

(** [(?:der|dic)\((\d+)\).*t\((\d+);(\d+)\)] *)
Definition re_der_t : regex :=
  Seqs [ Alt (Lit "der") (Lit "dic"); Lit "("; Grp (Plus true Digit); Lit ")";
         Rep true Dot;
         Lit "t"; Lit "("; Grp (Plus true Digit); Lit ";"; Grp (Plus true Digit); Lit ")" ].

(** [add|del|dup] *)
Definition re_explicit : regex := Alts [Lit "add"; Lit "del"; Lit "dup"].

(** [^(?:der|dic)\(([0-9;]+)\)] *)
Definition re_der_list : regex :=
  Seqs [ Bol; Alt (Lit "der") (Lit "dic"); Lit "(";
         Grp (Plus true (Chr digit_or_semicolon)); Lit ")" ].

(** [t\(([0-9;]+)\)] *)
Definition re_t_list : regex :=
  Seqs [ Lit "t"; Lit "("; Grp (Plus true (Chr digit_or_semicolon)); Lit ")" ].

(** [tuple(sorted([A, B]))] *)
Definition sorted_pair (a b : string) : string * string :=
  if String.leb a b then (a, b) else (b, a).

Definition pair_eqb (x y : string * string) : bool :=
  String.eqb (fst x) (fst y) && String.eqb (snd x) (snd y).

(** First loop of rule 1: the derivatives, grouped by translocation pair. *)
Definition t_events_step (t_events : @dict (string * string) (list string))
  (an : string) : @dict (string * string) (list string) :=
  match match_ re_der_t an with
  | Some m =>
      let A := group 2 m in
      let B := group 3 m in
      setdefault_append pair_eqb (sorted_pair A B) an t_events
  | None => t_events
  end.

Definition t_events_of (norm_keys : list string)
  : @dict (string * string) (list string) :=
  fold_left t_events_step norm_keys [].

(** Second loop of rule 1, for one group [ders]. *)
Definition mark_implicit_ders (norm_to_orig : @dict string string)
  (implicit : @dict string implicit_entry) (ders : list string)
  : res (@dict string implicit_entry) :=
  let explicits := filter (fun d => is_some (search re_explicit d)) ders in
  match explicits with
  | [] => Ok implicit
  | first :: _ =>
      r <- getitem first norm_to_orig ;;
      Ok (fold_left
            (fun imp d =>
               if negb (set_mem d explicits)
               then setitem String.eqb d {| reason := "Dérivé implicite"; ref := r |} imp
               else imp)
            ders implicit)
  end.

(** First loop of rule 2: chromosome number -> multi-chromosome derivatives. *)
Definition multi_der_step (multi_der : @dict string (list string)) (an : string)
  : @dict string (list string) :=
  if startswith an "der" || startswith an "dic" then
    match match_ re_der_list an with
    | Some m =>
        let chrs := set_update [] (split ";" (group 1 m)) in
        let chrs :=
          fold_left (fun chrs t => set_update chrs (split ";" (group 1 t)))
            (finditer re_t_list an) chrs in
        if 1 <? List.length chrs
        then fold_left (fun md c => setdefault_append String.eqb c an md) chrs multi_der
        else multi_der
    | None => multi_der
    end
  else multi_der.

Definition multi_der_of (norm_keys : list string) : @dict string (list string) :=
  fold_left multi_der_step norm_keys [].

(** Second loop of rule 2, for one normalized anomaly. *)
Definition mark_implicit_gain (norm_to_orig : @dict string string)
  (multi_der : @dict string (list string))
  (implicit : @dict string implicit_entry) (an : string)
  : res (@dict string implicit_entry) :=
  if startswith an "+" || startswith an "-" then
    let num := sub_empty re_nondigit an in
    if mem String.eqb num multi_der then
      l <- getitem num multi_der ;;
      ref_norm <- index0 l ;;
      let r := get_default String.eqb ref_norm ref_norm norm_to_orig in
      Ok (setitem String.eqb an {| reason := "Gain/perte implicite"; ref := r |} implicit)
    else Ok implicit
  else Ok implicit.

(** [norm_to_orig.setdefault(normalize_anomaly(a), a)] *)
Definition orig_step (d : @dict string string) (a : string) : @dict string string :=
  setdefault String.eqb (normalize_anomaly a) a d.

Definition norm_to_orig_of (anomalies : list string) : @dict string string :=
  fold_left orig_step anomalies [].

Definition detect_implicit_anomalies (anomalies : list string)
  : res (@dict string implicit_entry) :=
  let norm_counts := Counter (map normalize_anomaly anomalies) in
  let norm_to_orig := norm_to_orig_of anomalies in
  let t_events := t_events_of (keys norm_counts) in
  implicit <- for_each (mark_implicit_ders norm_to_orig) (values t_events) [] ;;
  let multi_der := multi_der_of (keys norm_counts) in
  for_each (mark_implicit_gain norm_to_orig multi_der) (keys norm_counts) implicit.

(** *** calcul_scores *)

(** A cell of the table that holds a number in the anomaly rows and the
    empty string in the total row. *)
Inductive cell : Type :=
| CInt (n : Z)
| CStr (s : string).

Record row : Type := {
  Anomalie : string;
  Type_ : string;
  Explication : string;
  Occurrences : cell;
  Clones : string;
  Score_Jondreville_2020 : Z;
  Score_ISCN_2024 : Z
}.

(** [^\+\d+c$] *)
Definition re_constitutional : regex := Seqs [Bol; Lit "+"; Plus true Digit; Lit "c"; Eol].

(** The block that branches c) and e) both carry. *)
Definition standard_scoring (norm : string) (cnt_norm : Z) : Z * string :=
  if is_single_chr_deseq norm cnt_norm
  then (2%Z, "Déséquilibre unichromosomique (2 points)")
  else if is_complex_multichr_deseq norm
  then (2%Z, "Déséquilibre multichromosomique complexe (2 points)")
  else if is_unbalanced_translocation norm
  then (2%Z, "Translocation déséquilibrée (2 points)")
  else (1%Z, "Anomalie standard (1 point)").

(** [score_i] and [explication] of one anomaly: branches a) to e). *)
Definition score_iscn (implicit_info : @dict string implicit_entry)
  (norm : string) (cnt_norm : Z) : res (Z * string) :=
  if is_some (match_ re_constitutional norm)
  then Ok (0%Z, "Anomalie constitutionnelle (0 point)")
  else if mem String.eqb norm implicit_info then
    info <- getitem norm implicit_info ;;
    Ok (0%Z, (reason info ++ " (" ++ ref info ++ ") (0 point)")%string)
  else if startswith norm "+" || startswith norm "-"
  then Ok (standard_scoring norm cnt_norm)
  else if startswith norm "dic"
  then Ok (2%Z, "Chromosome dicentrique (2 points)")
  else Ok (standard_scoring norm cnt_norm).

Record score_state : Type := {
  rows : list row;
  total_j : Z;
  total_i : Z
}.

(** The body of the loop over [counts.items()]. *)
Definition score_anomaly (clone_map : @dict string (list string))
  (norm_counts : @dict string Z) (implicit_info : @dict string implicit_entry)
  (st : score_state) (item : string * Z) : res score_state :=
  let anom := fst item in
  let cnt := snd item in
  let score_j := 1%Z in
  let norm := normalize_anomaly anom in
  let cnt_norm := count_of norm norm_counts in
  se <- score_iscn implicit_info norm cnt_norm ;;
  let score_i := fst se in
  let explication := snd se in
  Ok {| rows := rows st ++
                [ {| Anomalie := anom;
                     Type_ := type_anomalie norm;
                     Explication := explication;
                     Occurrences := CInt cnt;
                     Clones := join ", " (get_default String.eqb anom [] clone_map);
                     Score_Jondreville_2020 := score_j;
                     Score_ISCN_2024 := score_i |} ];
        total_j := (total_j st + score_j)%Z;
        total_i := (total_i st + score_i)%Z |}.

Definition total_row (tj ti : Z) : row :=
  {| Anomalie := "TOTAL";
     Type_ := "";
     Explication := "";
     Occurrences := CStr "";
     Clones := "";
     Score_Jondreville_2020 := tj;
     Score_ISCN_2024 := ti |}.

(** The data frame is the list of its rows. *)
Definition calcul_scores (anomalies : list string)
  (clone_map : @dict string (list string)) : res (list row * Z) :=
  let counts := Counter anomalies in
  let norm_counts := Counter (map normalize_anomaly anomalies) in
  implicit_info <- detect_implicit_anomalies anomalies ;;
  st <- for_each (score_anomaly clone_map norm_counts implicit_info) counts
          {| rows := []; total_j := 0; total_i := 0 |} ;;
  Ok (rows st ++ [total_row (total_j st) (total_i st)], total_i st).

(** *** analyser_formule *)

(** The [try ... except Exception as e] of [analyser_formule] around the
    outcome of its two calls. *)
Definition try_except (attempt : res (list row * Z))
  : option (list row) * Z * option string :=
  match attempt with
  | Ok (df, total) => (Some df, total, None)
  | Raise e =>
      (None, 0%Z, Some ("Erreur lors de l'analyse de la formule: " ++ str_exn e)%string)
  end.

Definition analyser_formule (formule : string)
  : option (list row) * Z * option string :=
  try_except
    (let parsed := parse_caryotype formule in
     calcul_scores (fst parsed) (snd parsed)).

(** [analyser_formule] on any argument; the file mode of [app.py] passes it
    the cells of a data frame column as they are, and an empty cell is a
    [float]. *)
Definition analyser_formule_object (formule : pyobject)
  : option (list row) * Z * option string :=
  try_except
    (parsed <- parse_caryotype_object formule ;;
     calcul_scores (fst parsed) (snd parsed)).

End Karyo.


(* ================================================================== *)
(** ** Statements used by the theorems *)

Module Props.
Import Py Re Karyo.

(** Some opening parenthesis of [s] is directly followed by a digit or a
    semicolon. *)
Fixpoint paren_before_list_char (s : string) : bool :=
  match s with
  | EmptyString => false
  | String c r =>
      (Ascii.eqb c "("
       && match r with
          | String d _ => digit_or_semicolon d
          | EmptyString => false
          end)
      || paren_before_list_char r
  end.

(** The prefix rules 19 to 21 of [type_anomalie] with their labels. *)
Definition late_prefix_rules : list (string * string) :=
  [ ("dic", "Chromosome dicentrique");
    ("idic", "Isodicentric chromosome");
    ("ider", "Isoderivative chromosome") ].

(** The anomaly rows of what [analyser_formule] returns: all rows of the
    table but the last, the total row. *)
Definition anomaly_rows (result : option (list row) * Z * option string) : list row :=
  match fst (fst result) with
  | Some df => removelast df
  | None => []
  end.

(** The formula of the implicit-suppression scenario. *)
Definition suppression_formula : string :=
  "46,XY,der(9)t(9;22)(q34;q11),add(9)(q34)/46,XY,der(9)t(9;22)(q34;q11)[cp5]".

(** Number of positions of [a] in the flat anomaly list. *)
Definition positions (anomalies : list string) (a : string) : Z :=
  Z.of_nat (count_occ string_dec anomalies a).

(** What the scoring loop puts in the row of one item of [counts]. *)
Definition row_of_item (clone_map : @dict string (list string))
  (item : string * Z) (r : row) : Prop :=
  Anomalie r = fst item
  /\ Type_ r = type_anomalie (normalize_anomaly (fst item))
  /\ Occurrences r = CInt (snd item)
  /\ Clones r = join ", " (get_default String.eqb (fst item) [] clone_map)
  /\ Score_Jondreville_2020 r = 1%Z
  /\ (0 <= Score_ISCN_2024 r <= 2)%Z.

(** *** Statements about strings and tables *)

(** The characters of [s] that satisfy [p], in order. *)
Fixpoint filter_chars (p : ascii -> bool) (s : string) : string :=
  match s with
  | EmptyString => EmptyString
  | String c r => if p c then String c (filter_chars p r) else filter_chars p r
  end.

(** [s] without its white space. *)
Definition remove_spaces (s : string) : string :=
  filter_chars (fun c => negb (isspace c)) s.

(** Every character of [s] satisfies [p]. *)
Fixpoint all_chars (p : ascii -> bool) (s : string) : bool :=
  match s with
  | EmptyString => true
  | String c r => p c && all_chars p r
  end.

(** The first [n] characters of [s] exist and satisfy [p]. *)
Fixpoint prefix_all (p : ascii -> bool) (n : nat) (s : string) : bool :=
  match n with
  | O => true
  | S n' =>
      match s with
      | EmptyString => false
      | String c r => p c && prefix_all p n' r
      end
  end.

(** The last character of [s]. *)
Fixpoint last_char (s : string) : option ascii :=
  match s with
  | EmptyString => None
  | String c EmptyString => Some c
  | String _ r => last_char r
  end.

(** A character a token never holds: white space, the field separator and
    the clone separator. *)
Definition separator_char (c : ascii) : bool :=
  isspace c || Ascii.eqb c "," || Ascii.eqb c "/".

(** A token as the tokenizer leaves it: no separator inside, no dot at
    either end. *)
Definition trimmed_token (a : string) : Prop :=
  all_chars (fun c => negb (separator_char c)) a = true
  /\ startswith a "." = false
  /\ last_char a <> Some "."%char.

(** The label of clone number [i]. *)
Definition clone_label (i : nat) : string := ("clone" ++ str_nat i)%string.

(** Sum of the ISCN 2024 scores of the rows. *)
Definition sum_iscn (rs : list row) : Z :=
  fold_right (fun r acc => (Score_ISCN_2024 r + acc)%Z) 0%Z rs.

(** The row the scoring loop builds for one item of [counts], in full. *)
Definition scored_row (clone_map : @dict string (list string))
  (norm_counts : @dict string Z) (implicit_info : @dict string implicit_entry)
  (item : string * Z) (r : row) : Prop :=
  exists se,
    score_iscn implicit_info (normalize_anomaly (fst item))
      (count_of (normalize_anomaly (fst item)) norm_counts) = Ok se
    /\ r = {| Anomalie := fst item;
              Type_ := type_anomalie (normalize_anomaly (fst item));
              Explication := snd se;
              Occurrences := CInt (snd item);
              Clones := join ", " (get_default String.eqb (fst item) [] clone_map);
              Score_Jondreville_2020 := 1;
              Score_ISCN_2024 := fst se |}.

(** The prefixes of the tokens the detector can mark implicit. *)
Definition implicit_prefix (k : string) : bool :=
  startswith k "der" || startswith k "dic" || startswith k "+" || startswith k "-".

(** An entry of the map of implicit anomalies, for the anomaly list
    [anomalies]: its key is a normalized token of the list, its reference a
    token of the list, and it comes from one of the two rules.  Rule 1 marks
    a [der]/[dic] token without [add], [del] or [dup] and refers to one
    that has it; rule 2 marks a [+]/[-] token and refers to a [der]/[dic]
    token. *)
Definition implicit_entry_ok (anomalies : list string)
  (entry : string * implicit_entry) : Prop :=
  let k := fst entry in
  let e := snd entry in
  In k (map normalize_anomaly anomalies)
  /\ In (ref e) anomalies
  /\ ((reason e = "Dérivé implicite"
       /\ startswith k "der" || startswith k "dic" = true
       /\ is_some (search re_explicit k) = false
       /\ is_some (search re_explicit (normalize_anomaly (ref e))) = true)
      \/ (reason e = "Gain/perte implicite"
          /\ startswith k "+" || startswith k "-" = true
          /\ startswith (normalize_anomaly (ref e)) "der"
             || startswith (normalize_anomaly (ref e)) "dic" = true)).

(** Recording the tokens [toks] for clone number [idx]. *)
Definition record_all (toks : list string) (idx : nat) (st : parse_state) : parse_state :=
  fold_left (fun s an => record_anomaly an idx s) toks st.

(** The clone map [cm] agrees with the flat list [anomalies] of a formula
    of [n] clones: a token has one label per position, it is a key exactly
    when it occurs, and every label names one of the [n] clones. *)
Definition clone_map_ok (n : nat) (anomalies : list string)
  (cm : @dict string (list string)) : Prop :=
  (forall a, List.length (get_default String.eqb a [] cm)
             = count_occ string_dec anomalies a)
  /\ (forall a, mem String.eqb a cm = true <-> In a anomalies)
  /\ (forall a x, In x (get_default String.eqb a [] cm) ->
        exists i, 1 <= i <= n /\ x = clone_label i).

(** The derivative [der(A)t(A;B)] followed by [rest] (its bands, or more). *)
Definition derivative_token (A B rest : string) : string :=
  ("der(" ++ A ++ ")t(" ++ (A ++ ";" ++ B) ++ ")" ++ rest)%string.

(** The derivative [der(C)t(A;B)] followed by [rest]. *)
Definition der_t_token (C A B rest : string) : string :=
  ("der(" ++ C ++ ")t(" ++ A ++ ";" ++ B ++ ")" ++ rest)%string.

(** The character [t]. *)
Definition is_t (c : ascii) : bool := Ascii.eqb c "t".


End Props.

(* ================================================================== *)
(** ** Lemmas on dictionaries and loops *)

Import Py Re Karyo Props.

Section DictFacts.
Context {K V : Type} (keq : K -> K -> bool).

Lemma get_In_values (k : K) (d : @dict K V) (v : V) :
  get keq k d = Some v -> In v (values d).
Proof.
  induction d as [|[k' v'] t IH]; simpl; [discriminate|].
  destruct (keq k k').
  - intros [= ->]. now left.
  - intros H. right. now apply IH.
Qed.

Lemma values_upsert_Forall (P : V -> Prop) (k : K) (f : option V -> V) (d : @dict K V) :
  Forall P (values d) ->
  P (f None) ->
  (forall v, P v -> P (f (Some v))) ->
  Forall P (values (upsert keq k f d)).
Proof.
  intros Hd Hnone Hsome.
  induction d as [|[k' v'] t IH]; simpl.
  - constructor; [exact Hnone | constructor].
  - inversion Hd as [|? ? Hv Ht]; subst.
    destruct (keq k k'); simpl; constructor; auto.
Qed.

Lemma keys_upsert_In (x k : K) (f : option V -> V) (d : @dict K V) :
  In x (keys (upsert keq k f d)) -> x = k \/ In x (keys d).
Proof.
  induction d as [|[k' v'] t IH]; simpl.
  - intros [<-|[]]. now left.
  - destruct (keq k k'); simpl; intros [H|H]; auto.
    destruct (IH H); auto.
Qed.

Lemma mem_upsert_mono (x k : K) (f : option V -> V) (d : @dict K V) :
  mem keq x d = true -> mem keq x (upsert keq k f d) = true.
Proof.
  unfold mem.
  induction d as [|[k' v'] t IH]; simpl; [discriminate|].
  destruct (keq k k'); simpl; destruct (keq x k'); auto.
Qed.

Hypothesis keq_eq : forall x y, keq x y = true <-> x = y.

Lemma keq_refl (x : K) : keq x x = true.
Proof. now apply keq_eq. Qed.

Lemma mem_upsert_same (k : K) (f : option V -> V) (d : @dict K V) :
  mem keq k (upsert keq k f d) = true.
Proof.
  unfold mem.
  induction d as [|[k' v'] t IH]; simpl.
  - now rewrite keq_refl.
  - destruct (keq k k') eqn:E; simpl; rewrite E; auto.
Qed.

Lemma get_upsert_same (k : K) (f : option V -> V) (d : @dict K V) :
  get keq k (upsert keq k f d) = Some (f (get keq k d)).
Proof.
  induction d as [|[k' v'] t IH]; simpl.
  - now rewrite keq_refl.
  - destruct (keq k k') eqn:E; simpl; rewrite E; auto.
Qed.

Lemma get_upsert_other (x k : K) (f : option V -> V) (d : @dict K V) :
  x <> k -> get keq x (upsert keq k f d) = get keq x d.
Proof.
  intros Hne.
  induction d as [|[k' v'] t IH]; simpl.
  - destruct (keq x k) eqn:E; [|reflexivity].
    apply keq_eq in E. contradiction.
  - destruct (keq k k') eqn:E; simpl.
    + apply keq_eq in E. subst k'.
      destruct (keq x k) eqn:E'; [|reflexivity].
      apply keq_eq in E'. contradiction.
    + now rewrite IH.
Qed.

Lemma get_none_not_key (k : K) (d : @dict K V) :
  get keq k d = None <-> ~ In k (keys d).
Proof.
  induction d as [|[k' v'] t IH]; simpl.
  - tauto.
  - destruct (keq k k') eqn:E.
    + apply keq_eq in E. subst. split; [discriminate | intros H; exfalso; auto].
    + rewrite IH. split.
      * intros H [->|H']; [|auto]. rewrite keq_refl in E. discriminate.
      * intros H H'. apply H. now right.
Qed.

Lemma keys_upsert (k : K) (f : option V -> V) (d : @dict K V) :
  keys (upsert keq k f d) = if mem keq k d then keys d else keys d ++ [k].
Proof.
  unfold mem.
  induction d as [|[k' v'] t IH]; simpl; [reflexivity|].
  destruct (keq k k') eqn:E; simpl; [reflexivity|].
  rewrite IH. now destruct (get keq k t).
Qed.

Lemma NoDup_keys_upsert (k : K) (f : option V -> V) (d : @dict K V) :
  NoDup (keys d) -> NoDup (keys (upsert keq k f d)).
Proof.
  intros Hd. rewrite keys_upsert. unfold mem.
  destruct (get keq k d) eqn:E; [exact Hd|].
  apply get_none_not_key in E.
  apply NoDup_app; [exact Hd | repeat constructor; auto | ].
  intros x Hx [<-|[]]. contradiction.
Qed.

Lemma In_dict_get (k : K) (v : V) (d : @dict K V) :
  NoDup (keys d) -> In (k, v) d -> get keq k d = Some v.
Proof.
  induction d as [|[k' v'] t IH]; simpl; [tauto|].
  intros Hnd [H|H].
  - injection H as -> ->. now rewrite keq_refl.
  - inversion Hnd as [|? ? Hni Hnd']; subst.
    destruct (keq k k') eqn:E.
    + apply keq_eq in E. subst k'. exfalso. apply Hni.
      change k with (fst (k, v)). now apply in_map.
    + now apply IH.
Qed.

End DictFacts.

(** *** Loops that may raise *)

Lemma for_each_total {A S : Type} (body : S -> A -> res S) (l : list A) :
  (forall st x, In x l -> exists st', body st x = Ok st') ->
  forall st, exists st', for_each body l st = Ok st'.
Proof.
  induction l as [|x t IH]; intros Hbody st; simpl.
  - now exists st.
  - destruct (Hbody st x) as [st1 E]; [now left|].
    rewrite E. simpl. apply IH. intros st2 y Hy. apply Hbody. now right.
Qed.

(** *** The dictionaries of [detect_implicit_anomalies] *)

Lemma count_fold_keys (l : list string) (acc : @dict string Z) (k : string) :
  In k (keys (fold_left count_step l acc)) -> In k (keys acc) \/ In k l.
Proof.
  revert acc.
  induction l as [|x t IH]; intros acc; simpl; [now left|].
  intros H. apply IH in H. destruct H as [H|H]; [|now right; right].
  apply keys_upsert_In in H. destruct H as [->|H]; [right; now left | now left].
Qed.

Lemma Counter_keys_In (l : list string) (k : string) :
  In k (keys (Counter l)) -> In k l.
Proof.
  unfold Counter. intros H.
  apply count_fold_keys in H. destruct H as [[]|H]. exact H.
Qed.

Lemma orig_fold_mono (l : list string) (acc : @dict string string) (k : string) :
  mem String.eqb k acc = true -> mem String.eqb k (fold_left orig_step l acc) = true.
Proof.
  revert acc.
  induction l as [|x t IH]; intros acc H; simpl; [exact H|].
  apply IH. now apply mem_upsert_mono.
Qed.

Lemma norm_to_orig_has_norm (l : list string) (a : string) :
  In a l -> mem String.eqb (normalize_anomaly a) (norm_to_orig_of l) = true.
Proof.
  unfold norm_to_orig_of.
  generalize (@nil (string * string)) as acc.
  induction l as [|x t IH]; intros acc; simpl; [tauto|].
  intros [->|H].
  - apply orig_fold_mono. apply mem_upsert_same. apply String.eqb_eq.
  - now apply IH.
Qed.

(** Every key of the normalized counter is a key of [norm_to_orig]. *)
Lemma norm_key_has_orig (anomalies : list string) (k : string) :
  In k (keys (Counter (map normalize_anomaly anomalies))) ->
  mem String.eqb k (norm_to_orig_of anomalies) = true.
Proof.
  intros H. apply Counter_keys_In in H.
  apply in_map_iff in H. destruct H as [a [<- Ha]].
  now apply norm_to_orig_has_norm.
Qed.

Lemma getitem_of_mem {V : Type} (k : string) (d : @dict string V) :
  mem String.eqb k d = true -> exists v, getitem k d = Ok v /\ get String.eqb k d = Some v.
Proof.
  unfold mem, getitem. destruct (get String.eqb k d) as [v|]; [|discriminate].
  intros _. now exists v.
Qed.

(** The groups of [t_events] only hold strings taken from the keys. *)
Lemma t_events_fold_members (Q : string -> Prop) (l : list string)
  (acc : @dict (string * string) (list string)) :
  Forall Q l -> Forall (Forall Q) (values acc) ->
  Forall (Forall Q) (values (fold_left t_events_step l acc)).
Proof.
  revert acc.
  induction l as [|x t IH]; intros acc Hl Hacc; simpl; [exact Hacc|].
  inversion Hl as [|? ? Hx Ht]; subst.
  apply IH; [exact Ht|].
  unfold t_events_step.
  destruct (match_ re_der_t x); [|exact Hacc].
  apply values_upsert_Forall; [exact Hacc | now repeat constructor | ].
  intros v Hv. apply Forall_app. split; [exact Hv | now repeat constructor].
Qed.

Lemma t_events_members (Q : string -> Prop) (l : list string) :
  Forall Q l -> Forall (Forall Q) (values (t_events_of l)).
Proof.
  intros Hl. apply t_events_fold_members; [exact Hl | constructor].
Qed.

Lemma mark_implicit_ders_total (nto : @dict string string)
  (implicit : @dict string implicit_entry) (ders : list string) :
  Forall (fun d => mem String.eqb d nto = true) ders ->
  exists implicit', mark_implicit_ders nto implicit ders = Ok implicit'.
Proof.
  intros Hders. unfold mark_implicit_ders.
  destruct (filter (fun d => is_some (search re_explicit d)) ders) as [|first rest] eqn:E.
  - now exists implicit.
  - assert (Hin : In first ders).
    { assert (H : In first (first :: rest)) by now left.
      rewrite <- E in H. now apply filter_In in H. }
    rewrite Forall_forall in Hders.
    destruct (getitem_of_mem first nto (Hders _ Hin)) as [v [-> _]].
    simpl. eexists. reflexivity.
Qed.

(** The lists of [multi_der] are never empty. *)
Lemma multi_der_step_nonempty (acc : @dict string (list string)) (an : string) :
  Forall (fun ders => ders <> []) (values acc) ->
  Forall (fun ders => ders <> []) (values (multi_der_step acc an)).
Proof.
  intros Hacc. unfold multi_der_step.
  destruct (startswith an "der" || startswith an "dic"); [|exact Hacc].
  destruct (match_ re_der_list an) as [m|]; [|exact Hacc].
  match goal with |- context [if ?b then _ else _] => destruct b end; [|exact Hacc].
  match goal with |- context [fold_left _ ?chrs acc] => generalize chrs end.
  intros chrs. revert acc Hacc.
  induction chrs as [|c cs IHc]; intros acc Hacc; simpl; [exact Hacc|].
  apply IHc. apply values_upsert_Forall; [exact Hacc | discriminate | ].
  intros v _. destruct v; discriminate.
Qed.

Lemma multi_der_nonempty (l : list string) :
  Forall (fun ders => ders <> []) (values (multi_der_of l)).
Proof.
  unfold multi_der_of.
  assert (G : forall acc : @dict string (list string),
             Forall (fun ders => ders <> []) (values acc) ->
             Forall (fun ders => ders <> []) (values (fold_left multi_der_step l acc))).
  { induction l as [|an t IH]; intros acc Hacc; simpl; [exact Hacc|].
    apply IH. now apply multi_der_step_nonempty. }
  apply G. constructor.
Qed.

Lemma mark_implicit_gain_total (nto : @dict string string) (l : list string)
  (implicit : @dict string implicit_entry) (an : string) :
  exists implicit', mark_implicit_gain nto (multi_der_of l) implicit an = Ok implicit'.
Proof.
  unfold mark_implicit_gain.
  destruct (startswith an "+" || startswith an "-"); [|now eexists].
  destruct (mem String.eqb (sub_empty re_nondigit an) (multi_der_of l)) eqn:E; [|now eexists].
  destruct (getitem_of_mem _ _ E) as [v [-> Hget]]. simpl.
  apply get_In_values in Hget.
  pose proof (multi_der_nonempty l) as Hne. rewrite Forall_forall in Hne.
  specialize (Hne _ Hget). destruct v as [|r rs]; [contradiction|].
  simpl. eexists. reflexivity.
Qed.

(** [detect_implicit_anomalies] never raises. *)
Lemma detect_implicit_anomalies_total (anomalies : list string) :
  exists implicit, detect_implicit_anomalies anomalies = Ok implicit.
Proof.
  unfold detect_implicit_anomalies.
  destruct (for_each_total (mark_implicit_ders (norm_to_orig_of anomalies))
              (values (t_events_of (keys (Counter (map normalize_anomaly anomalies))))))
    with (st := @nil (string * implicit_entry)) as [imp1 E1].
  { intros st ders Hders. apply mark_implicit_ders_total.
    pose proof (t_events_members (fun d => mem String.eqb d (norm_to_orig_of anomalies) = true)
                  (keys (Counter (map normalize_anomaly anomalies)))) as H.
    assert (Hk : Forall (fun d => mem String.eqb d (norm_to_orig_of anomalies) = true)
                   (keys (Counter (map normalize_anomaly anomalies)))).
    { apply Forall_forall. intros k Hk. now apply norm_key_has_orig. }
    specialize (H Hk). rewrite Forall_forall in H. now apply H. }
  rewrite E1. simpl.
  apply for_each_total. intros st an _. apply mark_implicit_gain_total.
Qed.

(** *** The counter *)

Lemma count_fold_NoDup (l : list string) (acc : @dict string Z) :
  NoDup (keys acc) -> NoDup (keys (fold_left count_step l acc)).
Proof.
  revert acc.
  induction l as [|x t IH]; intros acc H; simpl; [exact H|].
  apply IH. apply NoDup_keys_upsert; [apply String.eqb_eq | exact H].
Qed.

Lemma count_fold_mem (l : list string) (acc : @dict string Z) (k : string) :
  In k (keys acc) \/ In k l -> In k (keys (fold_left count_step l acc)).
Proof.
  revert acc.
  induction l as [|x t IH]; intros acc; simpl; [tauto|].
  intros H. apply IH. unfold count_step. rewrite (keys_upsert String.eqb).
  destruct (mem String.eqb x acc) eqn:E.
  - destruct H as [H|[->|H]]; auto.
    left. unfold mem in E.
    destruct (get String.eqb k acc) eqn:G; [|discriminate].
    destruct (in_dec string_dec k (keys acc)) as [Hin|Hni]; [exact Hin|].
    apply (get_none_not_key _ String.eqb_eq) in Hni. congruence.
  - rewrite in_app_iff. simpl. destruct H as [H|[->|H]]; auto.
Qed.

Lemma count_fold_value (l : list string) (acc : @dict string Z) (k : string) :
  count_of k (fold_left count_step l acc)
  = (count_of k acc + Z.of_nat (count_occ string_dec l k))%Z.
Proof.
  revert acc.
  induction l as [|x t IH]; intros acc; simpl; [lia|].
  rewrite IH. unfold count_of, get_default, count_step.
  destruct (string_dec x k) as [->|Hne].
  - rewrite (get_upsert_same _ String.eqb_eq).
    destruct (get String.eqb k acc); lia.
  - rewrite (get_upsert_other _ String.eqb_eq); [lia | congruence].
Qed.

Lemma Counter_NoDup (l : list string) : NoDup (keys (Counter l)).
Proof. apply count_fold_NoDup. constructor. Qed.

Lemma Counter_keys_iff (l : list string) (k : string) :
  In k (keys (Counter l)) <-> In k l.
Proof.
  split; [apply Counter_keys_In|].
  intros H. apply count_fold_mem. now right.
Qed.

Lemma Counter_item (l : list string) (k : string) (v : Z) :
  In (k, v) (Counter l) -> v = Z.of_nat (count_occ string_dec l k).
Proof.
  intros H.
  apply (In_dict_get _ String.eqb_eq) in H; [|apply Counter_NoDup].
  pose proof (count_fold_value l [] k) as E.
  fold (Counter l) in E. unfold count_of, get_default in E.
  rewrite H in E. simpl in E. lia.
Qed.

(** *** The scoring loop *)

Lemma standard_scoring_range (norm : string) (cnt : Z) :
  (0 <= fst (standard_scoring norm cnt) <= 2)%Z.
Proof.
  unfold standard_scoring.
  destruct (is_single_chr_deseq norm cnt); [simpl; lia|].
  destruct (is_complex_multichr_deseq norm); [simpl; lia|].
  destruct (is_unbalanced_translocation norm); simpl; lia.
Qed.

Lemma score_iscn_total (implicit_info : @dict string implicit_entry)
  (norm : string) (cnt : Z) :
  exists se, score_iscn implicit_info norm cnt = Ok se /\ (0 <= fst se <= 2)%Z.
Proof.
  unfold score_iscn.
  destruct (is_some (match_ re_constitutional norm)).
  { eexists. split; [reflexivity | simpl; lia]. }
  destruct (mem String.eqb norm implicit_info) eqn:E.
  { destruct (getitem_of_mem _ _ E) as [info [-> _]]. simpl.
    eexists. split; [reflexivity | simpl; lia]. }
  destruct (startswith norm "+" || startswith norm "-").
  { eexists. split; [reflexivity | apply standard_scoring_range]. }
  destruct (startswith norm "dic").
  { eexists. split; [reflexivity | simpl; lia]. }
  eexists. split; [reflexivity | apply standard_scoring_range].
Qed.

Lemma score_loop_shape (clone_map : @dict string (list string))
  (norm_counts : @dict string Z) (implicit_info : @dict string implicit_entry)
  (items : list (string * Z)) (st : score_state) :
  exists rs ti,
    for_each (score_anomaly clone_map norm_counts implicit_info) items st
    = Ok {| rows := rows st ++ rs;
            total_j := total_j st + Z.of_nat (List.length items);
            total_i := ti |}
    /\ Forall2 (row_of_item clone_map) items rs.
Proof.
  revert st.
  induction items as [|item t IH]; intros st.
  - exists [], (total_i st). simpl. rewrite app_nil_r, Z.add_0_r.
    destruct st; split; [reflexivity | constructor].
  - cbn [for_each]. unfold score_anomaly at 1.
    destruct (score_iscn_total implicit_info (normalize_anomaly (fst item))
                (count_of (normalize_anomaly (fst item)) norm_counts))
      as [se [-> Hrange]].
    cbn [bind].
    match goal with |- context [for_each _ t ?s] => destruct (IH s) as [rs [ti [E F]]] end.
    rewrite E. cbn [rows total_j total_i].
    eexists (_ :: rs), ti. split.
    + rewrite <- app_assoc. cbn [app]. do 2 f_equal.
      cbn [List.length]. lia.
    + constructor; [|exact F].
      unfold row_of_item. cbn. repeat split; lia.
Qed.

(** [calcul_scores] never raises, and its table has one row per item of
    [Counter(anomalies)], in order, followed by the total row. *)
Lemma calcul_scores_shape (anomalies : list string)
  (clone_map : @dict string (list string)) :
  exists rs ti,
    calcul_scores anomalies clone_map
    = Ok (rs ++ [total_row (Z.of_nat (List.length rs)) ti], ti)
    /\ Forall2 (row_of_item clone_map) (Counter anomalies) rs.
Proof.
  unfold calcul_scores.
  destruct (detect_implicit_anomalies_total anomalies) as [imp ->]. cbn [bind].
  destruct (score_loop_shape clone_map (Counter (map normalize_anomaly anomalies)) imp
              (Counter anomalies) {| rows := []; total_j := 0; total_i := 0 |})
    as [rs [ti [-> F]]].
  cbn [bind rows total_j total_i app].
  exists rs, ti. split; [|exact F].
  rewrite (Forall2_length F). reflexivity.
Qed.

Lemma analyser_formule_shape (formule : string) :
  exists rs ti,
    analyser_formule formule
    = (Some (rs ++ [total_row (Z.of_nat (List.length rs)) ti]), ti, None)
    /\ Forall2 (row_of_item (snd (parse_caryotype formule)))
         (Counter (fst (parse_caryotype formule))) rs.
Proof.
  unfold analyser_formule, try_except.
  destruct (calcul_scores_shape (fst (parse_caryotype formule))
              (snd (parse_caryotype formule))) as [rs [ti [-> F]]].
  now exists rs, ti.
Qed.

Lemma Forall2_row_keys (clone_map : @dict string (list string))
  (items : list (string * Z)) (rs : list row) :
  Forall2 (row_of_item clone_map) items rs -> map Anomalie rs = keys items.
Proof.
  induction 1 as [|item r items rs H _ IH]; simpl; [reflexivity|].
  destruct H as [-> _]. now rewrite IH.
Qed.

Lemma Forall2_row_In (clone_map : @dict string (list string))
  (items : list (string * Z)) (rs : list row) (r : row) :
  Forall2 (row_of_item clone_map) items rs -> In r rs ->
  exists item, In item items /\ row_of_item clone_map item r.
Proof.
  induction 1 as [|item r' items rs H _ IH]; simpl; [tauto|].
  intros [<-|Hin].
  - exists item. split; [now left | exact H].
  - destruct (IH Hin) as [it [Hit Hr]]. exists it. split; [now right | exact Hr].
Qed.

(** *** The fuel of a repetition *)

Lemma agree_from_suffix {R : Type} (pos pos' : nat) (s s' : string) (k1 k2 : cont R) :
  String.length s' <= String.length s ->
  pos' + String.length s' = pos + String.length s ->
  agree_from pos s k1 k2 -> agree_from pos' s' k1 k2.
Proof.
  intros Hlen Hpos H pos2 s2 caps2 Hlen2 Hpos2. apply H; lia.
Qed.

Lemma rep_loop_ext {R : Type}
  (body : nat -> string -> list string -> cont R -> option R) (greedy : bool) :
  (forall pos s caps k1 k2, agree_from pos s k1 k2 -> body pos s caps k1 = body pos s caps k2) ->
  forall fuel pos s caps k1 k2,
    agree_from pos s k1 k2 ->
    rep_loop body greedy k1 fuel pos s caps = rep_loop body greedy k2 fuel pos s caps.
Proof.
  intros Hbody fuel.
  induction fuel as [|fuel IH]; intros pos s caps k1 k2 Hk; cbn [rep_loop].
  - rewrite (Hk pos s caps) by lia. reflexivity.
  - rewrite (Hk pos s caps) by lia.
    rewrite (Hbody pos s caps _
               (fun pos' s' caps' =>
                  if pos <? pos' then rep_loop body greedy k2 fuel pos' s' caps' else None)).
    + reflexivity.
    + intros pos' s' caps' Hlen Hpos.
      destruct (pos <? pos'); [|reflexivity].
      apply IH. now apply (agree_from_suffix pos pos' s s').
Qed.

(** The result of the matcher depends on its continuation only at the
    points it can reach. *)
Lemma run_ext {R : Type} (r : regex) :
  forall pos s caps (k1 k2 : cont R),
    agree_from pos s k1 k2 -> run r pos s caps k1 = run r pos s caps k2.
Proof.
  induction r as [|p|r1 IH1 r2 IH2|r1 IH1 r2 IH2|g r1 IH1|r1 IH1| |];
    intros pos s caps k1 k2 Hk; cbn [run].
  - apply Hk; lia.
  - destruct s as [|c t]; [reflexivity|].
    destruct (p c); [|reflexivity]. apply Hk; cbn [String.length]; lia.
  - apply IH1. intros pos' s' caps' Hlen Hpos.
    apply IH2. now apply (agree_from_suffix pos pos' s s').
  - rewrite (IH1 pos s caps k1 k2 Hk), (IH2 pos s caps k1 k2 Hk). reflexivity.
  - apply rep_loop_ext; [exact IH1 | exact Hk].
  - apply IH1. intros pos' s' caps' Hlen Hpos. apply Hk; lia.
  - destruct (pos =? 0); [apply Hk; lia | reflexivity].
  - match goal with |- context [if ?b then _ else _] => destruct b end;
      [apply Hk; lia | reflexivity].
Qed.

(** Any fuel above the length of the subject gives the same repetition. *)
Lemma rep_loop_fuel {R : Type} (r : regex) (greedy : bool) (k : cont R) :
  forall n m pos s caps,
    String.length s < n -> String.length s < m ->
    rep_loop (run r) greedy k n pos s caps = rep_loop (run r) greedy k m pos s caps.
Proof.
  induction n as [|n IH]; intros m pos s caps Hn Hm; [lia|].
  destruct m as [|m]; [lia|].
  cbn [rep_loop].
  rewrite (run_ext r pos s caps _
             (fun pos' s' caps' =>
                if pos <? pos' then rep_loop (run r) greedy k m pos' s' caps' else None)).
  - reflexivity.
  - intros pos' s' caps' Hlen Hpos.
    destruct (pos <? pos') eqn:E; [|reflexivity].
    apply Nat.ltb_lt in E. apply IH; lia.
Qed.

(** *** The matcher on literals and alternatives *)

Lemma run_Lit_Some {R : Type} (l : string) (pos : nat) (s : string) (caps : list string)
  (k : cont R) (x : R) :
  run (Lit l) pos s caps k = Some x ->
  exists r, s = (l ++ r)%string /\ k (pos + String.length l) r caps = Some x.
Proof.
  revert pos s.
  induction l as [|c l IH]; intros pos s; cbn [Lit run String.length].
  - rewrite Nat.add_0_r. intros H. now exists s.
  - destruct s as [|c' t]; [discriminate|].
    destruct (Ascii.eqb c c') eqn:E; [|discriminate].
    apply Ascii.eqb_eq in E. subst c'.
    intros H. apply IH in H. destruct H as [r [-> H]].
    exists r. split; [reflexivity|].
    now rewrite Nat.add_succ_r.
Qed.

Lemma run_Alts_Some {R : Type} (l : list regex) (pos : nat) (s : string)
  (caps : list string) (k : cont R) (x : R) :
  run (Alts l) pos s caps k = Some x ->
  exists r, In r l /\ run r pos s caps k = Some x.
Proof.
  induction l as [|r t IH].
  - cbn [Alts run]. destruct s; discriminate.
  - destruct t as [|r' t'].
    + cbn [Alts]. intros H. exists r. split; [now left | exact H].
    + change (Alts (r :: r' :: t')) with (Alt r (Alts (r' :: t'))).
      cbn [run]. destruct (run r pos s caps k) as [y|] eqn:E; intros H.
      * exists r. split; [now left | congruence].
      * destruct (IH H) as [r0 [Hin Hr]].
        exists r0. split; [now right | exact Hr].
Qed.

Lemma startswith_app (s p : string) :
  startswith s p = true -> exists r, s = (p ++ r)%string.
Proof.
  revert s.
  induction p as [|c p IH]; intros s; simpl.
  - intros _. now exists s.
  - destruct s as [|c' t]; [discriminate|].
    destruct (Ascii.eqb c c') eqn:E; [|discriminate].
    apply Ascii.eqb_eq in E. subst c'.
    intros H. destruct (IH _ H) as [r ->]. now exists r.
Qed.

(** *** get_chromosomes without a digit list *)

Lemma paren_before_list_char_app (p : string) (d : ascii) (t : string) :
  digit_or_semicolon d = true ->
  paren_before_list_char (p ++ String "(" (String d t)) = true.
Proof.
  intros Hd. induction p as [|c p IH]; simpl.
  - now rewrite Hd.
  - rewrite IH. apply orb_true_r.
Qed.

Lemma match_at_chromosomes_none (pos : nat) (s : string) :
  paren_before_list_char s = false -> match_at re_chromosomes pos s = None.
Proof.
  intros Hs. unfold match_at.
  match goal with |- ?m = None => destruct m as [x|] eqn:E end; [exfalso|reflexivity].
  unfold re_chromosomes, Seqs in E. cbn [fold_right] in E.
  cbn [run] in E.
  apply run_Alts_Some in E. destruct E as [r [Hin E]].
  apply in_map_iff in Hin. destruct Hin as [kw [<- _]].
  apply run_Lit_Some in E. destruct E as [r1 [-> E]].
  apply run_Lit_Some in E. destruct E as [r2 [-> E]].
  cbn [Plus run] in E.
  destruct r2 as [|d t]; [discriminate|].
  destruct (digit_or_semicolon d) eqn:Hd; [|discriminate].
  change ("(" ++ String d t)%string with (String "(" (String d t)) in Hs.
  rewrite paren_before_list_char_app in Hs; [discriminate | exact Hd].
Qed.

Lemma finditer_chromosomes_nil (pos : nat) (s : string) :
  paren_before_list_char s = false -> finditer_from re_chromosomes 0 pos s = [].
Proof.
  revert pos.
  induction s as [|c t IH]; intros pos Hs; cbn [finditer_from].
  - now rewrite match_at_chromosomes_none.
  - rewrite match_at_chromosomes_none by exact Hs.
    cbn [Nat.pred]. apply IH.
    simpl in Hs. now apply orb_false_iff in Hs.
Qed.

Lemma get_chromosomes_nil (anom : string) :
  paren_before_list_char anom = false -> get_chromosomes anom = [].
Proof.
  intros H. unfold get_chromosomes, finditer.
  now rewrite finditer_chromosomes_nil.
Qed.

(* ================================================================== *)
(** ** The tokenizer *)

(** A clone whose count is none of 46, 92, 69, met while [pl] is still
    unbound: the [try] block raises and nothing is recorded. *)
Lemma ploidy_block_unbound (p0 : string) (rest : list string) (idx : nat)
  (st : parse_state) (total : Z) :
  int_ (sub_empty re_nondigit p0) = Ok total ->
  total <> 46%Z -> total <> 92%Z -> total <> 69%Z ->
  pl st = None ->
  exists e, ploidy_block (p0 :: rest) idx st = Raise e.
Proof.
  intros Hint H46 H92 H69 Hpl. unfold ploidy_block. cbn [index0 bind].
  rewrite Hint. cbn [bind].
  apply Z.eqb_neq in H46, H92, H69. rewrite H46, H92, H69, Hpl.
  cbn. eexists. reflexivity.
Qed.

(** The same clone met after [pl] was assigned: the old label is recorded
    again, for this clone. *)
Lemma ploidy_block_stale (p0 : string) (rest : list string) (idx : nat)
  (st : parse_state) (total : Z) (label : string) :
  int_ (sub_empty re_nondigit p0) = Ok total ->
  total <> 46%Z -> total <> 92%Z -> total <> 69%Z ->
  pl st = Some label ->
  ploidy_block (p0 :: rest) idx st = Ok (record_anomaly label idx st).
Proof.
  intros Hint H46 H92 H69 Hpl. unfold ploidy_block. cbn [index0 bind].
  rewrite Hint. cbn [bind].
  apply Z.eqb_neq in H46, H92, H69. rewrite H46, H92, H69, Hpl.
  cbn. unfold record_anomaly. cbn. rewrite Hpl. reflexivity.
Qed.

(** C2: in the formula [92,XXYY/47,XX,+8] the second clone has the count 47,
    and the tokenizer records [Tetraploidy] for it all the same: the label
    left in [pl] by the first clone is appended again. *)
Theorem parse_caryotype_stale_ploidy :
  parse_caryotype "92,XXYY/47,XX,+8"
  = ( ["Tetraploidy"; "Tetraploidy"; "+8"],
      [ ("Tetraploidy", ["clone1"; "clone2"]); ("+8", ["clone2"]) ] ).
Proof. vm_compute. reflexivity. Qed.

(** C5: for the formula [46,XY,.] the tokenizer emits one anomaly token and
    it is the empty string: a field made of dots passes the emptiness filter
    and is emptied by the trimming that follows. *)
Theorem parse_caryotype_empty_token :
  parse_caryotype "46,XY,." = ( [""], [ ("", ["clone1"]) ] ).
Proof. vm_compute. reflexivity. Qed.

(* ================================================================== *)
(** ** The resolver and the extractor *)

(** C4, as stated, fails: three tokens that reach the rules 19, 20 and 21. *)
Lemma late_rules_reached :
  type_anomalie "dic(9)(q10)" = "Chromosome dicentrique"
  /\ type_anomalie "idic(9)(q10)" = "Isodicentric chromosome"
  /\ type_anomalie "ider(9)(q10)" = "Isoderivative chromosome".
Proof. repeat split; vm_compute; reflexivity. Qed.

(** C4, amended: a token that starts with [dic], [idic] or [ider] and that
    none of the rules 1, 3, 6 and 8 takes (complex multichromosomal
    imbalance, unbalanced translocation, [~], [dmin]) is resolved by rule
    19, 20 or 21: no earlier prefix rule matches these prefixes. *)
Theorem late_prefix_rules_fire (anom p label : string) :
  In (p, label) late_prefix_rules ->
  startswith anom p = true ->
  is_complex_multichr_deseq anom = false ->
  is_unbalanced_translocation anom = false ->
  contains "~" anom = false ->
  contains "dmin" anom = false ->
  type_anomalie anom = label.
Proof.
  intros Hin Hp Hc Hu Ht Hd.
  apply startswith_app in Hp. destruct Hp as [r ->].
  unfold type_anomalie. rewrite Hc, Hu, Ht, Hd.
  destruct Hin as [E|[E|[E|[]]]]; injection E as <- <-; reflexivity.
Qed.

Lemma late_prefix_rules_fire_witness :
  type_anomalie "dic(9)(q10)" = "Chromosome dicentrique".
Proof.
  apply (late_prefix_rules_fire "dic(9)(q10)" "dic" "Chromosome dicentrique");
    [left; reflexivity | reflexivity | reflexivity | reflexivity | reflexivity | reflexivity].
Defined.

(** C10, as stated, fails: in [t(1;X)(p22;q21)] the list holds the
    non-digit designator [X], yet the extractor returns the two strings [1]
    and the empty one, and the token gets the multichromosomal category and
    the 2 points of the complex rule. *)
Lemma sex_chromosome_second_counterexample :
  get_chromosomes "t(1;X)(p22;q21)" = ["1"; ""]
  /\ is_complex_multichr_deseq "t(1;X)(p22;q21)" = true
  /\ type_anomalie "t(1;X)(p22;q21)" = "Multichromosomique déséquilibrée"
  /\ standard_scoring "t(1;X)(p22;q21)" 1
     = (2%Z, "Déséquilibre multichromosomique complexe (2 points)").
Proof. repeat split; vm_compute; reflexivity. Qed.

(** C10, amended: when no opening parenthesis of the token is directly
    followed by a digit or a semicolon (every list starts with a non-digit
    designator), the extractor returns the empty set, the token is not a
    complex multichromosomal imbalance, is never typed "Multichromosomique
    déséquilibrée" and never gets the 2 points of the complex rule. *)
Theorem nondigit_first_no_chromosomes (anom : string) :
  paren_before_list_char anom = false ->
  get_chromosomes anom = []
  /\ is_complex_multichr_deseq anom = false
  /\ type_anomalie anom <> "Multichromosomique déséquilibrée"
  /\ forall cnt,
       standard_scoring anom cnt
       <> (2%Z, "Déséquilibre multichromosomique complexe (2 points)").
Proof.
  intros H. apply get_chromosomes_nil in H.
  assert (Hc : is_complex_multichr_deseq anom = false).
  { unfold is_complex_multichr_deseq. now rewrite H. }
  repeat split; [exact H | exact Hc | | ].
  - unfold type_anomalie. rewrite Hc.
    repeat match goal with
           | |- context [if ?b then _ else _] => destruct b; [discriminate|]
           end.
    discriminate.
  - intros cnt. unfold standard_scoring. rewrite Hc.
    destruct (is_single_chr_deseq anom cnt); [discriminate|].
    destruct (is_unbalanced_translocation anom); discriminate.
Qed.

Lemma nondigit_first_no_chromosomes_witness :
  paren_before_list_char "der(X)t(X;8)(p11;q22)" = false
  /\ get_chromosomes "der(X)t(X;8)(p11;q22)" = []
  /\ is_complex_multichr_deseq "der(X)t(X;8)(p11;q22)" = false.
Proof.
  split; [reflexivity|].
  destruct (nondigit_first_no_chromosomes "der(X)t(X;8)(p11;q22)") as [H1 [H2 _]];
    [reflexivity | split; [exact H1 | exact H2]].
Defined.

(** C6: alone in a formula, [t(9;22)(q34;q11)] is a "Translocation
    équilibrée" with 1 point under the ISCN 2024 convention, and
    [der(9)t(9;22)(q34;q11)] is a "Multichromosomique déséquilibrée" with 2
    points. *)
Theorem balanced_and_derivative_alone :
  type_anomalie "t(9;22)(q34;q11)" = "Translocation équilibrée"
  /\ map (fun r => (Anomalie r, Type_ r, Score_ISCN_2024 r))
       (anomaly_rows (analyser_formule "46,XY,t(9;22)(q34;q11)"))
     = [ ("t(9;22)(q34;q11)", "Translocation équilibrée", 1%Z) ]
  /\ type_anomalie "der(9)t(9;22)(q34;q11)" = "Multichromosomique déséquilibrée"
  /\ map (fun r => (Anomalie r, Type_ r, Score_ISCN_2024 r))
       (anomaly_rows (analyser_formule "46,XY,der(9)t(9;22)(q34;q11)"))
     = [ ("der(9)t(9;22)(q34;q11)", "Multichromosomique déséquilibrée", 2%Z) ].
Proof. repeat split; vm_compute; reflexivity. Qed.

(* ================================================================== *)
(** ** Scoring *)

(** C1, as stated, fails: in the table of the scenario no row of the
    derivative has 0 point under the ISCN 2024 convention. *)
Lemma suppression_counterexample :
  ~ (exists r,
       In r (anomaly_rows (analyser_formule suppression_formula))
       /\ Anomalie r = "der(9)t(9;22)(q34;q11)"
       /\ Score_ISCN_2024 r = 0%Z).
Proof.
  intros [r [Hin [Ha Hs]]].
  vm_compute in Hin.
  destruct Hin as [<-|[<-|[]]]; discriminate.
Qed.

(** C1, amended: for the formula of the scenario the detector marks nothing
    implicit ([add(9)(q34)] is a token of its own, and rule 1 looks for
    [add], [del] or [dup] inside the derivative tokens only); the derivative
    has one row, for both clones, with 1 point under Jondreville 2020 and 2
    points under ISCN 2024 as a complex multichromosomal imbalance. *)
Theorem suppression_formula_scores :
  detect_implicit_anomalies (fst (parse_caryotype suppression_formula)) = Ok []
  /\ analyser_formule suppression_formula
     = ( Some
           [ {| Anomalie := "der(9)t(9;22)(q34;q11)";
                Type_ := "Multichromosomique déséquilibrée";
                Explication := "Déséquilibre multichromosomique complexe (2 points)";
                Occurrences := CInt 2;
                Clones := "clone1, clone2";
                Score_Jondreville_2020 := 1;
                Score_ISCN_2024 := 2 |};
             {| Anomalie := "add(9)(q34)";
                Type_ := "Autre";
                Explication := "Anomalie standard (1 point)";
                Occurrences := CInt 1;
                Clones := "clone1";
                Score_Jondreville_2020 := 1;
                Score_ISCN_2024 := 1 |};
             total_row 2 3 ],
         3%Z, None ).
Proof. split; vm_compute; reflexivity. Qed.

(** C3, as stated, fails: [+8] and [?+8] get a row each, and a token written
    twice in one clone is reported with 2 occurrences. *)
Lemma raw_forms_counterexample :
  map Anomalie (anomaly_rows (analyser_formule "47,XX,+8/47,XX,?+8")) = ["+8"; "?+8"]
  /\ map (fun r => (Anomalie r, Occurrences r, Clones r))
       (anomaly_rows (analyser_formule "46,XX,+8,+8"))
     = [ ("+8", CInt 2, "clone1, clone1") ].
Proof. split; vm_compute; reflexivity. Qed.

(** C3, amended: for every formula the table has one row per distinct raw
    token (two raw forms with the same normalized form keep a row each);
    the occurrence count of a row is the number of positions of its raw token
    in the flat anomaly list, and the normalized form is what the row is
    typed by. *)
Theorem rows_per_raw_token (formule : string) :
  exists rs tj ti,
    analyser_formule formule = (Some (rs ++ [total_row tj ti]), ti, None)
    /\ NoDup (map Anomalie rs)
    /\ (forall a, In a (map Anomalie rs) <-> In a (fst (parse_caryotype formule)))
    /\ (forall r, In r rs ->
          Occurrences r = CInt (positions (fst (parse_caryotype formule)) (Anomalie r))
          /\ Type_ r = type_anomalie (normalize_anomaly (Anomalie r))).
Proof.
  destruct (analyser_formule_shape formule) as [rs [ti [E F]]].
  exists rs, (Z.of_nat (List.length rs)), ti.
  pose proof (Forall2_row_keys _ _ _ F) as Hk.
  split; [exact E|]. split; [|split].
  - rewrite Hk. apply Counter_NoDup.
  - intros a. rewrite Hk. apply Counter_keys_iff.
  - intros r Hr.
    destruct (Forall2_row_In _ _ _ _ F Hr) as [[k v] [Hit [Ha [Hty [Ho _]]]]].
    cbn [fst snd] in Ha, Hty, Ho.
    apply Counter_item in Hit. subst k v.
    rewrite Ho, Hty. split; reflexivity.
Qed.

(** C7: for every formula the table ends with a row named TOTAL, every
    row before it has 1 point under Jondreville 2020, and the Jondreville
    cell of the TOTAL row holds the number of these rows, which is the
    number of distinct anomaly strings. *)
Theorem total_j_is_row_count (formule : string) :
  exists rs last_row total,
    analyser_formule formule = (Some (rs ++ [last_row]), total, None)
    /\ Anomalie last_row = "TOTAL"
    /\ Score_Jondreville_2020 last_row = Z.of_nat (List.length rs)
    /\ Forall (fun r => Score_Jondreville_2020 r = 1%Z) rs
    /\ List.length rs
       = List.length (nodup string_dec (fst (parse_caryotype formule))).
Proof.
  destruct (analyser_formule_shape formule) as [rs [ti [E F]]].
  exists rs, (total_row (Z.of_nat (List.length rs)) ti), ti.
  split; [exact E|]. split; [reflexivity|]. split; [reflexivity|]. split.
  - apply Forall_forall. intros r Hr.
    destruct (Forall2_row_In _ _ _ _ F Hr) as [it [_ [_ [_ [_ [_ [Hj _]]]]]]].
    exact Hj.
  - rewrite <- (length_map Anomalie rs), (Forall2_row_keys _ _ _ F).
    apply Permutation_length.
    apply NoDup_Permutation.
    + apply Counter_NoDup.
    + apply NoDup_nodup.
    + intros a. rewrite Counter_keys_iff, nodup_In. reflexivity.
Qed.

(** C8: [analyser_formule] returns on every argument, and nothing raised
    inside it gets out.  On a [str] it returns a table, its total and no
    error.  On any other argument the first [re.sub] of the parser raises
    [TypeError] and the function returns no table, the total 0 and the
    message "Erreur lors de l'analyse de la formule: " followed by the text
    of the exception. *)
Theorem analyser_formule_result_shapes :
  (forall formule : string,
     analyser_formule_object (PyStr formule) = analyser_formule formule
     /\ exists df total, analyser_formule formule = (Some df, total, None))
  /\ analyser_formule_object PyBytesLike
     = (None, 0%Z,
        Some "Erreur lors de l'analyse de la formule: cannot use a string pattern on a bytes-like object")
  /\ (forall type_name : string,
        analyser_formule_object (PyOther type_name)
        = (None, 0%Z,
           Some ("Erreur lors de l'analyse de la formule: expected string or bytes-like object, got '"
                 ++ type_name ++ "'")%string))
  /\ (forall formule : pyobject,
        (exists df total, analyser_formule_object formule = (Some df, total, None))
        \/ (exists e,
              parse_caryotype_object formule = Raise e
              /\ analyser_formule_object formule
                 = (None, 0%Z,
                    Some ("Erreur lors de l'analyse de la formule: " ++ str_exn e)%string))).
Proof.
  assert (Hstr : forall formule : string,
             exists df total, analyser_formule formule = (Some df, total, None)).
  { intros formule.
    destruct (analyser_formule_shape formule) as [rs [ti [E _]]].
    rewrite E. eexists. eexists. reflexivity. }
  split; [|split; [|split]].
  - intros formule. split; [reflexivity|apply Hstr].
  - reflexivity.
  - intros type_name. reflexivity.
  - intros [formule| |type_name].
    + left. change (analyser_formule_object (PyStr formule))
        with (analyser_formule formule). apply Hstr.
    + right. eexists. split; reflexivity.
    + right. eexists. split; reflexivity.
Qed.

(** C9: on every string [analyser_formule] returns a table and no error:
    the tokenizer is total (its [try] block absorbs what the ploidy parsing
    raises) and neither the detector nor the scoring loop raises. *)
Theorem analyser_formule_no_error (formule : string) :
  exists df total, analyser_formule formule = (Some df, total, None).
Proof.
  destruct (analyser_formule_shape formule) as [rs [ti [E _]]].
  rewrite E. eexists. eexists. reflexivity.
Qed.

(* ================================================================== *)
(** ** The matcher on character classes *)

Lemma rep_loop_eq {R : Type} (body : nat -> string -> list string -> cont R -> option R)
  (greedy : bool) (k : cont R) (fuel pos : nat) (s : string) (caps : list string) :
  rep_loop body greedy k fuel pos s caps
  = let again :=
      match fuel with
      | O => None
      | S fuel' =>
          body pos s caps
            (fun pos' s' caps' =>
               if pos <? pos' then rep_loop body greedy k fuel' pos' s' caps' else None)
      end in
    if greedy
    then match again with
         | Some x => Some x
         | None => k pos s caps
         end
    else match k pos s caps with
         | Some x => Some x
         | None => again
         end.
Proof. destruct fuel; reflexivity. Qed.

Lemma ltb_succ (n : nat) : (n <? S n) = true.
Proof. apply Nat.ltb_lt. lia. Qed.

(** A repetition of one class only stops after characters of the class. *)
Lemma rep_chr_reach {R : Type} (p : ascii -> bool) (greedy : bool) (k : cont R) :
  forall fuel pos s caps x,
    rep_loop (run (Chr p)) greedy k fuel pos s caps = Some x ->
    exists ds r,
      s = (ds ++ r)%string /\ all_chars p ds = true
      /\ k (pos + String.length ds) r caps = Some x.
Proof.
  assert (Stop : forall pos s caps x, k pos s caps = Some x ->
            exists ds r, s = (ds ++ r)%string /\ all_chars p ds = true
                         /\ k (pos + String.length ds) r caps = Some x).
  { intros pos s caps x H. exists EmptyString, s. cbn. now rewrite Nat.add_0_r. }
  induction fuel as [|fuel IH]; intros pos s caps x; rewrite rep_loop_eq; cbv zeta.
  - destruct greedy; [apply Stop|].
    destruct (k pos s caps) eqn:E; [|discriminate].
    intros [= <-]. now apply Stop.
  - assert (Again : forall y,
              run (Chr p) pos s caps
                (fun pos' s' caps' =>
                   if pos <? pos' then rep_loop (run (Chr p)) greedy k fuel pos' s' caps'
                   else None) = Some y ->
              exists ds r, s = (ds ++ r)%string /\ all_chars p ds = true
                           /\ k (pos + String.length ds) r caps = Some y).
    { intros y. cbn [run]. destruct s as [|c t]; [discriminate|].
      destruct (p c) eqn:Hc; [|discriminate].
      rewrite ltb_succ. intros H. apply IH in H.
      destruct H as [ds [r [-> [Hall Hk]]]].
      exists (String c ds), r. cbn. rewrite Hc, Hall.
      repeat split. now rewrite Nat.add_succ_r. }
    destruct greedy.
    + destruct (run (Chr p) pos s caps _) eqn:E.
      * intros [= <-]. now apply Again.
      * apply Stop.
    + destruct (k pos s caps) eqn:E.
      * intros [= <-]. now apply Stop.
      * apply Again.
Qed.

Lemma run_Chr_cons {R : Type} (p : ascii -> bool) (pos : nat) (c : ascii) (t : string)
  (caps : list string) (k : cont R) :
  run (Chr p) pos (String c t) caps k = if p c then k (S pos) t caps else None.
Proof. reflexivity. Qed.

(** It succeeds whenever what follows succeeds after a run of the class. *)
Lemma rep_chr_success {R : Type} (p : ascii -> bool) (greedy : bool) (k : cont R) :
  forall ds r fuel pos caps x,
    all_chars p ds = true ->
    String.length ds < fuel ->
    k (pos + String.length ds) r caps = Some x ->
    exists y, rep_loop (run (Chr p)) greedy k fuel pos (ds ++ r) caps = Some y.
Proof.
  induction ds as [|c ds IH]; intros r fuel pos caps x Hall Hfuel Hk;
    rewrite rep_loop_eq; cbv zeta.
  - cbn in Hk. rewrite Nat.add_0_r in Hk. cbn [append]. rewrite Hk.
    destruct greedy; [|now eexists].
    match goal with |- exists y, match ?a with _ => _ end = _ => destruct a end; now eexists.
  - destruct fuel as [|fuel]; [cbn in Hfuel; lia|].
    cbn in Hall. apply andb_true_iff in Hall. destruct Hall as [Hc Hall].
    cbn [append]. rewrite run_Chr_cons, Hc, ltb_succ.
    destruct (IH r fuel (S pos) caps x Hall) as [y Hy].
    { cbn in Hfuel. lia. }
    { cbn in Hk. now rewrite Nat.add_succ_r in Hk. }
    rewrite Hy.
    destruct greedy; [now eexists|].
    destruct (k pos (String c (ds ++ r)) caps); now eexists.
Qed.

Lemma prefix_all_app (p : ascii -> bool) (ds r : string) :
  all_chars p ds = true -> prefix_all p (String.length ds) (ds ++ r) = true.
Proof.
  induction ds as [|c ds IH]; cbn; [reflexivity|].
  intros H. apply andb_true_iff in H. destruct H as [-> H]. now apply IH.
Qed.

Lemma substring_app_prefix (u r : string) :
  substring 0 (String.length u) (u ++ r) = u.
Proof.
  induction u as [|c u IH]; cbn.
  - destruct r; reflexivity.
  - now rewrite IH.
Qed.

(** *** Matches of [p+] *)

Lemma match_at_plus_some (p : ascii -> bool) (pos : nat) (s : string)
  (n : nat) (caps : list string) :
  match_at (Plus true (Chr p)) pos s = Some (n, caps) ->
  (exists m, n = S m) /\ prefix_all p n s = true.
Proof.
  unfold match_at, Plus. cbn [run].
  destruct s as [|c t]; [discriminate|].
  destruct (p c) eqn:Hc; [|discriminate].
  intros H. apply rep_chr_reach in H.
  destruct H as [ds [r [-> [Hall Hk]]]].
  assert (En : n = S (String.length ds)).
  { assert (Hn : S pos + String.length ds - pos = n) by congruence. lia. }
  rewrite En. split; [now eexists|].
  cbn. rewrite Hc. now apply prefix_all_app.
Qed.

Lemma match_at_plus_hit (p : ascii -> bool) (pos : nat) (c : ascii) (t : string) :
  p c = true ->
  exists n caps, match_at (Plus true (Chr p)) pos (String c t) = Some (S n, caps).
Proof.
  intros Hc.
  destruct (match_at (Plus true (Chr p)) pos (String c t)) as [[n caps]|] eqn:E.
  - destruct (match_at_plus_some _ _ _ _ _ E) as [[m ->] _]. now exists m, caps.
  - exfalso. revert E. unfold match_at, Plus. cbn [run]. rewrite Hc.
    rewrite rep_loop_eq. cbv zeta.
    match goal with |- match ?a with _ => _ end = None -> _ => destruct a end; discriminate.
Qed.

Lemma match_at_plus_miss (p : ascii -> bool) (pos : nat) (c : ascii) (t : string) :
  p c = false -> match_at (Plus true (Chr p)) pos (String c t) = None.
Proof.
  intros Hc. unfold match_at, Plus. cbn [run]. now rewrite Hc.
Qed.

(** *** Deleting the matches of a class *)

Lemma sub_from_filter (r : regex) (p : ascii -> bool) :
  (forall pos c t, p c = false -> match_at r pos (String c t) = None) ->
  (forall pos c t, p c = true ->
     exists n caps, match_at r pos (String c t) = Some (S n, caps)) ->
  (forall pos s n caps, match_at r pos s = Some (n, caps) -> prefix_all p n s = true) ->
  forall s skip pos,
    prefix_all p skip s = true ->
    sub_from r skip pos s = filter_chars (fun c => negb (p c)) s.
Proof.
  intros Hmiss Hhit Hsome.
  induction s as [|c t IH]; intros skip pos Hskip; [reflexivity|].
  cbn [sub_from filter_chars].
  destruct skip as [|skip].
  - destruct (p c) eqn:Hc.
    + destruct (Hhit pos c t Hc) as [n [caps E]]. rewrite E. cbn [negb].
      apply IH. apply Hsome in E. cbn in E. rewrite Hc in E. exact E.
    + rewrite (Hmiss pos c t Hc). cbn [negb]. f_equal. now apply IH.
  - cbn in Hskip. apply andb_true_iff in Hskip. destruct Hskip as [-> Hskip].
    cbn [negb]. now apply IH.
Qed.

Lemma filter_chars_ext (p q : ascii -> bool) (s : string) :
  (forall c, p c = q c) -> filter_chars p s = filter_chars q s.
Proof.
  intros H. induction s as [|c t IH]; cbn; [reflexivity|].
  now rewrite H, IH.
Qed.

(** [re.sub(r"\s+", "", s)] deletes the white space of [s] and nothing
    else. *)
Lemma sub_spaces_filter (s : string) : sub_empty re_spaces s = remove_spaces s.
Proof.
  unfold sub_empty, re_spaces, remove_spaces, Space.
  apply sub_from_filter; [| | | reflexivity].
  - intros pos c t. apply match_at_plus_miss.
  - intros pos c t. apply match_at_plus_hit.
  - intros pos s' n caps H. now apply match_at_plus_some in H.
Qed.

(** [re.sub(r"\D", "", s)] keeps the digits of [s]. *)
Lemma sub_nondigit_filter (s : string) : sub_empty re_nondigit s = filter_chars isdigit s.
Proof.
  unfold sub_empty, re_nondigit, NonDigit.
  rewrite (sub_from_filter _ (fun c => negb (isdigit c))); [| | | | reflexivity].
  - apply filter_chars_ext. intros c. apply negb_involutive.
  - intros pos c t Hc. unfold match_at. rewrite run_Chr_cons.
    cbv beta in Hc. now rewrite Hc.
  - intros pos c t Hc. unfold match_at. rewrite run_Chr_cons.
    cbv beta in Hc. rewrite Hc.
    exists 0, []. do 2 f_equal. lia.
  - intros pos s' n caps. unfold match_at.
    destruct s' as [|c t]; [discriminate|].
    rewrite run_Chr_cons.
    destruct (negb (isdigit c)) eqn:Hc; [|discriminate].
    intros H. assert (En : S pos - pos = n) by congruence.
    assert (E1 : n = 1) by lia. rewrite E1.
    cbn. now rewrite Hc.
Qed.

(* ================================================================== *)
(** ** White space and the shape of tokens *)

Lemma filter_chars_idem (p : ascii -> bool) (s : string) :
  filter_chars p (filter_chars p s) = filter_chars p s.
Proof.
  induction s as [|c t IH]; cbn; [reflexivity|].
  destruct (p c) eqn:E; cbn; [|exact IH].
  now rewrite E, IH.
Qed.

(** X1: White space anywhere in a formula is ignored: the tokenizer and the
    whole analysis give the same result on a formula and on the formula
    with its white space deleted. *)
Theorem analysis_ignores_spaces (formule : string) :
  parse_caryotype (remove_spaces formule) = parse_caryotype formule
  /\ analyser_formule (remove_spaces formule) = analyser_formule formule.
Proof.
  assert (H : parse_caryotype (remove_spaces formule) = parse_caryotype formule).
  { unfold parse_caryotype, split_clones.
    rewrite !sub_spaces_filter. unfold remove_spaces.
    now rewrite filter_chars_idem. }
  split; [exact H|].
  unfold analyser_formule. now rewrite H.
Qed.

(** *** Characters of a string *)

Lemma all_chars_forall (q : ascii -> bool) (s : string) :
  all_chars q s = true <-> (forall c, In c (list_ascii_of_string s) -> q c = true).
Proof.
  induction s as [|a t IH]; cbn.
  - split; [intros _ c [] | reflexivity].
  - rewrite andb_true_iff, IH. split.
    + intros [Ha Ht] c [<-|Hc]; auto.
    + intros H. split; [apply H; now left | intros c Hc; apply H; now right].
Qed.

Lemma filter_chars_In (p : ascii -> bool) (s : string) (c : ascii) :
  In c (list_ascii_of_string (filter_chars p s)) ->
  In c (list_ascii_of_string s) /\ p c = true.
Proof.
  induction s as [|a t IH]; cbn; [tauto|].
  destruct (p a) eqn:E; cbn.
  - intros [<-|H]; [split; [now left | exact E]|].
    destruct (IH H). split; [now right | assumption].
  - intros H. destruct (IH H). split; [now right | assumption].
Qed.

Lemma split_In (sep : ascii) (s x : string) (c : ascii) :
  In x (split sep s) -> In c (list_ascii_of_string x) ->
  In c (list_ascii_of_string s) /\ c <> sep.
Proof.
  revert x.
  induction s as [|a t IH]; intros x; cbn [split].
  - intros [<-|[]] [].
  - destruct (Ascii.eqb a sep) eqn:E.
    + intros [<-|Hx] Hc; [destruct Hc|].
      destruct (IH _ Hx Hc). split; [now right | assumption].
    + apply Ascii.eqb_neq in E.
      destruct (split sep t) as [|h rest] eqn:Es.
      * intros [<-|[]]. cbn. intros [<-|[]]. split; [now left | exact E].
      * intros [<-|Hx] Hc.
        -- cbn in Hc. destruct Hc as [<-|Hc]; [split; [now left | exact E]|].
           destruct (IH h (or_introl eq_refl) Hc). split; [now right | assumption].
        -- destruct (IH x (or_intror Hx) Hc). split; [now right | assumption].
Qed.

Lemma sub_from_In (r : regex) (s : string) (skip pos : nat) (c : ascii) :
  In c (list_ascii_of_string (sub_from r skip pos s)) -> In c (list_ascii_of_string s).
Proof.
  revert skip pos.
  induction s as [|a t IH]; intros skip pos; cbn [sub_from]; [tauto|].
  destruct skip as [|skip].
  - destruct (match_at r pos (String a t)) as [[[|n] caps]|]; cbn.
    + intros [<-|H]; [now left | right; eauto].
    + intros H. right. eauto.
    + intros [<-|H]; [now left | right; eauto].
  - intros H. right. eauto.
Qed.

Lemma lstrip_In (p : ascii -> bool) (s : string) (c : ascii) :
  In c (list_ascii_of_string (lstrip p s)) -> In c (list_ascii_of_string s).
Proof.
  induction s as [|a t IH]; cbn; [tauto|].
  destruct (p a); [intros H; right; auto | cbn; tauto].
Qed.

Lemma rstrip_In (p : ascii -> bool) (s : string) (c : ascii) :
  In c (list_ascii_of_string (rstrip p s)) -> In c (list_ascii_of_string s).
Proof.
  induction s as [|a t IH]; cbn; [tauto|].
  destruct (rstrip p t) as [|b u].
  - destruct (p a); cbn; [tauto | intros [<-|[]]; now left].
  - cbn. intros [<-|H]; [now left | right; apply IH; exact H].
Qed.

Lemma strip_In (p : ascii -> bool) (s : string) (c : ascii) :
  In c (list_ascii_of_string (strip p s)) -> In c (list_ascii_of_string s).
Proof.
  unfold strip. intros H. apply rstrip_In in H. now apply lstrip_In in H.
Qed.

(** *** Both ends of a stripped string *)

Lemma lstrip_head (p : ascii -> bool) (s : string) :
  match lstrip p s with
  | EmptyString => True
  | String c _ => p c = false
  end.
Proof.
  induction s as [|a t IH]; cbn; [exact I|].
  destruct (p a) eqn:E; [exact IH | exact E].
Qed.

Lemma rstrip_head (p : ascii -> bool) (a : ascii) (t : string) :
  rstrip p (String a t) = EmptyString \/ exists u, rstrip p (String a t) = String a u.
Proof.
  cbn. destruct (rstrip p t) as [|b u].
  - destruct (p a); [now left | right; now eexists].
  - right. now eexists.
Qed.

Lemma rstrip_last (p : ascii -> bool) (s : string) :
  match last_char (rstrip p s) with
  | None => True
  | Some c => p c = false
  end.
Proof.
  induction s as [|a t IH]; cbn [rstrip]; [exact I|].
  destruct (rstrip p t) as [|b u] eqn:E.
  - destruct (p a) eqn:Ea; cbn; [exact I | exact Ea].
  - exact IH.
Qed.

Lemma strip_dot_ends (s : string) :
  startswith (strip (Ascii.eqb ".") s) "." = false
  /\ last_char (strip (Ascii.eqb ".") s) <> Some "."%char.
Proof.
  unfold strip. split.
  - pose proof (lstrip_head (Ascii.eqb ".") s) as H.
    destruct (lstrip (Ascii.eqb ".") s) as [|a t]; [reflexivity|].
    destruct (rstrip_head (Ascii.eqb ".") a t) as [->|[u ->]]; [reflexivity|].
    cbn [startswith]. now rewrite H.
  - pose proof (rstrip_last (Ascii.eqb ".") (lstrip (Ascii.eqb ".") s)) as H.
    destruct (last_char (rstrip (Ascii.eqb ".") (lstrip (Ascii.eqb ".") s))) as [c|];
      [|discriminate].
    intros [= ->]. discriminate.
Qed.

(* ================================================================== *)
(** ** What the tokenizer records *)

Lemma record_all_anomalies (toks : list string) (idx : nat) (st : parse_state) :
  anomalies (record_all toks idx st) = anomalies st ++ toks.
Proof.
  unfold record_all. revert st.
  induction toks as [|t ts IH]; intros st; cbn [fold_left].
  - now rewrite app_nil_r.
  - rewrite IH. cbn. now rewrite <- app_assoc.
Qed.

Lemma record_all_pl (toks : list string) (idx : nat) (st : parse_state) :
  pl (record_all toks idx st) = pl st.
Proof.
  unfold record_all. revert st.
  induction toks as [|t ts IH]; intros st; cbn [fold_left]; [reflexivity|].
  now rewrite IH.
Qed.

(** When the [try] block returns, it has recorded nothing or one label:
    [Tetraploidy], [Triploidy], or the label [pl] held before. *)
Lemma ploidy_block_ok (parts : list string) (idx : nat) (st st' : parse_state) :
  ploidy_block parts idx st = Ok st' ->
  st' = st
  \/ exists v,
       (v = "Tetraploidy" \/ v = "Triploidy" \/ pl st = Some v)
       /\ st' = record_anomaly v idx
                  {| anomalies := anomalies st; clone_map := clone_map st; pl := Some v |}.
Proof.
  unfold ploidy_block.
  destruct (index0 parts) as [p0|]; [|discriminate]. cbn [bind].
  destruct (int_ (sub_empty re_nondigit p0)) as [total|]; [|discriminate]. cbn [bind].
  destruct (negb (total =? 46)%Z); [|intros [= <-]; now left].
  destruct (total =? 92)%Z.
  { cbn. intros [= <-]. right. exists "Tetraploidy". split; [now left | reflexivity]. }
  destruct (total =? 69)%Z.
  { cbn. intros [= <-]. right. exists "Triploidy". split; [right; now left | reflexivity]. }
  destruct (pl st) as [v|] eqn:E; [|discriminate].
  cbn. intros [= <-]. right. exists v. split; [right; now right | reflexivity].
Qed.

(** One turn of the loop records a list of tokens for the clone: possibly a
    ploidy label, then the fields from the third on. *)
Lemma parse_clone_records (st : parse_state) (idx : nat) (clone : string) :
  exists toks pl',
    parse_clone st idx clone
    = record_all toks idx
        {| anomalies := anomalies st; clone_map := clone_map st; pl := pl' |}
    /\ (forall x, In x toks ->
          In x (skipn 2 (clone_parts clone))
          \/ x = "Tetraploidy" \/ x = "Triploidy" \/ pl st = Some x)
    /\ (pl' = pl st \/ pl' = Some "Tetraploidy" \/ pl' = Some "Triploidy").
Proof.
  unfold parse_clone.
  destruct (ploidy_block (clone_parts clone) idx st) as [st'|e] eqn:E.
  - apply ploidy_block_ok in E. destruct E as [->|[v [Hv ->]]].
    + exists (skipn 2 (clone_parts clone)), (pl st).
      split; [destruct st; reflexivity|]. split; [intros x Hx; now left | now left].
    + exists (v :: skipn 2 (clone_parts clone)), (Some v).
      split; [reflexivity|]. split.
      * intros x [<-|Hx]; [right; exact Hv | now left].
      * destruct Hv as [->|[->|Hv]]; [right; now left | right; now right | left; now rewrite Hv].
  - exists (skipn 2 (clone_parts clone)), (pl st).
    split; [destruct st; reflexivity|]. split; [intros x Hx; now left | now left].
Qed.

(** *** The shape of the tokens *)

Lemma skipn_In {A : Type} (n : nat) (l : list A) (x : A) :
  In x (skipn n l) -> In x l.
Proof.
  intros H. rewrite <- (firstn_skipn n l). apply in_or_app. now right.
Qed.

Lemma clone_chars (formule clone : string) (c : ascii) :
  In clone (split_clones formule) -> In c (list_ascii_of_string clone) ->
  isspace c = false /\ c <> "/"%char.
Proof.
  unfold split_clones. intros Hclone Hc.
  apply in_map_iff in Hclone. destruct Hclone as [piece [<- Hpiece]].
  apply sub_from_In in Hc.
  destruct (split_In _ _ _ _ Hpiece Hc) as [Hin Hslash].
  rewrite sub_spaces_filter in Hin. apply filter_chars_In in Hin.
  destruct Hin as [_ Hsp]. apply negb_true_iff in Hsp. now split.
Qed.

Lemma clone_parts_trimmed (clone x : string) :
  (forall c, In c (list_ascii_of_string clone) -> isspace c = false /\ c <> "/"%char) ->
  In x (clone_parts clone) -> trimmed_token x.
Proof.
  intros Hclone Hx. unfold clone_parts in Hx.
  apply in_map_iff in Hx. destruct Hx as [p [<- Hp]].
  apply filter_In in Hp. destruct Hp as [Hp _].
  destruct (strip_dot_ends (strip isspace p)) as [Hhead Hlast].
  split; [|split; assumption].
  apply all_chars_forall. intros c Hc.
  do 2 apply strip_In in Hc.
  destruct (split_In _ _ _ _ Hp Hc) as [Hin Hcomma].
  destruct (Hclone c Hin) as [Hsp Hslash].
  unfold separator_char. rewrite Hsp.
  apply Ascii.eqb_neq in Hcomma, Hslash. now rewrite Hcomma, Hslash.
Qed.

Lemma ploidy_labels_trimmed :
  trimmed_token "Tetraploidy" /\ trimmed_token "Triploidy".
Proof. repeat split; try reflexivity; discriminate. Qed.

Lemma parse_clone_trimmed (st : parse_state) (idx : nat) (clone : string) :
  (forall c, In c (list_ascii_of_string clone) -> isspace c = false /\ c <> "/"%char) ->
  Forall trimmed_token (anomalies st) ->
  (forall v, pl st = Some v -> trimmed_token v) ->
  Forall trimmed_token (anomalies (parse_clone st idx clone))
  /\ (forall v, pl (parse_clone st idx clone) = Some v -> trimmed_token v).
Proof.
  intros Hclone Han Hpl.
  destruct (parse_clone_records st idx clone) as [toks [pl' [E [Htoks Hpl']]]].
  rewrite E, record_all_anomalies, record_all_pl. cbn [anomalies pl].
  split.
  - apply Forall_app. split; [exact Han|].
    apply Forall_forall. intros x Hx.
    destruct (Htoks x Hx) as [H|[->|[->|H]]].
    + apply skipn_In in H. now apply (clone_parts_trimmed clone).
    + apply ploidy_labels_trimmed.
    + apply ploidy_labels_trimmed.
    + now apply Hpl.
  - intros v Hv. destruct Hpl' as [-> | [-> | ->]].
    + now apply Hpl.
    + injection Hv as <-. apply ploidy_labels_trimmed.
    + injection Hv as <-. apply ploidy_labels_trimmed.
Qed.

Lemma parse_clones_trimmed (clones : list string) (idx : nat) (st : parse_state) :
  (forall clone c, In clone clones -> In c (list_ascii_of_string clone) ->
     isspace c = false /\ c <> "/"%char) ->
  Forall trimmed_token (anomalies st) ->
  (forall v, pl st = Some v -> trimmed_token v) ->
  Forall trimmed_token (anomalies (parse_clones clones idx st)).
Proof.
  revert idx st.
  induction clones as [|clone rest IH]; intros idx st Hclones Han Hpl; cbn [parse_clones];
    [exact Han|].
  destruct (parse_clone_trimmed st idx clone) as [Han' Hpl']; auto.
  { intros c Hc. apply (Hclones clone c); [now left | exact Hc]. }
  apply IH; auto.
  intros clone' c Hin Hc. apply (Hclones clone' c); [now right | exact Hc].
Qed.

(** X2: Every token the tokenizer returns, ploidy labels included, holds no
    white space, no comma and no slash, and neither starts nor ends with a
    dot. *)
Theorem tokens_are_trimmed (formule : string) :
  Forall trimmed_token (fst (parse_caryotype formule)).
Proof.
  unfold parse_caryotype. cbn [fst].
  apply parse_clones_trimmed.
  - intros clone c Hclone Hc. now apply (clone_chars formule clone).
  - constructor.
  - discriminate.
Qed.

(* ================================================================== *)
(** ** The clone map *)

Lemma get_default_append_same (a x : string) (cm : @dict string (list string)) :
  get_default String.eqb a [] (setdefault_append String.eqb a x cm)
  = get_default String.eqb a [] cm ++ [x].
Proof.
  unfold get_default, setdefault_append.
  rewrite (get_upsert_same _ String.eqb_eq).
  destruct (get String.eqb a cm); reflexivity.
Qed.

Lemma get_default_append_other (a b x : string) (cm : @dict string (list string)) :
  a <> b ->
  get_default String.eqb a [] (setdefault_append String.eqb b x cm)
  = get_default String.eqb a [] cm.
Proof.
  intros H. unfold get_default, setdefault_append.
  now rewrite (get_upsert_other _ String.eqb_eq).
Qed.

Lemma mem_append_other (a b x : string) (cm : @dict string (list string)) :
  a <> b ->
  mem String.eqb a (setdefault_append String.eqb b x cm) = mem String.eqb a cm.
Proof.
  intros H. unfold mem, setdefault_append.
  now rewrite (get_upsert_other _ String.eqb_eq).
Qed.

Lemma count_occ_snoc (l : list string) (a b : string) :
  count_occ string_dec (l ++ [b]) a
  = count_occ string_dec l a + (if string_dec b a then 1 else 0).
Proof.
  rewrite count_occ_app. cbn. destruct (string_dec b a); reflexivity.
Qed.

Lemma record_anomaly_cm_ok (n idx : nat) (an : string) (st : parse_state) :
  1 <= idx <= n ->
  clone_map_ok n (anomalies st) (clone_map st) ->
  clone_map_ok n (anomalies (record_anomaly an idx st))
    (clone_map (record_anomaly an idx st)).
Proof.
  intros Hidx [Hcount [Hmem Hlab]]. cbn [record_anomaly anomalies clone_map].
  split; [|split].
  - intros a. rewrite count_occ_snoc.
    destruct (string_dec an a) as [->|Hne].
    + rewrite get_default_append_same, length_app, Hcount. reflexivity.
    + rewrite get_default_append_other by congruence. rewrite Hcount. lia.
  - intros a. rewrite in_app_iff. cbn [In].
    destruct (string_dec an a) as [->|Hne].
    + unfold setdefault_append. rewrite (mem_upsert_same _ String.eqb_eq). tauto.
    + rewrite mem_append_other by congruence. rewrite Hmem. tauto.
  - intros a x.
    destruct (string_dec an a) as [->|Hne].
    + rewrite get_default_append_same, in_app_iff. cbn [In].
      intros [H|[<-|[]]]; [now apply (Hlab a) | now exists idx].
    + rewrite get_default_append_other by congruence. apply Hlab.
Qed.

Lemma record_all_cm_ok (n idx : nat) (toks : list string) (st : parse_state) :
  1 <= idx <= n ->
  clone_map_ok n (anomalies st) (clone_map st) ->
  clone_map_ok n (anomalies (record_all toks idx st)) (clone_map (record_all toks idx st)).
Proof.
  intros Hidx. unfold record_all. revert st.
  induction toks as [|t ts IH]; intros st Hst; cbn [fold_left]; [exact Hst|].
  apply IH. now apply record_anomaly_cm_ok.
Qed.

Lemma parse_clones_cm_ok (n : nat) (clones : list string) (idx : nat) (st : parse_state) :
  1 <= idx -> idx + List.length clones = S n ->
  clone_map_ok n (anomalies st) (clone_map st) ->
  clone_map_ok n (anomalies (parse_clones clones idx st))
    (clone_map (parse_clones clones idx st)).
Proof.
  revert idx st.
  induction clones as [|clone rest IH]; intros idx st Hidx Hlen Hst; cbn [parse_clones];
    [exact Hst|].
  cbn [List.length] in Hlen.
  apply IH; [lia | lia |].
  destruct (parse_clone_records st idx clone) as [toks [pl' [E _]]].
  rewrite E. apply record_all_cm_ok; [lia | exact Hst].
Qed.

Lemma parse_caryotype_cm_ok (formule : string) :
  clone_map_ok (List.length (split_clones formule))
    (fst (parse_caryotype formule)) (snd (parse_caryotype formule)).
Proof.
  unfold parse_caryotype. cbn [fst snd].
  apply parse_clones_cm_ok; [lia | lia |].
  split; [|split].
  - intros a. reflexivity.
  - intros a. cbn. split; [discriminate | tauto].
  - intros a x [].
Qed.

(** X3: The clone map and the flat list agree: a token is a key of the map
    exactly when it is in the list, and it has as many clone labels as it
    has positions in the list. *)
Theorem clone_map_counts_positions (formule a : string) :
  let anomalies := fst (parse_caryotype formule) in
  let clone_map := snd (parse_caryotype formule) in
  (mem String.eqb a clone_map = true <-> In a anomalies)
  /\ List.length (get_default String.eqb a [] clone_map)
     = count_occ string_dec anomalies a.
Proof.
  cbv zeta. destruct (parse_caryotype_cm_ok formule) as [Hcount [Hmem _]].
  split; [apply Hmem | apply Hcount].
Qed.

(** X4: Every label of the clone map is [clone<i>] for the number [i] of one of
    the clones of the formula, counted from 1. *)
Theorem clone_labels_are_numbered (formule a : string) :
  Forall
    (fun x => exists i,
       1 <= i <= List.length (split_clones formule) /\ x = clone_label i)
    (get_default String.eqb a [] (snd (parse_caryotype formule))).
Proof.
  destruct (parse_caryotype_cm_ok formule) as [_ [_ Hlab]].
  apply Forall_forall. intros x Hx. now apply (Hlab a).
Qed.

(** X5: In every row of the table the clone column is the list of the labels
    of the row's token, joined by a comma and a blank, and the occurrence
    count is the number of these labels; there is at least one. *)
Theorem rows_list_their_clones (formule : string) :
  exists rs tj ti,
    analyser_formule formule = (Some (rs ++ [total_row tj ti]), ti, None)
    /\ Forall
         (fun r =>
            let labels :=
              get_default String.eqb (Anomalie r) [] (snd (parse_caryotype formule)) in
            Clones r = join ", " labels
            /\ Occurrences r = CInt (Z.of_nat (List.length labels))
            /\ labels <> [])
         rs.
Proof.
  destruct (analyser_formule_shape formule) as [rs [ti [E F]]].
  exists rs, (Z.of_nat (List.length rs)), ti. split; [exact E|].
  destruct (parse_caryotype_cm_ok formule) as [Hcount [Hmem _]].
  apply Forall_forall. intros r Hr. cbv zeta.
  destruct (Forall2_row_In _ _ _ _ F Hr) as [[k v] [Hit [Ha [_ [Ho [Hc _]]]]]].
  cbn [fst snd] in Ha, Ho, Hc.
  assert (Hk : In k (fst (parse_caryotype formule))).
  { apply Counter_keys_iff. unfold keys. change k with (fst (k, v)). now apply in_map. }
  apply Counter_item in Hit. rewrite Ha, Hc, Ho, Hcount, Hit.
  repeat split.
  intros Hnil. pose proof (Hcount k) as Hlen. rewrite Hnil in Hlen. cbn in Hlen.
  symmetry in Hlen. apply (count_occ_not_In string_dec) in Hlen. contradiction.
Qed.

(* ================================================================== *)
(** ** The totals of the table *)

Lemma score_loop_exact (clone_map : @dict string (list string))
  (norm_counts : @dict string Z) (implicit_info : @dict string implicit_entry)
  (items : list (string * Z)) (st : score_state) :
  exists rs,
    for_each (score_anomaly clone_map norm_counts implicit_info) items st
    = Ok {| rows := rows st ++ rs;
            total_j := total_j st + Z.of_nat (List.length items);
            total_i := total_i st + sum_iscn rs |}
    /\ Forall2 (scored_row clone_map norm_counts implicit_info) items rs.
Proof.
  revert st.
  induction items as [|item t IH]; intros st.
  - exists []. cbn. rewrite app_nil_r, !Z.add_0_r.
    destruct st; split; [reflexivity | constructor].
  - cbn [for_each]. unfold score_anomaly at 1.
    destruct (score_iscn_total implicit_info (normalize_anomaly (fst item))
                (count_of (normalize_anomaly (fst item)) norm_counts))
      as [se [Ese _]].
    rewrite Ese. cbn [bind].
    match goal with |- context [for_each _ t ?s] => destruct (IH s) as [rs [E F]] end.
    rewrite E. cbn [rows total_j total_i].
    eexists (_ :: rs). split.
    + rewrite <- app_assoc. cbn [app sum_iscn fold_right]. do 2 f_equal.
      * cbn [List.length]. lia.
      * fold (sum_iscn rs). cbn [Score_ISCN_2024]. lia.
    + constructor; [|exact F].
      exists se. split; [exact Ese | reflexivity].
Qed.

Lemma calcul_scores_exact (anomalies : list string)
  (clone_map : @dict string (list string)) :
  exists implicit_info rs,
    detect_implicit_anomalies anomalies = Ok implicit_info
    /\ calcul_scores anomalies clone_map
       = Ok (rs ++ [total_row (Z.of_nat (List.length rs)) (sum_iscn rs)], sum_iscn rs)
    /\ Forall2
         (scored_row clone_map (Counter (map normalize_anomaly anomalies)) implicit_info)
         (Counter anomalies) rs.
Proof.
  unfold calcul_scores.
  destruct (detect_implicit_anomalies_total anomalies) as [imp E].
  rewrite E. cbn [bind].
  destruct (score_loop_exact clone_map (Counter (map normalize_anomaly anomalies)) imp
              (Counter anomalies) {| rows := []; total_j := 0; total_i := 0 |})
    as [rs [-> F]].
  cbn [bind rows total_j total_i app].
  exists imp, rs. split; [reflexivity|]. split; [|exact F].
  rewrite (Forall2_length F). reflexivity.
Qed.

Lemma analyser_formule_exact (formule : string) :
  let anomalies := fst (parse_caryotype formule) in
  exists implicit_info rs,
    detect_implicit_anomalies anomalies = Ok implicit_info
    /\ analyser_formule formule
       = (Some (rs ++ [total_row (Z.of_nat (List.length rs)) (sum_iscn rs)]),
          sum_iscn rs, None)
    /\ Forall2
         (scored_row (snd (parse_caryotype formule))
            (Counter (map normalize_anomaly anomalies)) implicit_info)
         (Counter anomalies) rs.
Proof.
  cbv zeta. unfold analyser_formule, calcul_scores.
  destruct (detect_implicit_anomalies_total (fst (parse_caryotype formule))) as [imp E].
  rewrite E. cbn [bind].
  destruct (score_loop_exact (snd (parse_caryotype formule))
              (Counter (map normalize_anomaly (fst (parse_caryotype formule)))) imp
              (Counter (fst (parse_caryotype formule)))
              {| rows := []; total_j := 0; total_i := 0 |})
    as [rs [-> F]].
  cbn [bind rows total_j total_i app].
  exists imp, rs. split; [reflexivity|]. split; [|exact F].
  rewrite (Forall2_length F). reflexivity.
Qed.

Lemma scored_rows_sum_range (clone_map : @dict string (list string))
  (norm_counts : @dict string Z) (implicit_info : @dict string implicit_entry)
  (items : list (string * Z)) (rs : list row) :
  Forall2 (scored_row clone_map norm_counts implicit_info) items rs ->
  (0 <= sum_iscn rs <= 2 * Z.of_nat (List.length rs))%Z.
Proof.
  induction 1 as [|item r items rs [se [Ese ->]] _ IH]; [cbn; lia|].
  destruct (score_iscn_total implicit_info (normalize_anomaly (fst item))
              (count_of (normalize_anomaly (fst item)) norm_counts))
    as [se' [Ese' Hrange]].
  assert (se' = se) by congruence. subst se'.
  cbn [sum_iscn fold_right Score_ISCN_2024 List.length]. fold (sum_iscn rs). lia.
Qed.

(** X6: The total the analysis returns is the sum of the ISCN 2024 scores of
    the anomaly rows.  The last row of the table is named TOTAL; its ISCN
    2024 cell holds that total and its Jondreville cell the number of
    anomaly rows, its other cells are empty.  The total lies between 0 and
    twice the number of rows, which are no more than the tokens of the
    formula. *)
Theorem total_is_sum_of_rows (formule : string) :
  exists rs last_row total,
    analyser_formule formule = (Some (rs ++ [last_row]), total, None)
    /\ total = sum_iscn rs
    /\ Anomalie last_row = "TOTAL"
    /\ Score_ISCN_2024 last_row = total
    /\ Score_Jondreville_2020 last_row = Z.of_nat (List.length rs)
    /\ Type_ last_row = ""
    /\ Explication last_row = ""
    /\ Occurrences last_row = CStr ""
    /\ Clones last_row = ""
    /\ (0 <= total <= 2 * Z.of_nat (List.length rs))%Z
    /\ List.length rs <= List.length (fst (parse_caryotype formule)).
Proof.
  destruct (analyser_formule_exact formule) as [imp [rs [_ [E F]]]].
  exists rs, (total_row (Z.of_nat (List.length rs)) (sum_iscn rs)), (sum_iscn rs).
  split; [exact E|]. do 8 (split; [reflexivity|]). split.
  - exact (scored_rows_sum_range _ _ _ _ _ F).
  - rewrite <- (Forall2_length F).
    rewrite <- (length_map fst (Counter (fst (parse_caryotype formule)))).
    apply NoDup_incl_length; [apply Counter_NoDup|].
    intros k Hk. now apply Counter_keys_In.
Qed.

(* ================================================================== *)
(** ** The entries of the implicit map *)

Lemma upsert_entries_Forall {V : Type} (P : string * V -> Prop) (k : string)
  (f : option V -> V) (d : @dict string V) :
  Forall P d ->
  P (k, f None) ->
  (forall v, In (k, v) d -> P (k, f (Some v))) ->
  Forall P (upsert String.eqb k f d).
Proof.
  intros Hd Hnone Hsome.
  induction d as [|[k' v'] t IH]; cbn [upsert].
  - constructor; [exact Hnone | constructor].
  - inversion Hd as [|? ? Hhead Htail]; subst.
    destruct (String.eqb k k') eqn:E.
    + apply String.eqb_eq in E. subst k'.
      constructor; [apply Hsome; now left | exact Htail].
    + constructor; [exact Hhead|].
      apply IH; [exact Htail|]. intros v Hv. apply Hsome. now right.
Qed.

Lemma get_In_entry {V : Type} (k : string) (v : V) (d : @dict string V) :
  get String.eqb k d = Some v -> In (k, v) d.
Proof.
  induction d as [|[k' v'] t IH]; cbn [get]; [discriminate|].
  destruct (String.eqb k k') eqn:E.
  - apply String.eqb_eq in E. subst k'. intros [= ->]. now left.
  - intros H. right. now apply IH.
Qed.

Lemma set_mem_In (x : string) (s : list string) : In x s -> set_mem x s = true.
Proof.
  intros H. unfold set_mem. apply existsb_exists.
  exists x. split; [exact H | apply String.eqb_refl].
Qed.

Lemma for_each_inv {A S : Type} (body : S -> A -> res S) (I : S -> Prop) (l : list A) :
  (forall st x st', In x l -> I st -> body st x = Ok st' -> I st') ->
  forall st st', I st -> for_each body l st = Ok st' -> I st'.
Proof.
  induction l as [|x t IH]; intros Hbody st st' Hst; cbn [for_each].
  - intros [= <-]. exact Hst.
  - destruct (body st x) as [st1|e] eqn:E; [|discriminate]. cbn [bind].
    apply IH.
    + intros st2 y st3 Hy. apply Hbody. now right.
    + apply (Hbody st x st1); [now left | exact Hst | exact E].
Qed.

(** Every value of [norm_to_orig] is a token of the list, stored under its
    normalized form. *)
Lemma norm_to_orig_entries (anomalies : list string) :
  Forall (fun kv => In (snd kv) anomalies /\ normalize_anomaly (snd kv) = fst kv)
    (norm_to_orig_of anomalies).
Proof.
  unfold norm_to_orig_of.
  assert (G : forall l acc,
             (forall a, In a l -> In a anomalies) ->
             Forall (fun kv : string * string =>
                       In (snd kv) anomalies /\ normalize_anomaly (snd kv) = fst kv) acc ->
             Forall (fun kv : string * string =>
                       In (snd kv) anomalies /\ normalize_anomaly (snd kv) = fst kv)
               (fold_left orig_step l acc)).
  { induction l as [|a t IH]; intros acc Hl Hacc; cbn [fold_left]; [exact Hacc|].
    apply IH; [intros b Hb; apply Hl; now right|].
    unfold orig_step, setdefault. apply upsert_entries_Forall; [exact Hacc | |].
    - cbn. split; [apply Hl; now left | reflexivity].
    - intros v Hv. rewrite Forall_forall in Hacc. exact (Hacc _ Hv). }
  apply G; [auto | constructor].
Qed.

Lemma norm_to_orig_get (anomalies : list string) (k v : string) :
  get String.eqb k (norm_to_orig_of anomalies) = Some v ->
  In v anomalies /\ normalize_anomaly v = k.
Proof.
  intros H. apply get_In_entry in H.
  pose proof (norm_to_orig_entries anomalies) as F.
  rewrite Forall_forall in F. exact (F _ H).
Qed.

(** A match of the rule 1 pattern starts with [der] or [dic]. *)
Lemma der_t_prefix (d : string) :
  is_some (match_ re_der_t d) = true -> startswith d "der" || startswith d "dic" = true.
Proof.
  unfold match_, match_at, re_der_t, Seqs. cbn [fold_right run].
  match goal with
  | |- context [run (Lit "der") ?p ?s ?c ?k] =>
      destruct (run (Lit "der") p s c k) as [x|] eqn:E1
  end.
  - intros _. apply run_Lit_Some in E1. destruct E1 as [r [-> _]]. reflexivity.
  - match goal with
    | |- context [run (Lit "dic") ?p ?s ?c ?k] =>
        destruct (run (Lit "dic") p s c k) as [x|] eqn:E2
    end; [|discriminate].
    intros _. apply run_Lit_Some in E2. destruct E2 as [r [-> _]]. reflexivity.
Qed.

Lemma t_events_fold_matched (Q : string -> Prop) (l : list string)
  (acc : @dict (string * string) (list string)) :
  Forall Q l ->
  Forall (Forall (fun d => Q d /\ is_some (match_ re_der_t d) = true)) (values acc) ->
  Forall (Forall (fun d => Q d /\ is_some (match_ re_der_t d) = true))
    (values (fold_left t_events_step l acc)).
Proof.
  revert acc.
  induction l as [|x t IH]; intros acc Hl Hacc; cbn [fold_left]; [exact Hacc|].
  inversion Hl as [|? ? Hx Ht]; subst.
  apply IH; [exact Ht|].
  unfold t_events_step.
  destruct (match_ re_der_t x) as [m|] eqn:E; [|exact Hacc].
  assert (Hx' : Q x /\ is_some (match_ re_der_t x) = true) by (rewrite E; now split).
  apply values_upsert_Forall; [exact Hacc | now repeat constructor | ].
  intros v Hv. apply Forall_app. split; [exact Hv | now repeat constructor].
Qed.

Lemma multi_der_fold_members (Q : string -> Prop) (l : list string)
  (acc : @dict string (list string)) :
  Forall Q l ->
  Forall (Forall (fun d => Q d /\ startswith d "der" || startswith d "dic" = true))
    (values acc) ->
  Forall (Forall (fun d => Q d /\ startswith d "der" || startswith d "dic" = true))
    (values (fold_left multi_der_step l acc)).
Proof.
  revert acc.
  induction l as [|an t IH]; intros acc Hl Hacc; cbn [fold_left]; [exact Hacc|].
  inversion Hl as [|? ? Han Ht]; subst.
  apply IH; [exact Ht|].
  unfold multi_der_step.
  destruct (startswith an "der" || startswith an "dic") eqn:Hp; [|exact Hacc].
  destruct (match_ re_der_list an) as [m|]; [|exact Hacc].
  match goal with |- context [if ?b then _ else _] => destruct b end; [|exact Hacc].
  match goal with |- context [fold_left _ ?chrs acc] => generalize chrs end.
  intros chrs. revert acc Hacc.
  induction chrs as [|c cs IHc]; intros acc Hacc; cbn [fold_left]; [exact Hacc|].
  apply IHc. apply values_upsert_Forall; [exact Hacc | now repeat constructor | ].
  intros v Hv. apply Forall_app. split; [exact Hv | now repeat constructor].
Qed.

Lemma mark_implicit_ders_entries (anomalies : list string)
  (implicit implicit' : @dict string implicit_entry) (ders : list string) :
  Forall (fun d => In d (map normalize_anomaly anomalies)
                   /\ is_some (match_ re_der_t d) = true) ders ->
  Forall (implicit_entry_ok anomalies) implicit ->
  mark_implicit_ders (norm_to_orig_of anomalies) implicit ders = Ok implicit' ->
  Forall (implicit_entry_ok anomalies) implicit'.
Proof.
  intros Hders Himp. unfold mark_implicit_ders.
  destruct (filter (fun d => is_some (search re_explicit d)) ders) as [|first rest] eqn:Ex.
  { intros [= <-]. exact Himp. }
  unfold getitem.
  destruct (get String.eqb first (norm_to_orig_of anomalies)) as [r|] eqn:G; [|discriminate].
  cbn [bind]. intros [= <-].
  apply norm_to_orig_get in G. destruct G as [Hr Hnorm].
  assert (Hfirst : is_some (search re_explicit first) = true).
  { assert (H : In first (first :: rest)) by now left.
    rewrite <- Ex in H. apply filter_In in H. apply H. }
  assert (G : forall l acc,
             (forall d, In d l -> In d ders) ->
             Forall (implicit_entry_ok anomalies) acc ->
             Forall (implicit_entry_ok anomalies)
               (fold_left
                  (fun imp d =>
                     if negb (set_mem d (first :: rest))
                     then setitem String.eqb d
                            {| reason := "Dérivé implicite"; ref := r |} imp
                     else imp) l acc)).
  { induction l as [|d t IH]; intros acc Hl Hacc; cbn [fold_left]; [exact Hacc|].
    apply IH; [intros x Hx; apply Hl; now right|].
    destruct (set_mem d (first :: rest)) eqn:Hm; cbn [negb]; [exact Hacc|].
    assert (Hd : In d ders) by (apply Hl; now left).
    rewrite Forall_forall in Hders. destruct (Hders d Hd) as [Hin Hmatch].
    assert (Hentry : implicit_entry_ok anomalies
                       (d, {| reason := "Dérivé implicite"; ref := r |})).
    { unfold implicit_entry_ok. cbn [fst snd reason ref].
      split; [exact Hin|]. split; [exact Hr|]. left.
      split; [reflexivity|]. split; [now apply der_t_prefix|]. split.
      - destruct (is_some (search re_explicit d)) eqn:Hs; [|reflexivity].
        assert (H : In d (first :: rest)).
        { rewrite <- Ex. apply filter_In. now split. }
        apply set_mem_In in H. congruence.
      - now rewrite Hnorm. }
    unfold setitem. apply upsert_entries_Forall; [exact Hacc | exact Hentry | ].
    intros v _. exact Hentry. }
  apply G; [auto | exact Himp].
Qed.

Lemma mark_implicit_gain_entries (anomalies : list string)
  (multi_der : @dict string (list string))
  (implicit implicit' : @dict string implicit_entry) (an : string) :
  Forall (Forall (fun d => In d (map normalize_anomaly anomalies)
                           /\ startswith d "der" || startswith d "dic" = true))
    (values multi_der) ->
  In an (map normalize_anomaly anomalies) ->
  Forall (implicit_entry_ok anomalies) implicit ->
  mark_implicit_gain (norm_to_orig_of anomalies) multi_der implicit an = Ok implicit' ->
  Forall (implicit_entry_ok anomalies) implicit'.
Proof.
  intros Hmd Han Himp. unfold mark_implicit_gain.
  destruct (startswith an "+" || startswith an "-") eqn:Hp; [|intros [= <-]; exact Himp].
  destruct (mem String.eqb (sub_empty re_nondigit an) multi_der) eqn:Hm;
    [|intros [= <-]; exact Himp].
  destruct (getitem_of_mem _ _ Hm) as [l [-> Hget]]. cbn [bind].
  destruct l as [|ref_norm l']; [discriminate|]. cbn [index0 bind].
  intros [= <-].
  apply get_In_values in Hget.
  rewrite Forall_forall in Hmd. specialize (Hmd _ Hget).
  inversion Hmd as [|? ? [Hin Hder] _]; subst.
  apply in_map_iff in Hin. destruct Hin as [a [Ea Ha]].
  pose proof (norm_to_orig_has_norm anomalies a Ha) as Hmem.
  rewrite Ea in Hmem.
  destruct (getitem_of_mem _ _ Hmem) as [v [_ Hv]].
  assert (Hentry : implicit_entry_ok anomalies
                     (an, {| reason := "Gain/perte implicite";
                             ref := get_default String.eqb ref_norm ref_norm
                                      (norm_to_orig_of anomalies) |})).
  { unfold get_default. rewrite Hv.
    apply norm_to_orig_get in Hv. destruct Hv as [Hvin Hvnorm].
    unfold implicit_entry_ok. cbn [fst snd reason ref].
    split; [exact Han|]. split; [exact Hvin|]. right.
    split; [reflexivity|]. split; [exact Hp|]. now rewrite Hvnorm. }
  unfold setitem. apply upsert_entries_Forall; [exact Himp | exact Hentry | ].
  intros w _. exact Hentry.
Qed.

Lemma detect_implicit_entries (anomalies : list string)
  (implicit : @dict string implicit_entry) :
  detect_implicit_anomalies anomalies = Ok implicit ->
  Forall (implicit_entry_ok anomalies) implicit.
Proof.
  unfold detect_implicit_anomalies.
  set (norm_keys := keys (Counter (map normalize_anomaly anomalies))).
  assert (Hkeys : Forall (fun d => In d (map normalize_anomaly anomalies)) norm_keys).
  { apply Forall_forall. intros k Hk. now apply Counter_keys_In. }
  destruct (for_each (mark_implicit_ders (norm_to_orig_of anomalies))
              (values (t_events_of norm_keys)) []) as [imp1|e] eqn:E1; [|discriminate].
  cbn [bind]. intros E2.
  assert (H1 : Forall (implicit_entry_ok anomalies) imp1).
  { apply (for_each_inv _ (Forall (implicit_entry_ok anomalies)) _) with (st := [])
      in E1; [exact E1 | | constructor].
    intros st ders st' Hders Hst Hbody.
    apply (mark_implicit_ders_entries anomalies st st' ders); [|exact Hst | exact Hbody].
    pose proof (t_events_fold_matched _ norm_keys [] Hkeys (Forall_nil _)) as F.
    rewrite Forall_forall in F. exact (F _ Hders). }
  apply (for_each_inv _ (Forall (implicit_entry_ok anomalies)) _) with (st := imp1)
    in E2; [exact E2 | | exact H1].
  intros st an st' Han Hst Hbody.
  apply (mark_implicit_gain_entries anomalies (multi_der_of norm_keys) st st' an);
    [ | | exact Hst | exact Hbody].
  - exact (multi_der_fold_members _ norm_keys [] Hkeys (Forall_nil _)).
  - rewrite Forall_forall in Hkeys. now apply Hkeys.
Qed.

(** X7: The detector always returns a map, and each of its entries is sound for
    the list: the key is the normalized form of a token of the list, the
    reference is a token of the list, and either the key is a [der]/[dic]
    token without [add], [del] or [dup] whose reference carries one of them
    (implicit derivative), or the key starts with [+] or [-] and the
    reference is a [der]/[dic] token (implicit gain or loss). *)
Theorem implicit_entries_are_sound (anomalies : list string) :
  exists implicit,
    detect_implicit_anomalies anomalies = Ok implicit
    /\ Forall (implicit_entry_ok anomalies) implicit.
Proof.
  destruct (detect_implicit_anomalies_total anomalies) as [imp E].
  exists imp. split; [exact E | now apply detect_implicit_entries].
Qed.

(* ================================================================== *)
(** ** Which rows score 0 *)

Lemma Forall2_In_right {A B : Type} (R : A -> B -> Prop) (l : list A) (l' : list B) (y : B) :
  Forall2 R l l' -> In y l' -> exists x, In x l /\ R x y.
Proof.
  induction 1 as [|x y' l l' H _ IH]; cbn [In]; [tauto|].
  intros [<-|Hy].
  - exists x. split; [now left | exact H].
  - destruct (IH Hy) as [x' [Hx' HR]]. exists x'. split; [now right | exact HR].
Qed.

Lemma standard_scoring_positive (norm : string) (cnt : Z) :
  (1 <= fst (standard_scoring norm cnt))%Z.
Proof.
  unfold standard_scoring.
  destruct (is_single_chr_deseq norm cnt); [cbn; lia|].
  destruct (is_complex_multichr_deseq norm); [cbn; lia|].
  destruct (is_unbalanced_translocation norm); cbn; lia.
Qed.

(** Only the branches a) and b) of the scoring give 0. *)
Lemma score_iscn_zero (implicit_info : @dict string implicit_entry)
  (norm : string) (cnt : Z) (se : Z * string) :
  score_iscn implicit_info norm cnt = Ok se -> fst se = 0%Z ->
  is_some (match_ re_constitutional norm) = true
  \/ mem String.eqb norm implicit_info = true.
Proof.
  unfold score_iscn.
  destruct (is_some (match_ re_constitutional norm)); [now left|].
  destruct (mem String.eqb norm implicit_info); [now right|].
  pose proof (standard_scoring_positive norm cnt) as Hpos.
  destruct (startswith norm "+" || startswith norm "-").
  { intros [= <-] H. lia. }
  destruct (startswith norm "dic").
  { intros [= <-]. cbn. discriminate. }
  intros [= <-] H. lia.
Qed.

Lemma constitutional_prefix (norm : string) :
  is_some (match_ re_constitutional norm) = true -> startswith norm "+" = true.
Proof.
  unfold match_, match_at, re_constitutional, Seqs. cbn [fold_right run Nat.eqb].
  match goal with
  | |- context [run (Lit "+") ?p ?s ?c ?k] =>
      destruct (run (Lit "+") p s c k) as [x|] eqn:E
  end; [|discriminate].
  intros _. apply run_Lit_Some in E. destruct E as [r [-> _]]. reflexivity.
Qed.

Lemma implicit_key_prefix (anomalies : list string)
  (implicit_info : @dict string implicit_entry) (k : string) :
  Forall (implicit_entry_ok anomalies) implicit_info ->
  mem String.eqb k implicit_info = true ->
  implicit_prefix k = true.
Proof.
  intros F Hm. destruct (getitem_of_mem _ _ Hm) as [e [_ Hget]].
  apply get_In_entry in Hget. rewrite Forall_forall in F.
  destruct (F _ Hget) as [_ [_ H]]. cbn [fst snd] in H.
  unfold implicit_prefix.
  destruct H as [[_ [H _]]|[_ [H _]]].
  - rewrite H. reflexivity.
  - apply orb_true_iff in H. destruct H as [->| ->]; repeat rewrite orb_true_r; reflexivity.
Qed.

(** X8: A row has 0 point under ISCN 2024 only if its normalized token starts
    with [+], [-], [der] or [dic]: every other token scores 1 or 2. *)
Theorem zero_score_needs_prefix (formule : string) :
  exists rs tj ti,
    analyser_formule formule = (Some (rs ++ [total_row tj ti]), ti, None)
    /\ Forall
         (fun r =>
            Score_ISCN_2024 r = 0%Z ->
            implicit_prefix (normalize_anomaly (Anomalie r)) = true)
         rs.
Proof.
  destruct (analyser_formule_exact formule) as [imp [rs [Hdet [E F]]]].
  exists rs, (Z.of_nat (List.length rs)), (sum_iscn rs). split; [exact E|].
  apply detect_implicit_entries in Hdet.
  apply Forall_forall. intros r Hr Hzero.
  destruct (Forall2_In_right _ _ _ _ F Hr) as [item [_ [se [Hse ->]]]].
  cbn [Score_ISCN_2024 Anomalie] in *.
  destruct (score_iscn_zero _ _ _ _ Hse Hzero) as [Hc|Hm].
  - apply constitutional_prefix in Hc. unfold implicit_prefix.
    rewrite Hc. now rewrite !orb_true_r.
  - exact (implicit_key_prefix _ _ _ Hdet Hm).
Qed.

(* ================================================================== *)
(** ** Constitutional gains and balanced translocations *)

Lemma run_Lit_app {R : Type} (l r : string) (pos : nat) (caps : list string) (k : cont R) :
  run (Lit l) pos (l ++ r) caps k = k (pos + String.length l) r caps.
Proof.
  revert pos.
  induction l as [|c l IH]; intros pos; cbn [Lit run append String.length].
  - now rewrite Nat.add_0_r.
  - rewrite Ascii.eqb_refl, IH. now rewrite Nat.add_succ_r.
Qed.

Lemma string_length_app (a b : string) :
  String.length (a ++ b) = String.length a + String.length b.
Proof. induction a as [|c a IH]; cbn; [reflexivity | now rewrite IH]. Qed.

(** [+<digits>c] matches the pattern of branch a). *)
Lemma constitutional_match (ds : string) :
  ds <> EmptyString -> all_chars isdigit ds = true ->
  is_some (match_ re_constitutional ("+" ++ ds ++ "c")) = true.
Proof.
  intros Hne Hall.
  destruct ds as [|d ds]; [contradiction|].
  cbn in Hall. apply andb_true_iff in Hall. destruct Hall as [Hd Hall].
  unfold match_, match_at, re_constitutional, Seqs. cbn [fold_right].
  cbn [run Nat.eqb].
  rewrite (run_Lit_app "+"). unfold Plus, Digit. cbn [run].
  cbn [append]. rewrite Hd.
  match goal with
  | |- context [rep_loop ?body true ?k ?fuel ?pos (ds ++ "c")%string ?caps] =>
      change body with (@run (nat * list string) (Chr isdigit));
      destruct (rep_chr_success isdigit true k ds "c" fuel pos caps
                  (pos + String.length ds + 1 + 0 - 0, caps)) as [y Hy]
  end.
  - exact Hall.
  - rewrite string_length_app. cbn. lia.
  - rewrite (run_Lit_app "c" ""). cbn [run String.eqb orb]. cbn [String.length].
    do 2 f_equal. lia.
  - rewrite Hy. reflexivity.
Qed.

(** X9: A gain written [+<digits>c] has 0 point under ISCN 2024, whatever its
    count and whatever the detector found. *)
Theorem constitutional_gain_scores_zero (ds : string)
  (implicit_info : @dict string implicit_entry) (cnt : Z) :
  ds <> EmptyString -> all_chars isdigit ds = true ->
  score_iscn implicit_info ("+" ++ ds ++ "c") cnt
  = Ok (0%Z, "Anomalie constitutionnelle (0 point)").
Proof.
  intros Hne Hall. unfold score_iscn.
  now rewrite (constitutional_match ds Hne Hall).
Qed.

Lemma constitutional_gain_scores_zero_witness :
  score_iscn [] "+21c" 3 = Ok (0%Z, "Anomalie constitutionnelle (0 point)").
Proof.
  apply (constitutional_gain_scores_zero "21" [] 3); [discriminate | reflexivity].
Defined.

Lemma balanced_prefix (kw anom : string) :
  is_some (match_ (re_balanced kw) anom) = true ->
  exists r, anom = (kw ++ "(" ++ r)%string.
Proof.
  unfold match_, match_at, re_balanced, Seqs. cbn [fold_right run Nat.eqb].
  match goal with
  | |- context [run (Lit kw) ?p ?s ?c ?k] =>
      destruct (run (Lit kw) p s c k) as [x|] eqn:E
  end; [|discriminate].
  intros _. apply run_Lit_Some in E. destruct E as [r1 [-> E]].
  apply run_Lit_Some in E. destruct E as [r [-> _]].
  now exists r.
Qed.

(** X10: A balanced translocation that holds neither [ins(] nor [dic] is typed
    "Translocation équilibrée" and has 1 point under ISCN 2024, whatever the
    other tokens of the list: the detector never marks it. *)
Theorem balanced_translocation_scores_one (anomalies : list string)
  (implicit_info : @dict string implicit_entry) (anom : string) (cnt : Z) :
  detect_implicit_anomalies anomalies = Ok implicit_info ->
  is_balanced_translocation anom = true ->
  contains "ins(" anom = false ->
  contains "dic" anom = false ->
  type_anomalie anom = "Translocation équilibrée"
  /\ score_iscn implicit_info anom cnt = Ok (1%Z, "Anomalie standard (1 point)").
Proof.
  intros Hdet Hb Hins Hdic.
  apply detect_implicit_entries in Hdet.
  assert (Hshape : exists r, anom = String "t" (String "(" r)).
  { unfold is_balanced_translocation in Hb.
    repeat (apply andb_true_iff in Hb; destruct Hb as [Hb ?]).
    now apply (balanced_prefix "t"). }
  assert (Hder : contains "der" anom = false).
  { unfold is_balanced_translocation in Hb.
    repeat (apply andb_true_iff in Hb; destruct Hb as [Hb ?]).
    now apply negb_true_iff. }
  destruct Hshape as [r ->].
  assert (Hmem : mem String.eqb (String "t" (String "(" r)) implicit_info = false).
  { destruct (mem String.eqb (String "t" (String "(" r)) implicit_info) eqn:Hm;
      [|reflexivity].
    apply (implicit_key_prefix _ _ _ Hdet) in Hm. discriminate. }
  assert (Hc : is_complex_multichr_deseq (String "t" (String "(" r)) = false).
  { unfold is_complex_multichr_deseq.
    destruct (List.length (get_chromosomes (String "t" (String "(" r))) <=? 1);
      [reflexivity|].
    rewrite Hins, Hb. reflexivity. }
  assert (Hu : is_unbalanced_translocation (String "t" (String "(" r)) = false).
  { unfold is_unbalanced_translocation. rewrite Hder, Hdic, Hb. reflexivity. }
  split.
  - unfold type_anomalie. rewrite Hc, Hb. reflexivity.
  - unfold score_iscn. rewrite Hmem.
    unfold standard_scoring. rewrite Hc, Hu. reflexivity.
Qed.

Lemma balanced_translocation_scores_one_witness :
  type_anomalie "t(9;22)(q34;q11)" = "Translocation équilibrée"
  /\ score_iscn [] "t(9;22)(q34;q11)" 1 = Ok (1%Z, "Anomalie standard (1 point)").
Proof.
  apply (balanced_translocation_scores_one ["t(9;22)(q34;q11)"; "+8"] []);
    reflexivity.
Defined.

(* ================================================================== *)
(** ** A clone without a count *)

Lemma filter_digits_none (s : string) :
  all_chars (fun c => negb (isdigit c)) s = true -> filter_chars isdigit s = EmptyString.
Proof.
  induction s as [|c t IH]; cbn; [reflexivity|].
  intros H. apply andb_true_iff in H. destruct H as [Hc Ht].
  apply negb_true_iff in Hc. rewrite Hc. now apply IH.
Qed.

(** X11: In a clone written in ASCII, when the first field holds no digit,
    or the clone has no field at all, the [try] block raises - [IndexError]
    without a field, else the [ValueError] of [int('')] - and is skipped:
    the clone records no ploidy label, only its fields from the third on,
    and [pl] is left as it was. *)
Theorem clone_without_count (st : parse_state) (idx : nat) (clone : string) :
  all_chars is_ascii clone = true ->
  all_chars (fun c => negb (isdigit c)) (hd EmptyString (clone_parts clone)) = true ->
  ploidy_block (clone_parts clone) idx st
  = Raise (match clone_parts clone with
           | [] => IndexError "list index out of range"
           | _ :: _ => ValueError "invalid literal for int() with base 10: ''"
           end)
  /\ parse_clone st idx clone = record_all (skipn 2 (clone_parts clone)) idx st.
Proof.
  intros _ H. unfold parse_clone, record_all.
  assert (E : ploidy_block (clone_parts clone) idx st
              = Raise (match clone_parts clone with
                       | [] => IndexError "list index out of range"
                       | _ :: _ => ValueError "invalid literal for int() with base 10: ''"
                       end)).
  { unfold ploidy_block.
    destruct (clone_parts clone) as [|p0 rest]; [reflexivity|].
    cbn [hd] in H. cbn [index0 bind].
    rewrite sub_nondigit_filter, (filter_digits_none _ H). reflexivity. }
  split; [exact E|]. rewrite E. reflexivity.
Qed.

Lemma clone_without_count_witness :
  ploidy_block (clone_parts "XY,XX,+8,del(5)(q13)") 2
    {| anomalies := ["Tetraploidy"]; clone_map := []; pl := Some "Tetraploidy" |}
  = Raise (ValueError "invalid literal for int() with base 10: ''")
  /\ parse_clone {| anomalies := ["Tetraploidy"]; clone_map := []; pl := Some "Tetraploidy" |}
       2 "XY,XX,+8,del(5)(q13)"
     = record_all ["+8"; "del(5)(q13)"] 2
         {| anomalies := ["Tetraploidy"]; clone_map := []; pl := Some "Tetraploidy" |}.
Proof.
  apply (clone_without_count
           {| anomalies := ["Tetraploidy"]; clone_map := []; pl := Some "Tetraploidy" |}
           2 "XY,XX,+8,del(5)(q13)").
  - reflexivity.
  - reflexivity.
Defined.

(* ================================================================== *)
(** ** Normalization *)

Lemma lstrip_idem (p : ascii -> bool) (s : string) :
  lstrip p (lstrip p s) = lstrip p s.
Proof.
  induction s as [|c t IH]; cbn; [reflexivity|].
  destruct (p c) eqn:E; [exact IH|]. cbn. now rewrite E.
Qed.

(** X12: The uncertainty marker is dropped by normalization: a token and the
    same token behind a question mark have one normalized form, which has
    no leading question mark and is its own normalized form. *)
Theorem normalize_anomaly_normal_form (anom : string) :
  normalize_anomaly (String "?" anom) = normalize_anomaly anom
  /\ normalize_anomaly (normalize_anomaly anom) = normalize_anomaly anom
  /\ startswith (normalize_anomaly anom) "?" = false.
Proof.
  unfold normalize_anomaly. split; [reflexivity|]. split; [apply lstrip_idem|].
  pose proof (lstrip_head (Ascii.eqb "?") anom) as H.
  destruct (lstrip (Ascii.eqb "?") anom) as [|c t]; [reflexivity|].
  cbn [startswith]. now rewrite H.
Qed.

(* ================================================================== *)
(** ** The chromosome references *)

Lemma match_at_chromosomes_group (pos : nat) (s : string) (n : nat) (caps : list string) :
  match_at re_chromosomes pos s = Some (n, caps) ->
  exists g, caps = [g] /\ all_chars digit_or_semicolon g = true.
Proof.
  unfold match_at. intros E.
  unfold re_chromosomes, Seqs in E. cbn [fold_right] in E.
  cbn [run] in E.
  apply run_Alts_Some in E. destruct E as [r [Hin E]].
  apply in_map_iff in Hin. destruct Hin as [kw [<- _]].
  apply run_Lit_Some in E. destruct E as [r1 [-> E]].
  apply run_Lit_Some in E. destruct E as [r2 [-> E]].
  cbn [Plus run] in E.
  destruct r2 as [|d t]; [discriminate|].
  destruct (digit_or_semicolon d) eqn:Hd; [|discriminate].
  apply rep_chr_reach in E. destruct E as [ds [r [-> [Hall E]]]].
  exists (String d ds). split.
  - assert (Hcaps : [] ++ [substring 0
                             (S (pos + String.length kw + String.length "(")
                              + String.length ds
                              - (pos + String.length kw + String.length "("))
                             (String d (ds ++ r))] = caps) by congruence.
    rewrite <- Hcaps.
    replace (S (pos + String.length kw + String.length "(") + String.length ds
             - (pos + String.length kw + String.length "("))
      with (String.length (String d ds)) by (cbn [String.length]; lia).
    change (String d (ds ++ r)) with (String d ds ++ r)%string.
    now rewrite substring_app_prefix.
  - cbn. now rewrite Hd, Hall.
Qed.

Lemma finditer_chromosomes_groups (s : string) (skip pos : nat) :
  Forall (fun caps => exists g, caps = [g] /\ all_chars digit_or_semicolon g = true)
    (finditer_from re_chromosomes skip pos s).
Proof.
  revert skip pos.
  induction s as [|c t IH]; intros skip pos; cbn [finditer_from].
  - destruct skip; [|constructor].
    destruct (match_at re_chromosomes pos EmptyString) as [[n caps]|] eqn:E;
      [|constructor].
    constructor; [now apply match_at_chromosomes_group in E | constructor].
  - destruct skip as [|skip]; [|apply IH].
    destruct (match_at re_chromosomes pos (String c t)) as [[n caps]|] eqn:E;
      [|apply IH].
    constructor; [now apply match_at_chromosomes_group in E | apply IH].
Qed.

Lemma set_add_keeps (P : string -> Prop) (s : list string) (x : string) :
  Forall P s -> P x -> NoDup s -> Forall P (set_add s x) /\ NoDup (set_add s x).
Proof.
  intros Hs Hx Hnd. unfold set_add.
  destruct (set_mem x s) eqn:E; [now split|].
  split.
  - apply Forall_app. split; [exact Hs | now repeat constructor].
  - apply NoDup_app; [exact Hnd | repeat constructor; auto | ].
    intros y Hy [<-|[]]. apply set_mem_In in Hy. congruence.
Qed.

Lemma set_update_keeps (P : string -> Prop) (l s : list string) :
  Forall P s -> Forall P l -> NoDup s ->
  Forall P (set_update s l) /\ NoDup (set_update s l).
Proof.
  unfold set_update. revert s.
  induction l as [|x t IH]; intros s Hs Hl Hnd; cbn [fold_left]; [now split|].
  inversion Hl as [|? ? Hx Ht]; subst.
  destruct (set_add_keeps P s x Hs Hx Hnd) as [Hs' Hnd'].
  now apply IH.
Qed.

Lemma split_semicolon_digits (g : string) :
  all_chars digit_or_semicolon g = true ->
  Forall (fun x => all_chars isdigit x = true) (split ";" g).
Proof.
  intros Hg. apply Forall_forall. intros x Hx.
  apply all_chars_forall. intros c Hc.
  destruct (split_In _ _ _ _ Hx Hc) as [Hin Hne].
  rewrite all_chars_forall in Hg. specialize (Hg c Hin).
  unfold digit_or_semicolon in Hg. apply orb_true_iff in Hg.
  destruct Hg as [Hg|Hg]; [exact Hg|].
  apply Ascii.eqb_eq in Hg. contradiction.
Qed.

(** X13: The extractor returns pairwise distinct strings of decimal digits (the
    empty string may be one of them). *)
Theorem chromosomes_are_digit_strings (anom : string) :
  Forall (fun x => all_chars isdigit x = true) (get_chromosomes anom)
  /\ NoDup (get_chromosomes anom).
Proof.
  unfold get_chromosomes, finditer.
  pose proof (finditer_chromosomes_groups anom 0 0) as F.
  revert F. generalize (finditer_from re_chromosomes 0 0 anom) as ms.
  assert (G : forall ms nums,
             Forall (fun caps => exists g, caps = [g]
                                           /\ all_chars digit_or_semicolon g = true) ms ->
             Forall (fun x => all_chars isdigit x = true) nums -> NoDup nums ->
             Forall (fun x => all_chars isdigit x = true)
               (fold_left (fun nums m => fold_left set_add (split ";" (group 1 m)) nums)
                  ms nums)
             /\ NoDup
                  (fold_left (fun nums m => fold_left set_add (split ";" (group 1 m)) nums)
                     ms nums)).
  { induction ms as [|m ms IH]; intros nums Hms Hnums Hnd; cbn [fold_left]; [now split|].
    inversion Hms as [|? ? [g [-> Hg]] Hms']; subst.
    destruct (set_update_keeps (fun x => all_chars isdigit x = true)
                (split ";" (group 1 [g])) nums Hnums) as [H1 H2];
      [now apply split_semicolon_digits | exact Hnd |].
    now apply IH. }
  intros ms F. apply G; [exact F | constructor | constructor].
Qed.

(* ================================================================== *)
(** ** Formulas with more clones *)

Lemma filter_chars_app (p : ascii -> bool) (a b : string) :
  filter_chars p (a ++ b) = (filter_chars p a ++ filter_chars p b)%string.
Proof.
  induction a as [|c a IH]; cbn; [reflexivity|].
  destruct (p c); cbn; now rewrite IH.
Qed.

Lemma split_nonempty (sep : ascii) (s : string) : split sep s <> [].
Proof.
  destruct s as [|c t]; cbn; [discriminate|].
  destruct (Ascii.eqb c sep); [discriminate|].
  destruct (split sep t); discriminate.
Qed.

Lemma split_app_sep (sep : ascii) (a b : string) :
  split sep (a ++ String sep b) = split sep a ++ split sep b.
Proof.
  induction a as [|c a IH]; cbn [append split].
  - now rewrite Ascii.eqb_refl.
  - destruct (Ascii.eqb c sep); [now rewrite IH|].
    rewrite IH. pose proof (split_nonempty sep a) as Hne.
    destruct (split sep a) as [|h t]; [contradiction | reflexivity].
Qed.

Lemma split_clones_app (f1 f2 : string) :
  split_clones (f1 ++ String "/" f2) = split_clones f1 ++ split_clones f2.
Proof.
  unfold split_clones. rewrite !sub_spaces_filter. unfold remove_spaces.
  rewrite filter_chars_app. cbn [filter_chars isspace].
  change (negb (isspace "/")) with true. cbv iota.
  now rewrite split_app_sep, map_app.
Qed.

Lemma parse_clones_app (l1 l2 : list string) (idx : nat) (st : parse_state) :
  parse_clones (l1 ++ l2) idx st
  = parse_clones l2 (idx + List.length l1) (parse_clones l1 idx st).
Proof.
  revert idx st.
  induction l1 as [|c l1 IH]; intros idx st; cbn [app parse_clones List.length].
  - now rewrite Nat.add_0_r.
  - rewrite IH. now rewrite Nat.add_succ_r.
Qed.

Lemma parse_clones_extends (clones : list string) (idx : nat) (st : parse_state) :
  exists more, anomalies (parse_clones clones idx st) = anomalies st ++ more.
Proof.
  revert idx st.
  induction clones as [|c rest IH]; intros idx st; cbn [parse_clones].
  - exists []. now rewrite app_nil_r.
  - destruct (IH (S idx) (parse_clone st idx c)) as [more ->].
    destruct (parse_clone_records st idx c) as [toks [pl' [E _]]].
    rewrite E, record_all_anomalies. cbn [anomalies].
    exists (toks ++ more). now rewrite app_assoc.
Qed.

(** X14: Clones written after a formula only add tokens: the tokens of the
    formula are the first tokens of the longer formula. *)
Theorem later_clones_only_append (f1 f2 : string) :
  exists more,
    fst (parse_caryotype (f1 ++ String "/" f2)) = fst (parse_caryotype f1) ++ more.
Proof.
  unfold parse_caryotype. cbn [fst].
  rewrite split_clones_app, parse_clones_app.
  apply parse_clones_extends.
Qed.

(* ================================================================== *)
(** ** Gains and losses implied by a derivative *)

(** A greedy repetition of a class stops at the end of the run of the
    class when what follows succeeds there. *)
Lemma rep_chr_greedy_max {R : Type} (p : ascii -> bool) (k : cont R) :
  forall ds r fuel pos caps x,
    all_chars p ds = true ->
    match r with
    | EmptyString => True
    | String c _ => p c = false
    end ->
    String.length ds < fuel ->
    k (pos + String.length ds) r caps = Some x ->
    rep_loop (run (Chr p)) true k fuel pos (ds ++ r) caps = Some x.
Proof.
  induction ds as [|c ds IH]; intros r fuel pos caps x Hall Hr Hfuel Hk;
    rewrite rep_loop_eq; cbv zeta;
    (destruct fuel as [|fuel]; [cbn in Hfuel; lia|]).
  - cbn [append]. cbn in Hk. rewrite Nat.add_0_r in Hk.
    destruct r as [|c t]; cbn [run].
    + exact Hk.
    + rewrite Hr. exact Hk.
  - cbn in Hall. apply andb_true_iff in Hall. destruct Hall as [Hc Hall].
    cbn [append]. rewrite run_Chr_cons, Hc, ltb_succ.
    rewrite (IH r fuel (S pos) caps x Hall Hr); [reflexivity | cbn in Hfuel; lia |].
    cbn in Hk. now rewrite Nat.add_succ_r in Hk.
Qed.

Lemma all_chars_weaken (p q : ascii -> bool) (s : string) :
  (forall c, p c = true -> q c = true) -> all_chars p s = true -> all_chars q s = true.
Proof.
  intros H. induction s as [|c t IH]; cbn; [reflexivity|].
  intros Hs. apply andb_true_iff in Hs. destruct Hs as [Hc Ht].
  now rewrite (H c Hc), IH.
Qed.

Lemma all_chars_app (p : ascii -> bool) (a b : string) :
  all_chars p (a ++ b) = all_chars p a && all_chars p b.
Proof.
  induction a as [|c a IH]; cbn; [reflexivity|].
  now rewrite IH, andb_assoc.
Qed.

Lemma digits_in_list_class (s : string) :
  all_chars isdigit s = true -> all_chars digit_or_semicolon s = true.
Proof.
  apply all_chars_weaken. intros c Hc. unfold digit_or_semicolon. now rewrite Hc.
Qed.

(** [re.match(r"^(?:der|dic)\(([0-9;]+)\)", "der(A)...")] captures [A]. *)
Lemma der_list_match (A tail : string) :
  A <> EmptyString -> all_chars isdigit A = true ->
  match_ re_der_list ("der" ++ "(" ++ A ++ ")" ++ tail) = Some [A].
Proof.
  intros Hne Hall.
  destruct A as [|a A]; [contradiction|].
  cbn in Hall. apply andb_true_iff in Hall. destruct Hall as [Ha Hall].
  assert (Ha' : digit_or_semicolon a = true) by (unfold digit_or_semicolon; now rewrite Ha).
  apply digits_in_list_class in Hall.
  unfold match_, match_at, re_der_list, Seqs, Plus. cbn [fold_right].
  cbn [run Nat.eqb].
  rewrite (run_Lit_app "der"), (run_Lit_app "(").
  cbn [append]. rewrite Ha'.
  match goal with
  | |- context [rep_loop ?body true ?k ?fuel ?pos (A ++ ?r)%string ?caps] =>
      change body with (@run (nat * list string) (Chr digit_or_semicolon));
      rewrite (rep_chr_greedy_max digit_or_semicolon k A r fuel pos caps
                 (pos + String.length A + 1 - 0, [String a A]))
  end.
  - reflexivity.
  - exact Hall.
  - reflexivity.
  - rewrite string_length_app. lia.
  - change (String ")" tail) with (")" ++ tail)%string.
    rewrite (run_Lit_app ")"). cbn [app]. do 3 f_equal.
    match goal with
    | |- substring 0 ?n _ = _ =>
        replace n with (String.length (String a A)) by (cbn [String.length]; lia)
    end.
    exact (substring_app_prefix (String a A) (")" ++ tail)).
Qed.

(** [t\(([0-9;]+)\)] at the start of [t(L)...] captures [L]. *)
Lemma t_list_match_at (pos : nat) (L tail : string) :
  L <> EmptyString -> all_chars digit_or_semicolon L = true ->
  exists n, match_at re_t_list pos ("t" ++ "(" ++ L ++ ")" ++ tail) = Some (n, [L]).
Proof.
  intros Hne Hall.
  destruct L as [|a L]; [contradiction|].
  cbn in Hall. apply andb_true_iff in Hall. destruct Hall as [Ha Hall].
  unfold match_at, re_t_list, Seqs, Plus. cbn [fold_right].
  cbn [run].
  rewrite (run_Lit_app "t"), (run_Lit_app "(").
  cbn [append]. rewrite Ha.
  eexists.
  match goal with
  | |- context [rep_loop ?body true ?k ?fuel ?p (L ++ ?r)%string ?caps] =>
      change body with (@run (nat * list string) (Chr digit_or_semicolon));
      rewrite (rep_chr_greedy_max digit_or_semicolon k L r fuel p caps
                 (p + String.length L + 1 - pos, [String a L]))
  end.
  - reflexivity.
  - exact Hall.
  - reflexivity.
  - rewrite string_length_app. lia.
  - change (String ")" tail) with (")" ++ tail)%string.
    rewrite (run_Lit_app ")"). cbn [app]. do 3 f_equal.
    match goal with
    | |- substring 0 ?n _ = _ =>
        replace n with (String.length (String a L)) by (cbn [String.length]; lia)
    end.
    exact (substring_app_prefix (String a L) (")" ++ tail)).
Qed.

Lemma t_list_miss (pos : nat) (c : ascii) (t : string) :
  Ascii.eqb c "t" = false -> match_at re_t_list pos (String c t) = None.
Proof.
  intros Hc. unfold match_at, re_t_list, Seqs. cbn [fold_right].
  cbn [run Lit]. rewrite Ascii.eqb_sym, Hc. reflexivity.
Qed.

Lemma finditer_t_list_skip (pre s : string) (pos : nat) :
  all_chars (fun c => negb (Ascii.eqb c "t")) pre = true ->
  finditer_from re_t_list 0 pos (pre ++ s)
  = finditer_from re_t_list 0 (pos + String.length pre) s.
Proof.
  revert pos.
  induction pre as [|c pre IH]; intros pos Hpre; cbn [append String.length].
  - now rewrite Nat.add_0_r.
  - cbn in Hpre. apply andb_true_iff in Hpre. destruct Hpre as [Hc Hpre].
    apply negb_true_iff in Hc.
    cbn [finditer_from]. rewrite (t_list_miss pos c _ Hc). cbn [Nat.pred].
    rewrite IH by exact Hpre. now rewrite Nat.add_succ_r.
Qed.

Lemma digit_is_not (x : ascii) (s : string) :
  isdigit x = false -> all_chars isdigit s = true ->
  all_chars (fun c => negb (Ascii.eqb c x)) s = true.
Proof.
  intros Hx. apply all_chars_weaken. intros c Hc.
  destruct (Ascii.eqb c x) eqn:E; [|reflexivity].
  apply Ascii.eqb_eq in E. subst c. congruence.
Qed.

Lemma split_no_sep (sep : ascii) (s : string) :
  all_chars (fun c => negb (Ascii.eqb c sep)) s = true -> split sep s = [s].
Proof.
  induction s as [|c t IH]; cbn; [reflexivity|].
  intros H. apply andb_true_iff in H. destruct H as [Hc Ht].
  apply negb_true_iff in Hc. rewrite Hc, (IH Ht). reflexivity.
Qed.

(** *** Sets only grow *)

Lemma set_add_incl (s : list string) (x y : string) : In y s -> In y (set_add s x).
Proof.
  intros H. unfold set_add. destruct (set_mem x s); [exact H|].
  apply in_or_app. now left.
Qed.

Lemma set_update_incl (l s : list string) (y : string) :
  In y s -> In y (set_update s l).
Proof.
  unfold set_update. revert s.
  induction l as [|x t IH]; intros s H; cbn [fold_left]; [exact H|].
  apply IH. now apply set_add_incl.
Qed.

Lemma two_distinct_length (l : list string) (a b : string) :
  In a l -> In b l -> a <> b -> 1 < List.length l.
Proof.
  destruct l as [|x [|y t]]; cbn.
  - tauto.
  - intros [<-|[]] [<-|[]] H. contradiction.
  - intros _ _ _. lia.
Qed.

Lemma fold_append_mem (an : string) (chrs : list string)
  (acc : @dict string (list string)) (k : string) :
  In k chrs \/ mem String.eqb k acc = true ->
  mem String.eqb k
    (fold_left (fun md c => setdefault_append String.eqb c an md) chrs acc) = true.
Proof.
  revert acc.
  induction chrs as [|c cs IH]; intros acc; cbn [fold_left In].
  - intros [[]|H]. exact H.
  - intros [[->|H]|H]; apply IH.
    + right. unfold setdefault_append. apply mem_upsert_same. apply String.eqb_eq.
    + now left.
    + right. unfold setdefault_append. now apply mem_upsert_mono.
Qed.

Lemma multi_der_step_mono (acc : @dict string (list string)) (an k : string) :
  mem String.eqb k acc = true -> mem String.eqb k (multi_der_step acc an) = true.
Proof.
  intros H. unfold multi_der_step.
  destruct (startswith an "der" || startswith an "dic"); [|exact H].
  destruct (match_ re_der_list an); [|exact H].
  match goal with |- context [if ?b then _ else _] => destruct b end; [|exact H].
  apply fold_append_mem. now right.
Qed.

Lemma multi_der_fold_mono (l : list string) (acc : @dict string (list string)) (k : string) :
  mem String.eqb k acc = true ->
  mem String.eqb k (fold_left multi_der_step l acc) = true.
Proof.
  revert acc.
  induction l as [|x t IH]; intros acc H; cbn [fold_left]; [exact H|].
  apply IH. now apply multi_der_step_mono.
Qed.

Lemma string_app_assoc (a b c : string) : ((a ++ b) ++ c = a ++ (b ++ c))%string.
Proof. induction a as [|x a IH]; cbn; [reflexivity | now rewrite IH]. Qed.

Lemma fold_set_update_incl (ms : list (list string)) (s : list string) (y : string) :
  In y s ->
  In y (fold_left (fun chrs t => set_update chrs (split ";" (group 1 t))) ms s).
Proof.
  revert s.
  induction ms as [|m ms IH]; intros s H; cbn [fold_left]; [exact H|].
  apply IH. now apply set_update_incl.
Qed.

(** The first loop of rule 2 registers both chromosomes of
    [der(A)t(A;B)...]. *)
Lemma multi_der_step_derivative (acc : @dict string (list string)) (A B rest : string) :
  A <> EmptyString -> all_chars isdigit A = true ->
  B <> EmptyString -> all_chars isdigit B = true ->
  A <> B ->
  mem String.eqb A (multi_der_step acc (derivative_token A B rest)) = true
  /\ mem String.eqb B (multi_der_step acc (derivative_token A B rest)) = true.
Proof.
  intros HA HAd HB HBd Hne.
  set (L := (A ++ ";" ++ B)%string).
  set (s := ("t" ++ "(" ++ L ++ ")" ++ rest)%string).
  assert (HL : all_chars digit_or_semicolon L = true).
  { unfold L. rewrite all_chars_app. cbn [all_chars append].
    rewrite (digits_in_list_class A HAd), (digits_in_list_class B HBd). reflexivity. }
  assert (HLne : L <> EmptyString).
  { unfold L. destruct A; [contradiction | discriminate]. }
  assert (Hm : match_ re_der_list (derivative_token A B rest) = Some [A]).
  { exact (der_list_match A s HA HAd). }
  assert (Hf : exists tl, finditer re_t_list (derivative_token A B rest) = [L] :: tl).
  { unfold finditer.
    replace (derivative_token A B rest) with (("der(" ++ A ++ ")") ++ s)%string.
    - rewrite finditer_t_list_skip.
      + destruct (t_list_match_at (0 + String.length ("der(" ++ A ++ ")")) L rest HLne HL)
          as [n E].
        unfold s. destruct ("t" ++ "(" ++ L ++ ")" ++ rest)%string eqn:Es;
          cbn [finditer_from]; rewrite E; eexists; reflexivity.
      + cbn [append all_chars]. rewrite all_chars_app.
        rewrite (digit_is_not "t" A eq_refl HAd). reflexivity.
    - unfold derivative_token, s. cbn [append].
      rewrite string_app_assoc. reflexivity. }
  destruct Hf as [tl Hf].
  assert (HsplitA : split ";" A = [A]).
  { apply split_no_sep. now apply digit_is_not. }
  assert (HsplitB : split ";" B = [B]).
  { apply split_no_sep. now apply digit_is_not. }
  assert (HsplitL : split ";" L = [A; B]).
  { unfold L. cbn [append]. now rewrite split_app_sep, HsplitA, HsplitB. }
  assert (HBA : (B =? A)%string = false).
  { apply String.eqb_neq. congruence. }
  unfold multi_der_step.
  change (startswith (derivative_token A B rest) "der") with true.
  cbn [orb]. rewrite Hm, Hf. cbn [group nth Nat.sub fold_left].
  rewrite HsplitA, HsplitL.
  assert (Hstart : set_update (set_update [] [A]) [A; B] = [A; B]).
  { unfold set_update, set_add, set_mem. cbn [fold_left existsb app].
    rewrite String.eqb_refl. cbn [orb existsb]. rewrite HBA. reflexivity. }
  rewrite Hstart.
  set (chrs := fold_left (fun chrs t => set_update chrs (split ";" (group 1 t))) tl [A; B]).
  assert (HinA : In A chrs) by (apply fold_set_update_incl; now left).
  assert (HinB : In B chrs) by (apply fold_set_update_incl; right; now left).
  assert (Hlen : (1 <? List.length chrs) = true).
  { apply Nat.ltb_lt. exact (two_distinct_length chrs A B HinA HinB Hne). }
  rewrite Hlen. split; apply fold_append_mem; now left.
Qed.

Lemma multi_der_has_derivative (l : list string) (acc : @dict string (list string))
  (A B rest : string) :
  A <> EmptyString -> all_chars isdigit A = true ->
  B <> EmptyString -> all_chars isdigit B = true ->
  A <> B ->
  In (derivative_token A B rest) l ->
  mem String.eqb A (fold_left multi_der_step l acc) = true
  /\ mem String.eqb B (fold_left multi_der_step l acc) = true.
Proof.
  intros HA HAd HB HBd Hne. revert acc.
  induction l as [|x t IH]; intros acc; cbn [In fold_left]; [tauto|].
  intros [->|H]; [|now apply IH].
  destruct (multi_der_step_derivative acc A B rest HA HAd HB HBd Hne) as [H1 H2].
  split; now apply multi_der_fold_mono.
Qed.

Lemma mark_implicit_gain_mono (nto : @dict string string)
  (multi_der : @dict string (list string))
  (implicit implicit' : @dict string implicit_entry) (an k : string) :
  mem String.eqb k implicit = true ->
  mark_implicit_gain nto multi_der implicit an = Ok implicit' ->
  mem String.eqb k implicit' = true.
Proof.
  intros Hk. unfold mark_implicit_gain.
  destruct (startswith an "+" || startswith an "-"); [|now intros [= <-]].
  destruct (mem String.eqb (sub_empty re_nondigit an) multi_der); [|now intros [= <-]].
  destruct (getitem (sub_empty re_nondigit an) multi_der) as [l|]; [|discriminate].
  cbn [bind]. destruct (index0 l) as [r|]; [|discriminate]. cbn [bind].
  intros [= <-]. unfold setitem. now apply mem_upsert_mono.
Qed.

Lemma mark_implicit_gain_sets (nto : @dict string string)
  (multi_der : @dict string (list string))
  (implicit implicit' : @dict string implicit_entry) (g : string) :
  startswith g "+" || startswith g "-" = true ->
  mem String.eqb (filter_chars isdigit g) multi_der = true ->
  mark_implicit_gain nto multi_der implicit g = Ok implicit' ->
  mem String.eqb g implicit' = true.
Proof.
  intros Hp Hm. unfold mark_implicit_gain.
  rewrite Hp, sub_nondigit_filter, Hm.
  destruct (getitem (filter_chars isdigit g) multi_der) as [l|]; [|discriminate].
  cbn [bind]. destruct (index0 l) as [r|]; [|discriminate]. cbn [bind].
  intros [= <-]. unfold setitem. apply mem_upsert_same. apply String.eqb_eq.
Qed.

Lemma gain_loop_sets (nto : @dict string string) (multi_der : @dict string (list string))
  (g : string) (l : list string) (st st' : @dict string implicit_entry) :
  startswith g "+" || startswith g "-" = true ->
  mem String.eqb (filter_chars isdigit g) multi_der = true ->
  mem String.eqb g st = true \/ In g l ->
  for_each (mark_implicit_gain nto multi_der) l st = Ok st' ->
  mem String.eqb g st' = true.
Proof.
  intros Hp Hm. revert st.
  induction l as [|x t IH]; intros st Hg; cbn [for_each].
  - intros [= <-]. destruct Hg as [Hg|[]]. exact Hg.
  - destruct (mark_implicit_gain nto multi_der st x) as [st1|e] eqn:E; [|discriminate].
    cbn [bind]. apply IH.
    destruct Hg as [Hg|[->|Hg]].
    + left. exact (mark_implicit_gain_mono _ _ _ _ _ _ Hg E).
    + left. exact (mark_implicit_gain_sets _ _ _ _ _ Hp Hm E).
    + now right.
Qed.

Lemma sign_prefix_not_derivative (g : string) :
  startswith g "+" || startswith g "-" = true ->
  startswith g "der" || startswith g "dic" = false.
Proof.
  destruct g as [|c t]; [discriminate|]. cbn [startswith]. rewrite !andb_true_r.
  intros H. apply orb_true_iff in H.
  destruct H as [H|H]; apply Ascii.eqb_eq in H; subst c; reflexivity.
Qed.

(** X15: When the list holds the derivative [der(A)t(A;B)...] of two different
    chromosomes, every gain or loss token of the list that is written in
    ASCII and whose digits are [A] or [B] is marked as an implicit gain or
    loss, and has 0 point under ISCN 2024. *)
Theorem derivative_implies_gain_loss (anomalies : list string) (A B rest g : string) :
  A <> EmptyString -> all_chars isdigit A = true ->
  B <> EmptyString -> all_chars isdigit B = true ->
  A <> B ->
  In (derivative_token A B rest) (map normalize_anomaly anomalies) ->
  In g (map normalize_anomaly anomalies) ->
  all_chars is_ascii g = true ->
  startswith g "+" || startswith g "-" = true ->
  filter_chars isdigit g = A \/ filter_chars isdigit g = B ->
  exists implicit e,
    detect_implicit_anomalies anomalies = Ok implicit
    /\ get String.eqb g implicit = Some e
    /\ reason e = "Gain/perte implicite"
    /\ forall cnt, exists explication,
         score_iscn implicit g cnt = Ok (0%Z, explication).
Proof.
  intros HA HAd HB HBd Hne Hd Hg _ Hp Hdigits.
  destruct (detect_implicit_anomalies_total anomalies) as [imp E].
  assert (Hmem : mem String.eqb g imp = true).
  { pose proof E as E'. unfold detect_implicit_anomalies in E'.
    destruct (for_each (mark_implicit_ders (norm_to_orig_of anomalies)) _ [])
      as [imp1|e]; [|discriminate].
    cbn [bind] in E'.
    apply (gain_loop_sets _ _ g _ _ _ Hp) in E'; [exact E' | | right].
    - destruct (multi_der_has_derivative
                  (keys (Counter (map normalize_anomaly anomalies))) [] A B rest
                  HA HAd HB HBd Hne) as [H1 H2].
      { now apply Counter_keys_iff. }
      unfold multi_der_of. destruct Hdigits as [->| ->]; assumption.
    - now apply Counter_keys_iff. }
  destruct (getitem_of_mem _ _ Hmem) as [e [Hitem Hget]].
  exists imp, e. split; [exact E|]. split; [exact Hget|]. split.
  - pose proof (detect_implicit_entries _ _ E) as F.
    rewrite Forall_forall in F.
    destruct (F _ (get_In_entry _ _ _ Hget)) as [_ [_ H]]. cbn [fst snd] in H.
    destruct H as [[_ [H _]]|[H _]]; [|exact H].
    rewrite (sign_prefix_not_derivative g Hp) in H. discriminate.
  - intros cnt. unfold score_iscn.
    destruct (is_some (match_ re_constitutional g)); [now eexists|].
    rewrite Hmem, Hitem. cbn [bind]. now eexists.
Qed.

Lemma derivative_implies_gain_loss_witness :
  exists implicit e,
    detect_implicit_anomalies ["?der(9)t(9;22)(q34;q11)"; "-9"; "+8"] = Ok implicit
    /\ get String.eqb "-9" implicit = Some e
    /\ reason e = "Gain/perte implicite"
    /\ forall cnt, exists explication,
         score_iscn implicit "-9" cnt = Ok (0%Z, explication).
Proof.
  apply (derivative_implies_gain_loss ["?der(9)t(9;22)(q34;q11)"; "-9"; "+8"]
           "9" "22" "(q34;q11)" "-9");
    [ discriminate | reflexivity | discriminate | reflexivity | discriminate
    | left; reflexivity | right; left; reflexivity | reflexivity | reflexivity
    | left; reflexivity ].
Defined.

(* ================================================================== *)
(** ** Simple gains and losses *)

Lemma contains_first_absent (sub s : string) (x : ascii) :
  startswith sub (String x EmptyString) = true ->
  all_chars (fun c => negb (Ascii.eqb c x)) s = true ->
  contains sub s = false.
Proof.
  destruct sub as [|y sub]; [discriminate|].
  cbn [startswith]. rewrite andb_true_r. intros Hy.
  apply Ascii.eqb_eq in Hy. subst y.
  induction s as [|c t IH]; cbn; [reflexivity|].
  intros H. apply andb_true_iff in H. destruct H as [Hc Ht].
  apply negb_true_iff in Hc. rewrite (Ascii.eqb_sym x c), Hc. cbn. now apply IH.
Qed.

Lemma digits_contain_no (sub ds : string) (x : ascii) :
  startswith sub (String x EmptyString) = true -> isdigit x = false ->
  all_chars isdigit ds = true -> contains sub ds = false.
Proof.
  intros Hsub Hx Hds. apply (contains_first_absent sub ds x Hsub).
  now apply digit_is_not.
Qed.

Lemma filter_digits_all (ds : string) :
  all_chars isdigit ds = true -> filter_chars isdigit ds = ds.
Proof.
  induction ds as [|c t IH]; cbn; [reflexivity|].
  intros H. apply andb_true_iff in H. destruct H as [Hc Ht].
  now rewrite Hc, IH.
Qed.

Lemma no_paren_no_list (s : string) :
  all_chars (fun c => negb (Ascii.eqb c "(")) s = true -> paren_before_list_char s = false.
Proof.
  induction s as [|c t IH]; cbn; [reflexivity|].
  intros H. apply andb_true_iff in H. destruct H as [Hc Ht].
  apply negb_true_iff in Hc. rewrite Hc. cbn. now apply IH.
Qed.

Lemma digits_differ_from (ds lit : string) (x : ascii) :
  ds <> EmptyString -> all_chars isdigit ds = true ->
  startswith lit (String x EmptyString) = true -> isdigit x = false ->
  (ds =? lit)%string = false.
Proof.
  intros Hne Hds Hlit Hx. apply String.eqb_neq. intros ->.
  destruct lit as [|y lit]; [contradiction|].
  cbn in Hlit, Hds. rewrite andb_true_r in Hlit. apply Ascii.eqb_eq in Hlit. subst y.
  apply andb_true_iff in Hds. destruct Hds as [Hy _]. congruence.
Qed.

(** [+<digits>] is not of the constitutional shape: the final [c] is
    missing. *)
Lemma plain_gain_not_constitutional (ds : string) :
  all_chars isdigit ds = true ->
  is_some (match_ re_constitutional (String "+" ds)) = false.
Proof.
  intros Hds.
  destruct (is_some (match_ re_constitutional (String "+" ds))) eqn:E; [exfalso|reflexivity].
  revert E. unfold match_, match_at, re_constitutional, Seqs, Plus, Digit.
  cbn [fold_right]. cbn [run Nat.eqb].
  change (String "+" ds) with ("+" ++ ds)%string. rewrite (run_Lit_app "+").
  destruct ds as [|d ds]; [discriminate|].
  cbn in Hds. apply andb_true_iff in Hds. destruct Hds as [Hd Hds]. rewrite Hd.
  match goal with
  | |- is_some (option_map snd ?m) = true -> False => destruct m as [x|] eqn:E
  end; [|discriminate].
  intros _. apply rep_chr_reach in E. destruct E as [u [r [-> [_ E]]]].
  apply run_Lit_Some in E. destruct E as [r' [-> _]].
  rewrite all_chars_app in Hds. apply andb_true_iff in Hds.
  destruct Hds as [_ Hc]. cbn in Hc. discriminate.
Qed.

Lemma signed_digits_plain (sign : ascii) (ds : string) :
  sign = "+"%char \/ sign = "-"%char ->
  all_chars isdigit ds = true ->
  is_complex_multichr_deseq (String sign ds) = false
  /\ is_unbalanced_translocation (String sign ds) = false
  /\ contains "~" (String sign ds) = false
  /\ contains "dmin" (String sign ds) = false.
Proof.
  intros Hsign Hds.
  assert (Hin : forall sub x,
             startswith sub (String x EmptyString) = true -> isdigit x = false ->
             startswith (String sign ds) sub = false ->
             contains sub (String sign ds) = false).
  { intros sub x Hsub Hx Hstart. cbn [contains]. rewrite Hstart. cbn [orb].
    exact (digits_contain_no sub ds x Hsub Hx Hds). }
  assert (Hder : contains "der" (String sign ds) = false).
  { apply (Hin "der" "d"%char); [reflexivity | reflexivity |].
    destruct Hsign as [-> | ->]; reflexivity. }
  assert (Hdic : contains "dic" (String sign ds) = false).
  { apply (Hin "dic" "d"%char); [reflexivity | reflexivity |].
    destruct Hsign as [-> | ->]; reflexivity. }
  assert (Ht : contains "t(" (String sign ds) = false).
  { apply (Hin "t(" "t"%char); [reflexivity | reflexivity |].
    destruct Hsign as [-> | ->]; reflexivity. }
  split; [|split; [|split]].
  - unfold is_complex_multichr_deseq. rewrite get_chromosomes_nil; [reflexivity|].
    cbn [paren_before_list_char].
    rewrite (no_paren_no_list ds (digit_is_not "(" ds eq_refl Hds)).
    destruct Hsign as [-> | ->]; reflexivity.
  - unfold is_unbalanced_translocation. rewrite Hder, Hdic, Ht. reflexivity.
  - apply (Hin "~" "~"%char); [reflexivity | reflexivity |].
    destruct Hsign as [-> | ->]; reflexivity.
  - apply (Hin "dmin" "d"%char); [reflexivity | reflexivity |].
    destruct Hsign as [-> | ->]; reflexivity.
Qed.

Lemma plain_gain_score (ds : string) (implicit_info : @dict string implicit_entry)
  (cnt : Z) :
  ds <> EmptyString -> all_chars isdigit ds = true ->
  mem String.eqb (String "+" ds) implicit_info = false ->
  type_anomalie (String "+" ds) = ("Gain chr" ++ ds)%string
  /\ score_iscn implicit_info (String "+" ds) cnt
     = Ok (if (1 <? cnt)%Z
           then (2%Z, "Déséquilibre unichromosomique (2 points)")
           else (1%Z, "Anomalie standard (1 point)")).
Proof.
  intros Hne Hds Hmem.
  destruct (signed_digits_plain "+" ds (or_introl eq_refl) Hds) as [Hc [Hu [Ht Hd]]].
  split.
  - unfold type_anomalie. rewrite Hc, Hu, Ht, Hd.
    change (is_balanced_translocation (String "+" ds)) with false.
    change (is_balanced_insertion (String "+" ds)) with false.
    cbv iota.
    change (String "+" ds =? "<2n>")%string with false. cbv iota.
    assert (Hmar : (String "+" ds =? "+mar")%string = false).
    { cbn [String.eqb Ascii.eqb Bool.eqb].
      exact (digits_differ_from ds "mar" "m" Hne Hds eq_refl eq_refl). }
    rewrite Hmar.
    cbn [startswith Ascii.eqb Bool.eqb andb].
    rewrite sub_nondigit_filter. cbn [filter_chars].
    change (isdigit "+") with false. cbv iota.
    now rewrite (filter_digits_all ds Hds).
  - unfold score_iscn. rewrite (plain_gain_not_constitutional ds Hds), Hmem.
    cbn [startswith Ascii.eqb Bool.eqb andb orb].
    unfold standard_scoring, is_single_chr_deseq. rewrite Hc, Hu.
    cbn [startswith Ascii.eqb Bool.eqb andb].
    destruct (1 <? cnt)%Z; reflexivity.
Qed.

Lemma scored_rows_keys (clone_map : @dict string (list string))
  (norm_counts : @dict string Z) (implicit_info : @dict string implicit_entry)
  (items : list (string * Z)) (rs : list row) :
  Forall2 (scored_row clone_map norm_counts implicit_info) items rs ->
  map Anomalie rs = keys items.
Proof.
  induction 1 as [|item r items rs [se [_ ->]] _ IH]; simpl; [reflexivity|].
  now rewrite IH.
Qed.

(** X16: In the table of any anomaly list, every token whose normalized form
    is a gain [+<digits>] has a row, and such a row is typed
    "Gain chr<digits>".  When the detector has not marked the gain, the row
    has 2 points under ISCN 2024 if the normalized form is at more than one
    position of the normalized list - the raw token of the row may be there
    only once - and 1 point otherwise. *)
Theorem plain_gain_scoring (anomalies : list string)
  (clone_map : @dict string (list string))
  (implicit_info : @dict string implicit_entry) (ds : string) :
  ds <> EmptyString -> all_chars isdigit ds = true ->
  detect_implicit_anomalies anomalies = Ok implicit_info ->
  mem String.eqb (String "+" ds) implicit_info = false ->
  exists rs last_row total,
    calcul_scores anomalies clone_map = Ok (rs ++ [last_row], total)
    /\ (forall a, In a anomalies -> normalize_anomaly a = String "+" ds ->
          exists r, In r rs /\ Anomalie r = a)
    /\ (forall r, In r rs -> normalize_anomaly (Anomalie r) = String "+" ds ->
          Type_ r = ("Gain chr" ++ ds)%string
          /\ (Score_ISCN_2024 r, Explication r)
             = if (1 <? positions (map normalize_anomaly anomalies) (String "+" ds))%Z
               then (2%Z, "Déséquilibre unichromosomique (2 points)")
               else (1%Z, "Anomalie standard (1 point)")).
Proof.
  intros Hne Hds Hdet Hmem.
  destruct (calcul_scores_exact anomalies clone_map) as [imp [rs [Hdet' [E F]]]].
  assert (imp = implicit_info) by congruence. subst imp.
  exists rs, (total_row (Z.of_nat (List.length rs)) (sum_iscn rs)), (sum_iscn rs).
  split; [exact E|]. split.
  - intros a Ha _.
    apply Counter_keys_iff in Ha. rewrite <- (scored_rows_keys _ _ _ _ _ F) in Ha.
    apply in_map_iff in Ha. destruct Ha as [r [Hr Hin]]. now exists r.
  - intros r Hr Hnorm.
    destruct (Forall2_In_right _ _ _ _ F Hr) as [item [_ [se [Ese ->]]]].
    cbn [Anomalie] in Hnorm. cbn [Type_ Score_ISCN_2024 Explication].
    rewrite Hnorm in *.
    destruct (plain_gain_score ds implicit_info
                (count_of (String "+" ds) (Counter (map normalize_anomaly anomalies)))
                Hne Hds Hmem) as [Hty Hsc].
    split; [exact Hty|].
    rewrite Hsc in Ese. injection Ese as <-.
    unfold positions.
    pose proof (count_fold_value (map normalize_anomaly anomalies) [] (String "+" ds)) as Hc.
    fold (Counter (map normalize_anomaly anomalies)) in Hc.
    change (count_of (String "+" ds) []) with 0%Z in Hc. rewrite Z.add_0_l in Hc.
    rewrite <- Hc.
    destruct (1 <? count_of (String "+" ds) (Counter (map normalize_anomaly anomalies)))%Z;
      reflexivity.
Qed.

Lemma plain_gain_scoring_witness :
  exists rs last_row total,
    calcul_scores ["+8"; "?+8"; "-7"] [] = Ok (rs ++ [last_row], total)
    /\ (forall a, In a ["+8"; "?+8"; "-7"] -> normalize_anomaly a = "+8" ->
          exists r, In r rs /\ Anomalie r = a)
    /\ (forall r, In r rs -> normalize_anomaly (Anomalie r) = "+8" ->
          Type_ r = "Gain chr8"
          /\ (Score_ISCN_2024 r, Explication r)
             = (2%Z, "Déséquilibre unichromosomique (2 points)")).
Proof.
  apply (plain_gain_scoring ["+8"; "?+8"; "-7"] [] [] "8");
    [discriminate | reflexivity | reflexivity | reflexivity].
Defined.

(** X17: A loss written [-<digits>] is typed "Perte chr<digits>" and, when the
    detector has not marked it, has 1 point under ISCN 2024 whatever its
    count. *)
Theorem plain_loss_scoring (ds : string) (implicit_info : @dict string implicit_entry)
  (cnt : Z) :
  ds <> EmptyString -> all_chars isdigit ds = true ->
  mem String.eqb (String "-" ds) implicit_info = false ->
  type_anomalie (String "-" ds) = ("Perte chr" ++ ds)%string
  /\ score_iscn implicit_info (String "-" ds) cnt
     = Ok (1%Z, "Anomalie standard (1 point)").
Proof.
  intros Hne Hds Hmem.
  destruct (signed_digits_plain "-" ds (or_intror eq_refl) Hds) as [Hc [Hu [Ht Hd]]].
  split.
  - unfold type_anomalie. rewrite Hc, Hu, Ht, Hd.
    change (is_balanced_translocation (String "-" ds)) with false.
    change (is_balanced_insertion (String "-" ds)) with false.
    cbv iota.
    change (String "-" ds =? "<2n>")%string with false.
    change (String "-" ds =? "+mar")%string with false. cbv iota.
    cbn [startswith Ascii.eqb Bool.eqb andb].
    rewrite sub_nondigit_filter. cbn [filter_chars].
    change (isdigit "-") with false. cbv iota.
    now rewrite (filter_digits_all ds Hds).
  - unfold score_iscn.
    change (is_some (match_ re_constitutional (String "-" ds))) with false.
    rewrite Hmem.
    cbn [startswith Ascii.eqb Bool.eqb andb orb].
    unfold standard_scoring, is_single_chr_deseq. rewrite Hc, Hu.
    reflexivity.
Qed.

Lemma plain_loss_scoring_witness :
  type_anomalie "-7" = "Perte chr7"
  /\ score_iscn [] "-7" 2 = Ok (1%Z, "Anomalie standard (1 point)").
Proof.
  apply (plain_loss_scoring "7" [] 2); [discriminate | reflexivity | reflexivity].
Defined.

(* ================================================================== *)
(** ** Insertions and unbalanced translocations *)

(** X18: A balanced insertion that holds no [t(] is typed "Insertion équilibrée"
    and has 1 point under ISCN 2024, whatever the other tokens of the list:
    the detector never marks it. *)
Theorem balanced_insertion_scores_one (anomalies : list string)
  (implicit_info : @dict string implicit_entry) (anom : string) (cnt : Z) :
  detect_implicit_anomalies anomalies = Ok implicit_info ->
  is_balanced_insertion anom = true ->
  contains "t(" anom = false ->
  type_anomalie anom = "Insertion équilibrée"
  /\ score_iscn implicit_info anom cnt = Ok (1%Z, "Anomalie standard (1 point)").
Proof.
  intros Hdet Hb Ht.
  apply detect_implicit_entries in Hdet.
  assert (Hshape : exists r, anom = String "i" (String "n" (String "s" (String "(" r)))).
  { unfold is_balanced_insertion in Hb.
    repeat (apply andb_true_iff in Hb; destruct Hb as [Hb ?]).
    now apply (balanced_prefix "ins"). }
  destruct Hshape as [r ->].
  set (a := String "i" (String "n" (String "s" (String "(" r)))) in *.
  assert (Hmem : mem String.eqb a implicit_info = false).
  { destruct (mem String.eqb a implicit_info) eqn:Hm; [|reflexivity].
    apply (implicit_key_prefix _ _ _ Hdet) in Hm. discriminate. }
  assert (Hc : is_complex_multichr_deseq a = false).
  { unfold is_complex_multichr_deseq.
    destruct (List.length (get_chromosomes a) <=? 1); [reflexivity|].
    rewrite Hb, Ht. change (startswith a "der" || startswith a "dic" || startswith a "r(")
      with false. cbv iota. now rewrite andb_false_r. }
  assert (Hu : is_unbalanced_translocation a = false).
  { unfold is_unbalanced_translocation. rewrite Ht. now rewrite andb_false_r. }
  assert (Hbt : is_balanced_translocation a = false) by reflexivity.
  split.
  - unfold type_anomalie. rewrite Hc, Hbt, Hu, Hb. reflexivity.
  - unfold score_iscn. rewrite Hmem.
    unfold standard_scoring. rewrite Hc, Hu. reflexivity.
Qed.

Lemma balanced_insertion_scores_one_witness :
  type_anomalie "ins(5;2)(p14;q22q32)" = "Insertion équilibrée"
  /\ score_iscn [] "ins(5;2)(p14;q22q32)" 1 = Ok (1%Z, "Anomalie standard (1 point)").
Proof.
  apply (balanced_insertion_scores_one ["ins(5;2)(p14;q22q32)"] []); reflexivity.
Defined.

(** X19: A token written in ASCII that holds [t(] without being a balanced
    translocation and that does not start with [+] has 2 points under ISCN
    2024, whatever its count, unless the detector has marked it. *)
Theorem unbalanced_translocation_scores_two
  (implicit_info : @dict string implicit_entry) (anom : string) (cnt : Z) :
  all_chars is_ascii anom = true ->
  contains "t(" anom = true ->
  is_balanced_translocation anom = false ->
  startswith anom "+" = false ->
  mem String.eqb anom implicit_info = false ->
  exists explication, score_iscn implicit_info anom cnt = Ok (2%Z, explication).
Proof.
  intros _ Ht Hb Hplus Hmem.
  assert (Hu : is_unbalanced_translocation anom = true).
  { unfold is_unbalanced_translocation. rewrite Ht, Hb.
    destruct (contains "der" anom || contains "dic" anom); reflexivity. }
  assert (Hstd : exists explication, standard_scoring anom cnt = (2%Z, explication)).
  { unfold standard_scoring. rewrite Hu.
    destruct (is_single_chr_deseq anom cnt); [now eexists|].
    destruct (is_complex_multichr_deseq anom); now eexists. }
  destruct Hstd as [ex Hstd].
  unfold score_iscn.
  destruct (is_some (match_ re_constitutional anom)) eqn:Hc.
  { apply constitutional_prefix in Hc. congruence. }
  rewrite Hmem, Hstd.
  destruct (startswith anom "+" || startswith anom "-"); [now eexists|].
  destruct (startswith anom "dic"); now eexists.
Qed.

Lemma unbalanced_translocation_scores_two_witness :
  exists explication,
    score_iscn [] "t(X;1)(p22;q21)" 1 = Ok (2%Z, explication).
Proof.
  apply (unbalanced_translocation_scores_two [] "t(X;1)(p22;q21)" 1); reflexivity.
Defined.

(* ================================================================== *)
(** ** Derivatives implied by an explicit derivative *)

(** A greedy repetition finds nothing further on when what follows needs a
    [t] and there is none. *)
Lemma rep_greedy_none_later {R : Type} (p : ascii -> bool) (k : cont R) :
  (forall pos s caps,
     match s with
     | EmptyString => True
     | String c _ => is_t c = false
     end -> k pos s caps = None) ->
  forall u fuel pos caps,
    all_chars (fun c => negb (is_t c)) u = true ->
    rep_loop (run (Chr p)) true k fuel pos u caps = None.
Proof.
  intros Hk.
  induction u as [|c u IH]; intros fuel pos caps Hu; rewrite rep_loop_eq; cbv zeta.
  - destruct fuel; cbn [run]; now apply Hk.
  - cbn in Hu. apply andb_true_iff in Hu. destruct Hu as [Hc Hu].
    apply negb_true_iff in Hc.
    destruct fuel as [|fuel]; [now apply Hk|].
    rewrite run_Chr_cons. destruct (p c).
    + rewrite ltb_succ, (IH fuel (S pos) caps Hu). now apply Hk.
    + now apply Hk.
Qed.

Lemma rep_greedy_only_here {R : Type} (p : ascii -> bool) (k : cont R) :
  (forall pos s caps,
     match s with
     | EmptyString => True
     | String c _ => is_t c = false
     end -> k pos s caps = None) ->
  forall c u fuel pos caps,
    all_chars (fun c => negb (is_t c)) u = true ->
    rep_loop (run (Chr p)) true k fuel pos (String c u) caps = k pos (String c u) caps.
Proof.
  intros Hk c u fuel pos caps Hu. rewrite rep_loop_eq. cbv zeta.
  destruct fuel as [|fuel]; [reflexivity|].
  rewrite run_Chr_cons. destruct (p c); [|reflexivity].
  now rewrite ltb_succ, (rep_greedy_none_later p k Hk u fuel (S pos) caps Hu).
Qed.

Lemma digits_have_no_t (s : string) :
  all_chars isdigit s = true -> all_chars (fun c => negb (is_t c)) s = true.
Proof. unfold is_t. now apply digit_is_not. Qed.

Lemma substring_prefix_of (u r : string) (n : nat) :
  n = String.length u -> substring 0 n (u ++ r) = u.
Proof. intros ->. apply substring_app_prefix. Qed.

Lemma run_Seq_eq {R : Type} (r1 r2 : regex) (pos : nat) (s : string)
  (caps : list string) (k : cont R) :
  run (Seq r1 r2) pos s caps k
  = run r1 pos s caps (fun pos' s' caps' => run r2 pos' s' caps' k).
Proof. reflexivity. Qed.

Lemma run_Alt_eq {R : Type} (r1 r2 : regex) (pos : nat) (s : string)
  (caps : list string) (k : cont R) :
  run (Alt r1 r2) pos s caps k
  = match run r1 pos s caps k with
    | Some x => Some x
    | None => run r2 pos s caps k
    end.
Proof. reflexivity. Qed.

Lemma run_Rep_eq {R : Type} (greedy : bool) (r : regex) (pos : nat) (s : string)
  (caps : list string) (k : cont R) :
  run (Rep greedy r) pos s caps k
  = rep_loop (run r) greedy k (S (String.length s)) pos s caps.
Proof. reflexivity. Qed.

(** A greedy [p+] in front of a run of the class that ends the string or
    is followed by another character stops at the end of the run, when what
    follows succeeds there. *)
Lemma run_plus_max {R : Type} (p : ascii -> bool) (D tail : string) (k : cont R)
  (pos : nat) (caps : list string) (x : R) :
  D <> EmptyString -> all_chars p D = true ->
  match tail with
  | EmptyString => True
  | String c _ => p c = false
  end ->
  k (pos + String.length D) tail caps = Some x ->
  run (Plus true (Chr p)) pos (D ++ tail) caps k = Some x.
Proof.
  intros Hne Hall Htail Hk.
  destruct D as [|d D]; [contradiction|].
  cbn in Hall. apply andb_true_iff in Hall. destruct Hall as [Hd Hall].
  unfold Plus. rewrite run_Seq_eq. cbn [append]. rewrite run_Chr_cons, Hd.
  rewrite run_Rep_eq.
  apply rep_chr_greedy_max; [exact Hall | exact Htail | |].
  - rewrite string_length_app. lia.
  - cbn [String.length] in Hk. now rewrite Nat.add_succ_r in Hk.
Qed.

Lemma run_group_max {R : Type} (p : ascii -> bool) (D tail : string) (k : cont R)
  (pos : nat) (caps : list string) (x : R) :
  D <> EmptyString -> all_chars p D = true ->
  match tail with
  | EmptyString => True
  | String c _ => p c = false
  end ->
  k (pos + String.length D) tail (caps ++ [D]) = Some x ->
  run (Grp (Plus true (Chr p))) pos (D ++ tail) caps k = Some x.
Proof.
  intros Hne Hall Htail Hk.
  change (run (Grp (Plus true (Chr p))) pos (D ++ tail) caps k)
    with (run (Plus true (Chr p)) pos (D ++ tail) caps
            (fun pos' s' caps' =>
               k pos' s' (caps' ++ [substring 0 (pos' - pos) (D ++ tail)]))).
  apply run_plus_max; [exact Hne | exact Hall | exact Htail |].
  rewrite substring_prefix_of by lia. exact Hk.
Qed.

(** [re.match] of the rule 1 pattern on [der(C)t(A;B)rest], where [rest]
    holds no [t], captures [C], [A] and [B]. *)
Lemma der_t_match (C A B rest : string) :
  C <> EmptyString -> all_chars isdigit C = true ->
  A <> EmptyString -> all_chars isdigit A = true ->
  B <> EmptyString -> all_chars isdigit B = true ->
  all_chars (fun c => negb (is_t c)) rest = true ->
  match_ re_der_t (der_t_token C A B rest) = Some [C; A; B].
Proof.
  intros HC HCd HA HAd HB HBd Hrest.
  assert (G : exists n, match_at re_der_t 0 (der_t_token C A B rest) = Some (n, [C; A; B])).
  { eexists. unfold match_at, re_der_t, Seqs, Digit, Dot. cbn [fold_right].
    change (der_t_token C A B rest)
      with ("der" ++ "(" ++ C ++ ")" ++ "t" ++ "(" ++ A ++ ";" ++ B ++ ")" ++ rest)%string.
    rewrite run_Seq_eq, run_Alt_eq.
    rewrite (run_Lit_app "der"). cbv beta.
    rewrite run_Seq_eq, (run_Lit_app "("). cbv beta. rewrite run_Seq_eq.
    match goal with
    | |- _ = Some ?x => rewrite (run_group_max isdigit C _ _ _ _ x HC HCd)
    end; [reflexivity | reflexivity |].
    cbv beta.
    rewrite run_Seq_eq, (run_Lit_app ")"). cbv beta. rewrite run_Seq_eq, run_Rep_eq.
    cbn [append].
    rewrite rep_greedy_only_here.
    - cbv beta.
      change (String "t" (String "(" (A ++ String ";" (B ++ String ")" rest))))
        with ("t" ++ "(" ++ A ++ ";" ++ B ++ ")" ++ rest)%string.
      rewrite run_Seq_eq, (run_Lit_app "t"). cbv beta.
      rewrite run_Seq_eq, (run_Lit_app "("). cbv beta. rewrite run_Seq_eq.
      match goal with
    | |- _ = Some ?x => rewrite (run_group_max isdigit A _ _ _ _ x HA HAd)
    end;
        [reflexivity | reflexivity |].
      cbv beta.
      rewrite run_Seq_eq, (run_Lit_app ";"). cbv beta. rewrite run_Seq_eq.
      match goal with
    | |- _ = Some ?x => rewrite (run_group_max isdigit B _ _ _ _ x HB HBd)
    end;
        [reflexivity | reflexivity |].
      cbv beta.
      rewrite run_Seq_eq, (run_Lit_app ")"). cbn [run app]. reflexivity.
    - intros pos s caps Hs. rewrite run_Seq_eq.
      destruct s as [|c t]; [reflexivity|].
      cbn [Lit]. rewrite run_Seq_eq, run_Chr_cons.
      unfold is_t in Hs. now rewrite Ascii.eqb_sym, Hs.
    - cbn [all_chars]. rewrite all_chars_app. cbn [all_chars].
      rewrite all_chars_app. cbn [all_chars].
      rewrite (digits_have_no_t A HAd), (digits_have_no_t B HBd), Hrest. reflexivity. }
  destruct G as [n G]. unfold match_. now rewrite G.
Qed.

Lemma pair_eqb_eq (x y : string * string) : pair_eqb x y = true <-> x = y.
Proof.
  destruct x as [a b], y as [c d]. unfold pair_eqb. cbn [fst snd].
  rewrite andb_true_iff, !String.eqb_eq. split.
  - intros [-> ->]. reflexivity.
  - intros [= -> ->]. now split.
Qed.

Lemma sorted_pair_sym (a b : string) : sorted_pair b a = sorted_pair a b.
Proof.
  unfold sorted_pair.
  destruct (String.leb a b) eqn:Eab, (String.leb b a) eqn:Eba; try reflexivity.
  - now rewrite (String.leb_antisym a b Eab Eba).
  - destruct (String.leb_total a b); congruence.
Qed.

(** *** The groups of rule 1 *)

Lemma t_events_step_keeps (acc : @dict (string * string) (list string))
  (x an : string) (K : string * string) :
  In an (get_default pair_eqb K [] acc) ->
  In an (get_default pair_eqb K [] (t_events_step acc x)).
Proof.
  intros H. unfold t_events_step.
  destruct (match_ re_der_t x) as [m|]; [|exact H].
  cbv zeta. unfold get_default, setdefault_append in *.
  set (K' := sorted_pair (group 2 m) (group 3 m)).
  destruct (pair_eqb K K') eqn:E.
  - apply pair_eqb_eq in E. subst K.
    rewrite (get_upsert_same _ pair_eqb_eq).
    destruct (get pair_eqb K' acc); [apply in_or_app; now left | destruct H].
  - rewrite (get_upsert_other _ pair_eqb_eq); [exact H|].
    intros ->. rewrite (proj2 (pair_eqb_eq K' K') eq_refl) in E. discriminate.
Qed.

Lemma t_events_step_adds (acc : @dict (string * string) (list string))
  (x : string) (m : list string) :
  match_ re_der_t x = Some m ->
  In x (get_default pair_eqb (sorted_pair (group 2 m) (group 3 m)) []
          (t_events_step acc x)).
Proof.
  intros Hm. unfold t_events_step. rewrite Hm. cbv zeta.
  unfold get_default, setdefault_append.
  rewrite (get_upsert_same _ pair_eqb_eq).
  destruct (get pair_eqb _ acc); [apply in_or_app; right|]; now left.
Qed.

Lemma t_events_has (l : list string) (acc : @dict (string * string) (list string))
  (x : string) (m : list string) :
  In x l -> match_ re_der_t x = Some m ->
  In x (get_default pair_eqb (sorted_pair (group 2 m) (group 3 m)) []
          (fold_left t_events_step l acc)).
Proof.
  intros Hin Hm.
  assert (Keep : forall l acc K an,
             In an (get_default pair_eqb K [] acc) ->
             In an (get_default pair_eqb K [] (fold_left t_events_step l acc))).
  { clear. induction l as [|y t IH]; intros acc K an H; cbn [fold_left]; [exact H|].
    apply IH. now apply t_events_step_keeps. }
  revert acc.
  induction l as [|y t IH]; intros acc; [destruct Hin|].
  cbn [fold_left]. destruct Hin as [->|Hin].
  - apply Keep. now apply t_events_step_adds.
  - now apply IH.
Qed.

(** *** The second loop of rule 1 *)

Lemma set_mem_true_In (x : string) (s : list string) : set_mem x s = true -> In x s.
Proof.
  unfold set_mem. intros H. apply existsb_exists in H.
  destruct H as [y [Hy E]]. apply String.eqb_eq in E. now subst y.
Qed.

Lemma mark_fold_mem (explicits : list string) (entry : implicit_entry)
  (l : list string) (acc : @dict string implicit_entry) (k : string) :
  mem String.eqb k acc = true \/ (In k l /\ set_mem k explicits = false) ->
  mem String.eqb k
    (fold_left
       (fun imp d =>
          if negb (set_mem d explicits) then setitem String.eqb d entry imp else imp)
       l acc) = true.
Proof.
  revert acc.
  induction l as [|d t IH]; intros acc; cbn [fold_left In].
  - intros [H|[[] _]]. exact H.
  - intros [H|[[->|H] Hk]]; apply IH.
    + left. destruct (negb (set_mem d explicits)); [|exact H].
      unfold setitem. now apply mem_upsert_mono.
    + left. rewrite Hk. cbn [negb]. unfold setitem.
      apply mem_upsert_same. apply String.eqb_eq.
    + right. now split.
Qed.

Lemma mark_implicit_ders_mono (nto : @dict string string)
  (implicit implicit' : @dict string implicit_entry) (ders : list string) (k : string) :
  mem String.eqb k implicit = true ->
  mark_implicit_ders nto implicit ders = Ok implicit' ->
  mem String.eqb k implicit' = true.
Proof.
  intros Hk. unfold mark_implicit_ders.
  destruct (filter (fun d => is_some (search re_explicit d)) ders) as [|first rest];
    [now intros [= <-]|].
  destruct (getitem first nto) as [r|]; [|discriminate]. cbn [bind].
  intros [= <-].
  apply (mark_fold_mem (first :: rest) {| reason := "Dérivé implicite"; ref := r |}).
  now left.
Qed.

Lemma mark_implicit_ders_sets (nto : @dict string string)
  (implicit implicit' : @dict string implicit_entry) (ders : list string) (d1 d2 : string) :
  In d1 ders -> In d2 ders ->
  is_some (search re_explicit d1) = false ->
  is_some (search re_explicit d2) = true ->
  mark_implicit_ders nto implicit ders = Ok implicit' ->
  mem String.eqb d1 implicit' = true.
Proof.
  intros H1 H2 Hs1 Hs2. unfold mark_implicit_ders.
  destruct (filter (fun d => is_some (search re_explicit d)) ders) as [|first rest] eqn:Ex.
  { exfalso. assert (H : In d2 []) by (rewrite <- Ex; apply filter_In; now split).
    destruct H. }
  destruct (getitem first nto) as [r|]; [|discriminate]. cbn [bind].
  intros [= <-].
  apply (mark_fold_mem (first :: rest) {| reason := "Dérivé implicite"; ref := r |}).
  right. split; [exact H1|].
  destruct (set_mem d1 (first :: rest)) eqn:E; [|reflexivity].
  apply set_mem_true_In in E. rewrite <- Ex in E. apply filter_In in E.
  destruct E as [_ E]. congruence.
Qed.

Lemma ders_loop_sets (nto : @dict string string) (d1 d2 : string)
  (l : list (list string)) (st st' : @dict string implicit_entry) :
  is_some (search re_explicit d1) = false ->
  is_some (search re_explicit d2) = true ->
  mem String.eqb d1 st = true \/ (exists ders, In ders l /\ In d1 ders /\ In d2 ders) ->
  for_each (mark_implicit_ders nto) l st = Ok st' ->
  mem String.eqb d1 st' = true.
Proof.
  intros Hs1 Hs2. revert st.
  induction l as [|ders t IH]; intros st H; cbn [for_each].
  - intros [= <-]. destruct H as [H|[ders [[] _]]]. exact H.
  - destruct (mark_implicit_ders nto st ders) as [st1|e] eqn:E; [|discriminate].
    cbn [bind]. apply IH.
    destruct H as [H|[ders' [[->|Hin] [H1 H2]]]].
    + left. exact (mark_implicit_ders_mono _ _ _ _ _ H E).
    + left. exact (mark_implicit_ders_sets _ _ _ _ _ _ H1 H2 Hs1 Hs2 E).
    + right. exists ders'. now repeat split.
Qed.

Lemma gain_loop_mono (nto : @dict string string) (multi_der : @dict string (list string))
  (l : list string) (st st' : @dict string implicit_entry) (k : string) :
  mem String.eqb k st = true ->
  for_each (mark_implicit_gain nto multi_der) l st = Ok st' ->
  mem String.eqb k st' = true.
Proof.
  intros Hk H.
  apply (for_each_inv _ (fun d => mem String.eqb k d = true) l) with (st := st) in H;
    [exact H | | exact Hk].
  intros s x s' _ Hs Hbody. exact (mark_implicit_gain_mono _ _ _ _ _ _ Hs Hbody).
Qed.

(** X20: When the list holds two derivatives of the same translocation,
    [der(C1)t(A;B)...] without [add], [del] or [dup] and [der(C2)t(A;B)...]
    or [der(C2)t(B;A)...] with one of them (no [t] after the translocation
    in either), the first is marked as an implicit derivative and has 0
    point under ISCN 2024, with the explanation built from the marking. *)
Theorem explicit_derivative_hides_plain (anomalies : list string)
  (C1 C2 A B A2 B2 rest1 rest2 : string) :
  C1 <> EmptyString -> all_chars isdigit C1 = true ->
  C2 <> EmptyString -> all_chars isdigit C2 = true ->
  A <> EmptyString -> all_chars isdigit A = true ->
  B <> EmptyString -> all_chars isdigit B = true ->
  (A2 = A /\ B2 = B) \/ (A2 = B /\ B2 = A) ->
  all_chars (fun c => negb (is_t c)) rest1 = true ->
  all_chars (fun c => negb (is_t c)) rest2 = true ->
  is_some (search re_explicit (der_t_token C1 A B rest1)) = false ->
  is_some (search re_explicit (der_t_token C2 A2 B2 rest2)) = true ->
  In (der_t_token C1 A B rest1) (map normalize_anomaly anomalies) ->
  In (der_t_token C2 A2 B2 rest2) (map normalize_anomaly anomalies) ->
  exists implicit e,
    detect_implicit_anomalies anomalies = Ok implicit
    /\ get String.eqb (der_t_token C1 A B rest1) implicit = Some e
    /\ reason e = "Dérivé implicite"
    /\ forall cnt,
         score_iscn implicit (der_t_token C1 A B rest1) cnt
         = Ok (0%Z, (reason e ++ " (" ++ ref e ++ ") (0 point)")%string).
Proof.
  intros HC1 HC1d HC2 HC2d HA HAd HB HBd Hpair Hr1 Hr2 Hs1 Hs2 Hin1 Hin2.
  set (d1 := der_t_token C1 A B rest1) in *.
  set (d2 := der_t_token C2 A2 B2 rest2) in *.
  assert (Hm1 : match_ re_der_t d1 = Some [C1; A; B]).
  { now apply der_t_match. }
  assert (Hm2 : match_ re_der_t d2 = Some [C2; A2; B2]).
  { destruct Hpair as [[-> ->]|[-> ->]]; now apply der_t_match. }
  assert (HK : sorted_pair A2 B2 = sorted_pair A B).
  { destruct Hpair as [[-> ->]|[-> ->]]; [reflexivity | apply sorted_pair_sym]. }
  set (norm_keys := keys (Counter (map normalize_anomaly anomalies))).
  assert (Hk1 : In d1 norm_keys) by now apply Counter_keys_iff.
  assert (Hk2 : In d2 norm_keys) by now apply Counter_keys_iff.
  pose proof (t_events_has norm_keys [] d1 _ Hk1 Hm1) as G1.
  pose proof (t_events_has norm_keys [] d2 _ Hk2 Hm2) as G2.
  cbn [group nth Nat.sub] in G1, G2. rewrite HK in G2.
  fold (t_events_of norm_keys) in G1, G2.
  assert (Hgroup : exists ders,
             In ders (values (t_events_of norm_keys)) /\ In d1 ders /\ In d2 ders).
  { unfold get_default in G1, G2.
    destruct (get pair_eqb (sorted_pair A B) (t_events_of norm_keys)) as [ders|] eqn:E;
      [|destruct G1].
    exists ders. split; [now apply get_In_values in E | now split]. }
  destruct (detect_implicit_anomalies_total anomalies) as [imp E].
  assert (Hmem : mem String.eqb d1 imp = true).
  { pose proof E as E'. unfold detect_implicit_anomalies in E'.
    fold norm_keys in E'.
    destruct (for_each (mark_implicit_ders (norm_to_orig_of anomalies))
                (values (t_events_of norm_keys)) []) as [imp1|e] eqn:E1; [|discriminate].
    cbn [bind] in E'.
    apply (gain_loop_mono _ _ _ _ _ d1) in E'; [exact E'|].
    apply (ders_loop_sets _ d1 d2 _ _ _ Hs1 Hs2) in E1; [exact E1 | now right]. }
  destruct (getitem_of_mem _ _ Hmem) as [e [Hitem Hget]].
  exists imp, e. split; [exact E|]. split; [exact Hget|]. split.
  - pose proof (detect_implicit_entries _ _ E) as F.
    rewrite Forall_forall in F.
    destruct (F _ (get_In_entry _ _ _ Hget)) as [_ [_ H]]. cbn [fst snd] in H.
    destruct H as [[H _]|[_ [H _]]]; [exact H | discriminate].
  - intros cnt. unfold score_iscn.
    change (is_some (match_ re_constitutional d1)) with false.
    rewrite Hmem, Hitem. reflexivity.
Qed.

Lemma explicit_derivative_hides_plain_witness :
  exists implicit e,
    detect_implicit_anomalies
      ["der(9)t(9;22)(q34;q11)"; "?der(22)t(22;9)(q11;q34)del(22)(q13)"] = Ok implicit
    /\ get String.eqb "der(9)t(9;22)(q34;q11)" implicit = Some e
    /\ reason e = "Dérivé implicite"
    /\ forall cnt,
         score_iscn implicit "der(9)t(9;22)(q34;q11)" cnt
         = Ok (0%Z, (reason e ++ " (" ++ ref e ++ ") (0 point)")%string).
Proof.
  apply (explicit_derivative_hides_plain
           ["der(9)t(9;22)(q34;q11)"; "?der(22)t(22;9)(q11;q34)del(22)(q13)"]
           "9" "22" "9" "22" "22" "9" "(q34;q11)" "(q11;q34)del(22)(q13)");
    [ discriminate | reflexivity | discriminate | reflexivity
    | discriminate | reflexivity | discriminate | reflexivity
    | right; split; reflexivity | reflexivity | reflexivity | reflexivity | reflexivity
    | left; reflexivity | right; left; reflexivity ].
Defined.

(* ================================================================== *)
(** ** The derivative of two chromosomes *)

Lemma finditer_from_skip (r : regex) (u s : string) (pos : nat) :
  finditer_from r (String.length u) pos (u ++ s)
  = finditer_from r 0 (pos + String.length u) s.
Proof.
  revert pos.
  induction u as [|c u IH]; intros pos; cbn [String.length append].
  - now rewrite Nat.add_0_r.
  - cbn [finditer_from Nat.pred]. rewrite IH. now rewrite Nat.add_succ_r.
Qed.

Lemma chromosomes_match_der (pos : nat) (A tail : string) :
  A <> EmptyString -> all_chars isdigit A = true ->
  match_at re_chromosomes pos ("der" ++ "(" ++ A ++ ")" ++ tail)
  = Some (4 + String.length A, [A]).
Proof.
  intros HA HAd. apply digits_in_list_class in HAd.
  unfold match_at, re_chromosomes, Seqs. cbn [fold_right map Alts].
  rewrite run_Seq_eq, run_Alt_eq, (run_Lit_app "der"). cbv beta.
  rewrite run_Seq_eq, (run_Lit_app "("). cbv beta. rewrite run_Seq_eq.
  rewrite (run_group_max digit_or_semicolon A _ _ _ _ (4 + String.length A, [A]) HA HAd);
    [reflexivity | reflexivity |].
  cbn [run app String.length]. do 2 f_equal. lia.
Qed.

Lemma chromosomes_match_t (pos : nat) (L tail : string) :
  L <> EmptyString -> all_chars digit_or_semicolon L = true ->
  exists n, match_at re_chromosomes pos ("t" ++ "(" ++ L ++ ")" ++ tail) = Some (n, [L]).
Proof.
  intros HL HLd. eexists.
  unfold match_at, re_chromosomes, Seqs. cbn [fold_right map Alts].
  rewrite run_Seq_eq.
  do 5 (rewrite run_Alt_eq;
        match goal with
        | |- context [run (Lit ?kw) ?p ?s ?c ?k] =>
            change (run (Lit kw) p s c k) with (@None (nat * list string))
        end; cbv iota).
  rewrite run_Alt_eq, (run_Lit_app "t"). cbv beta.
  rewrite run_Seq_eq, (run_Lit_app "("). cbv beta. rewrite run_Seq_eq.
  match goal with
  | |- _ = Some ?x => rewrite (run_group_max digit_or_semicolon L _ _ _ _ x HL HLd)
  end; [reflexivity | reflexivity |].
  cbn [run app]. reflexivity.
Qed.

(** The extractor finds both chromosomes of [der(A)t(A;B)...]. *)
Lemma chromosomes_of_derivative (A B rest : string) :
  A <> EmptyString -> all_chars isdigit A = true ->
  B <> EmptyString -> all_chars isdigit B = true ->
  A <> B ->
  In A (get_chromosomes (derivative_token A B rest))
  /\ In B (get_chromosomes (derivative_token A B rest)).
Proof.
  intros HA HAd HB HBd Hne.
  set (L := (A ++ ";" ++ B)%string).
  assert (HL : all_chars digit_or_semicolon L = true).
  { unfold L. rewrite all_chars_app. cbn [all_chars append].
    rewrite (digits_in_list_class A HAd), (digits_in_list_class B HBd). reflexivity. }
  assert (HLne : L <> EmptyString).
  { unfold L. destruct A; [contradiction | discriminate]. }
  assert (Hf : exists tl,
             finditer re_chromosomes (derivative_token A B rest) = [A] :: [L] :: tl).
  { unfold finditer.
    change (derivative_token A B rest)
      with (String "d" ("er(" ++ A ++ ")" ++ "t" ++ "(" ++ L ++ ")" ++ rest))%string.
    cbn [finditer_from].
    change (String "d" ("er(" ++ A ++ ")" ++ "t" ++ "(" ++ L ++ ")" ++ rest))%string
      with ("der" ++ "(" ++ A ++ ")" ++ "t" ++ "(" ++ L ++ ")" ++ rest)%string.
    rewrite (chromosomes_match_der 0 A _ HA HAd).
    replace (4 + String.length A - 1) with (String.length ("er(" ++ A)%string)
      by (rewrite string_length_app; cbn; lia).
    replace ("er(" ++ A ++ ")" ++ "t" ++ "(" ++ L ++ ")" ++ rest)%string
      with (("er(" ++ A) ++ ")" ++ "t" ++ "(" ++ L ++ ")" ++ rest)%string
      by (now rewrite string_app_assoc).
    rewrite finditer_from_skip.
    cbn [append finditer_from].
    match goal with
    | |- context [match_at re_chromosomes ?p (String ")" ?s)] =>
        change (match_at re_chromosomes p (String ")" s)) with (@None (nat * list string))
    end.
    cbn [Nat.pred].
    cbn [finditer_from].
    match goal with
    | |- context [match_at re_chromosomes ?p (String "t" ?s)] =>
        destruct (chromosomes_match_t p L rest HLne HL) as [n E];
        change ("t" ++ "(" ++ L ++ ")" ++ rest)%string
          with (String "t" (String "(" (L ++ String ")" rest))) in E;
        rewrite E
    end.
    eexists. reflexivity. }
  destruct Hf as [tl Hf].
  assert (HsplitA : split ";" A = [A]).
  { apply split_no_sep. now apply digit_is_not. }
  assert (HsplitB : split ";" B = [B]).
  { apply split_no_sep. now apply digit_is_not. }
  assert (HsplitL : split ";" L = [A; B]).
  { unfold L. cbn [append]. now rewrite split_app_sep, HsplitA, HsplitB. }
  assert (HBA : (B =? A)%string = false).
  { apply String.eqb_neq. congruence. }
  unfold get_chromosomes. rewrite Hf. cbn [fold_left group nth Nat.sub].
  rewrite HsplitA, HsplitL.
  assert (Hstart : fold_left set_add [A; B] (fold_left set_add [A] []) = [A; B]).
  { unfold set_add, set_mem. cbn [fold_left existsb app].
    rewrite String.eqb_refl. cbn [orb existsb]. rewrite HBA. reflexivity. }
  rewrite Hstart.
  assert (G : forall ms s y,
             In y s ->
             In y (fold_left
                     (fun nums m => fold_left set_add (split ";" (group 1 m)) nums) ms s)).
  { induction ms as [|m ms IH]; intros s y Hy; cbn [fold_left]; [exact Hy|].
    apply IH. now apply (set_update_incl (split ";" (group 1 m)) s y). }
  split; apply G; [now left | right; now left].
Qed.

(** X21: A derivative [der(A)t(A;B)...] of two different chromosomes is typed
    "Multichromosomique déséquilibrée" and, when the detector has not
    marked it, has 2 points under ISCN 2024 as a complex multichromosomal
    imbalance. *)
Theorem derivative_is_multichromosomal (A B rest : string)
  (implicit_info : @dict string implicit_entry) (cnt : Z) :
  A <> EmptyString -> all_chars isdigit A = true ->
  B <> EmptyString -> all_chars isdigit B = true ->
  A <> B ->
  mem String.eqb (derivative_token A B rest) implicit_info = false ->
  type_anomalie (derivative_token A B rest) = "Multichromosomique déséquilibrée"
  /\ score_iscn implicit_info (derivative_token A B rest) cnt
     = Ok (2%Z, "Déséquilibre multichromosomique complexe (2 points)").
Proof.
  intros HA HAd HB HBd Hne Hmem.
  destruct (chromosomes_of_derivative A B rest HA HAd HB HBd Hne) as [H1 H2].
  assert (Hc : is_complex_multichr_deseq (derivative_token A B rest) = true).
  { unfold is_complex_multichr_deseq.
    pose proof (two_distinct_length _ A B H1 H2 Hne) as Hlen.
    apply Nat.leb_gt in Hlen. rewrite Hlen. reflexivity. }
  split.
  - unfold type_anomalie. now rewrite Hc.
  - unfold score_iscn.
    change (is_some (match_ re_constitutional (derivative_token A B rest))) with false.
    rewrite Hmem. unfold standard_scoring. rewrite Hc. reflexivity.
Qed.

Lemma derivative_is_multichromosomal_witness :
  type_anomalie "der(9)t(9;22)(q34;q11)" = "Multichromosomique déséquilibrée"
  /\ score_iscn [] "der(9)t(9;22)(q34;q11)" 2
     = Ok (2%Z, "Déséquilibre multichromosomique complexe (2 points)").
Proof.
  apply (derivative_is_multichromosomal "9" "22" "(q34;q11)" [] 2);
    [discriminate | reflexivity | discriminate | reflexivity | discriminate | reflexivity].
Defined.
